(** * goes_ortho: orthorectification of GOES-R ABI images over a DEM

    A shallow embedding of [goes_ortho.py] and the properties its
    specification states about it.

    Numbers.  The program computes with numpy [float64].  They are modelled
    by [float64] below: a finite value is an exact real number, next to the
    two infinities and NaN, and every operation follows the IEEE-754 rules
    for the special values (NaN propagates, [0/0] and [sqrt] of a negative
    number are NaN, a non-zero number over zero is an infinity).  Rounding
    and overflow of finite values are not modelled, and zero carries no
    sign (a zero divisor counts as [+0]). *)

From Stdlib Require Import Reals Lra Lia Bool String List ZArith.
From stdpp Require Import gmap strings list fin_maps.

Open Scope R_scope.

(** ** The number model *)

Inductive float64 : Type :=
| Fin (r : R)
| Inf (neg : bool)
| NaN.

Module Float.

(** Sign bit of a finite real. *)
Definition signbit (r : R) : bool := if Rlt_dec r 0 then true else false.

Definition neg (x : float64) : float64 :=
  match x with
  | Fin r => Fin (- r)
  | Inf s => Inf (negb s)
  | NaN => NaN
  end.

Definition add (x y : float64) : float64 :=
  match x, y with
  | NaN, _ | _, NaN => NaN
  | Fin a, Fin b => Fin (a + b)
  | Fin _, Inf s | Inf s, Fin _ => Inf s
  | Inf s, Inf t => if Bool.eqb s t then Inf s else NaN
  end.

Definition sub (x y : float64) : float64 := add x (neg y).

Definition mul (x y : float64) : float64 :=
  match x, y with
  | NaN, _ | _, NaN => NaN
  | Fin a, Fin b => Fin (a * b)
  | Fin a, Inf s | Inf s, Fin a =>
      if Req_dec_T a 0 then NaN else Inf (xorb s (signbit a))
  | Inf s, Inf t => Inf (xorb s t)
  end.

Definition div (x y : float64) : float64 :=
  match x, y with
  | NaN, _ | _, NaN => NaN
  | Fin a, Fin b =>
      if Req_dec_T b 0
      then (if Req_dec_T a 0 then NaN else Inf (signbit a))
      else Fin (a / b)
  | Fin _, Inf _ => Fin 0
  | Inf s, Fin b => Inf (xorb s (signbit b))
  | Inf _, Inf _ => NaN
  end.

(** [x ** 2] *)
Definition sq (x : float64) : float64 := mul x x.

(** [np.sqrt] *)
Definition sqrt (x : float64) : float64 :=
  match x with
  | Fin r => if Rlt_dec r 0 then NaN else Fin (R_sqrt.sqrt r)
  | Inf false => Inf false
  | Inf true => NaN
  | NaN => NaN
  end.

(** [np.sin], [np.cos], [np.tan]: undefined at the infinities; the tangent
    is the quotient, so that it is an infinity at its poles. *)
Definition sin (x : float64) : float64 :=
  match x with Fin r => Fin (Rtrigo_def.sin r) | _ => NaN end.

Definition cos (x : float64) : float64 :=
  match x with Fin r => Fin (Rtrigo_def.cos r) | _ => NaN end.

Definition tan (x : float64) : float64 := div (sin x) (cos x).

(** [np.arctan], [np.arcsin] *)
Definition arctan (x : float64) : float64 :=
  match x with
  | Fin r => Fin (atan r)
  | Inf false => Fin (PI / 2)
  | Inf true => Fin (- (PI / 2))
  | NaN => NaN
  end.

Definition arcsin (x : float64) : float64 :=
  match x with
  | Fin r =>
      if Rlt_dec r (-1) then NaN
      else if Rlt_dec 1 r then NaN
      else Fin (asin r)
  | _ => NaN
  end.

(** [np.radians], [np.degrees] *)
Definition radians (x : float64) : float64 := mul x (Fin (PI / 180)).
Definition degrees (x : float64) : float64 := mul x (Fin (180 / PI)).

(** Comparisons: every comparison with NaN is false, except [!=]. *)
Definition eqb (x y : float64) : bool :=
  match x, y with
  | Fin a, Fin b => if Req_dec_T a b then true else false
  | Inf s, Inf t => Bool.eqb s t
  | _, _ => false
  end.

Definition neb (x y : float64) : bool := negb (eqb x y).

Definition ltb (x y : float64) : bool :=
  match x, y with
  | Fin a, Fin b => if Rlt_dec a b then true else false
  | Fin _, Inf s => negb s
  | Inf s, Fin _ => s
  | Inf s, Inf t => s && negb t
  | _, _ => false
  end.

Definition leb (x y : float64) : bool := ltb x y || eqb x y.

Definition abs (x : float64) : float64 :=
  match x with
  | Fin r => Fin (Rabs r)
  | Inf _ => Inf false
  | NaN => NaN
  end.

Definition is_nan (x : float64) : bool :=
  match x with NaN => true | _ => false end.

(** [np.floor]: the result is a float again. *)
Definition floor (x : float64) : float64 :=
  match x with
  | Fin r => Fin (IZR (Zfloor r))
  | Inf s => Inf s
  | NaN => NaN
  end.

(** [np.sign]: -1, 0 or 1, and NaN for NaN. *)
Definition sign (x : float64) : float64 :=
  match x with
  | Fin r =>
      if Rlt_dec r 0 then Fin (-1)
      else if Rlt_dec 0 r then Fin 1
      else Fin 0
  | Inf true => Fin (-1)
  | Inf false => Fin 1
  | NaN => NaN
  end.

End Float.

Declare Scope float_scope.
Delimit Scope float_scope with fl.
Bind Scope float_scope with float64.
Infix "+" := Float.add : float_scope.
Infix "-" := Float.sub : float_scope.
Infix "*" := Float.mul : float_scope.
Infix "/" := Float.div : float_scope.
Notation "- x" := (Float.neg x) : float_scope.

(** ** Ellipsoid geometry *)

(** The coefficients of the quadratic in [rs] of [ABIangle2LonLat]. *)
Definition quad_a (x y req rpol : float64) : float64 :=
  (Float.sq (Float.sin x)
   + (Float.sq (Float.cos x)
      * (Float.sq (Float.cos y)
         + (Float.sq req / Float.sq rpol) * Float.sq (Float.sin y))))%fl.

Definition quad_b (x y H : float64) : float64 :=
  (Fin (-2) * H * Float.cos x * Float.cos y)%fl.

Definition quad_c (H req : float64) : float64 :=
  (Float.sq H - Float.sq req)%fl.

(** The discriminant [b**2 - 4*a*c]. *)
Definition discriminant (x y H req rpol : float64) : float64 :=
  let a := quad_a x y req rpol in
  let b := quad_b x y H in
  let c := quad_c H req in
  (Float.sq b - Fin 4 * a * c)%fl.

(** [ABIangle2LonLat(x, y, H, req, rpol, lon_0_deg)] *)
Definition ABIangle2LonLat (x y H req rpol lon_0_deg : float64)
  : float64 * float64 :=
  let a := quad_a x y req rpol in
  let b := quad_b x y H in
  let c := quad_c H req in
  let rs :=
    ((- b - Float.sqrt (Float.sq b - Fin 4 * a * c)) / (Fin 2 * a))%fl in
  let Sx := (rs * Float.cos x * Float.cos y)%fl in
  let Sy := (- rs * Float.sin x)%fl in
  let Sz := (rs * Float.cos x * Float.sin y)%fl in
  let lat :=
    Float.arctan ((Float.sq req / Float.sq rpol)
                  * (Sz / Float.sqrt (Float.sq (H - Sx) + Float.sq Sy)))%fl in
  let lat := Float.degrees lat in
  let lon := (lon_0_deg - Float.degrees (Float.arctan (Sy / (H - Sx))))%fl in
  (lon, lat).

(** The two halves of [ABIangle2LonLat]: the distance [rs] from the
    satellite to the point, and the longitude and latitude found from it. *)
Definition range_to_surface (x y H req rpol : float64) : float64 :=
  let a := quad_a x y req rpol in
  let b := quad_b x y H in
  let c := quad_c H req in
  ((- b - Float.sqrt (Float.sq b - Fin 4 * a * c)) / (Fin 2 * a))%fl.

Definition lonlat_of_range (rs x y H req rpol lon_0_deg : float64)
  : float64 * float64 :=
  let Sx := (rs * Float.cos x * Float.cos y)%fl in
  let Sy := (- rs * Float.sin x)%fl in
  let Sz := (rs * Float.cos x * Float.sin y)%fl in
  let lat :=
    Float.arctan ((Float.sq req / Float.sq rpol)
                  * (Sz / Float.sqrt (Float.sq (H - Sx) + Float.sq Sy)))%fl in
  let lat := Float.degrees lat in
  let lon := (lon_0_deg - Float.degrees (Float.arctan (Sy / (H - Sx))))%fl in
  (lon, lat).

(** The intermediate values of [LonLat2ABIangle]: the geocentric latitude,
    the geocentric distance and the position in the satellite frame. *)
Definition geocentric_lat (lat_deg req rpol : float64) : float64 :=
  let lat := Float.radians lat_deg in
  Float.arctan ((Float.sq rpol / Float.sq req) * Float.tan lat)%fl.

Definition geocentric_dist (lat_deg z req rpol e : float64) : float64 :=
  let lat_geo := geocentric_lat lat_deg req rpol in
  let _rc :=
    (rpol / Float.sqrt (Fin 1 - Float.sq e * Float.sq (Float.cos lat_geo)))%fl in
  (_rc + z)%fl.

Definition sat_frame (lon_deg lat_deg z H req rpol e lon_0_deg : float64)
  : float64 * float64 * float64 :=
  let lon := Float.radians lon_deg in
  let lon_0 := Float.radians lon_0_deg in
  let lat_geo := geocentric_lat lat_deg req rpol in
  let rc := geocentric_dist lat_deg z req rpol e in
  let Sx := (H - rc * Float.cos lat_geo * Float.cos (lon - lon_0))%fl in
  let Sy := (- rc * Float.cos lat_geo * Float.sin (lon - lon_0))%fl in
  let Sz := (rc * Float.sin lat_geo)%fl in
  (Sx, Sy, Sz).

(** [LonLat2ABIangle(lon_deg, lat_deg, z, H, req, rpol, e, lon_0_deg)]:
    the pair [(x, y)] is returned as it is computed. *)
Definition LonLat2ABIangle (lon_deg lat_deg z H req rpol e lon_0_deg : float64)
  : float64 * float64 :=
  let '(Sx, Sy, Sz) := sat_frame lon_deg lat_deg z H req rpol e lon_0_deg in
  let y := Float.arctan (Sz / Sx)%fl in
  let x := Float.arcsin (- Sy / Float.sqrt (Float.sq Sx + Float.sq Sy + Float.sq Sz))%fl in
  (x, y).

(** The visibility test that the source carries as a comment only:
    [condition = ( H * (H-Sx) ) < ( Sy**2 + (req**2 / rpol**2)*Sz**2 )]. *)
Definition not_visible (lon_deg lat_deg z H req rpol e lon_0_deg : float64)
  : bool :=
  let '(Sx, Sy, Sz) := sat_frame lon_deg lat_deg z H req rpol e lon_0_deg in
  Float.ltb (H * (H - Sx))%fl
            (Float.sq Sy + (Float.sq req / Float.sq rpol) * Float.sq Sz)%fl.

(** The variant the commented-out lines describe: NaN for a point that the
    test finds not visible.  It is not what the program runs. *)
Definition LonLat2ABIangle_checked
    (lon_deg lat_deg z H req rpol e lon_0_deg : float64) : float64 * float64 :=
  if not_visible lon_deg lat_deg z H req rpol e lon_0_deg
  then (NaN, NaN)
  else LonLat2ABIangle lon_deg lat_deg z H req rpol e lon_0_deg.

(** ** Data sources, datasets and the world

    The functions below the geometry open files, print their progress,
    build [xarray] datasets and write them.  A dataset is a Python object:
    the program holds references to it, and an assignment through one
    reference is seen through every other.  The world therefore has a heap
    of datasets addressed by location, the files by path, and the log of
    what was printed, read and written. *)

Abbreviation grid := (list (list float64)).

Inductive ndarray : Type :=
| Array1 (v : list float64)
| Array2 (v : grid).

Inductive attr : Type :=
| AFloat (v : float64)
| AInt (n : Z)
| AStr (s : string)
| ATuple (l : list float64).

(** A variable of a dataset: its dimension names, values and attributes. *)
Record variable : Type := {
  dims : list string;
  values : ndarray;
  var_attrs : gmap string attr
}.

(** [xarray.Dataset] *)
Record Dataset : Type := {
  data_vars : gmap string variable;
  coords : gmap string variable;
  attrs : gmap string attr
}.

(** The grid-mapping variable of an ABI radiance product. *)
Record goes_imager_projection : Type := {
  semi_major_axis : float64;
  semi_minor_axis : float64;
  perspective_point_height : float64;
  longitude_of_projection_origin : float64
}.

(** An ABI radiance product as [xr.open_dataset] returns it: the projection,
    the two scan-angle axes, the radiances [Rad[y, x]] and the name. *)
Record abi_image : Type := {
  projection : goes_imager_projection;
  abi_x : list float64;
  abi_y : list float64;
  Rad : grid;
  dataset_name : string
}.

(** A DEM as [xr.open_rasterio] returns it: values [band, y, x], the
    coordinates of the columns ([x]) and of the rows ([y]), and the
    attributes the program reads. *)
Record dem_raster : Type := {
  dem_values : list grid;
  dem_x : list float64;
  dem_y : list float64;
  nodatavals : list float64;
  crs : string;
  transform : list float64;
  res : list float64
}.

Inductive file : Type :=
| GoesFile (d : abi_image)
| DemFile (d : dem_raster)
| NetcdfFile (d : Dataset).

Inductive event : Type :=
| EvPrint (s : string)
| EvPrintValues (label : string) (vs : list float64)
| EvRead (path : string)
| EvWrite (path : string).

Definition loc : Type := nat.

Record world : Type := {
  files : gmap string file;
  heap : list Dataset;
  log : list event
}.

(** What a Python function hands back. *)
Inductive pyval : Type :=
| PyNone
| PyDataset (l : loc).

Inductive exn : Type :=
| FileNotFoundError (path : string)
| KeyError (msg : string)
| AttributeError (name : string)
| IndexError
| ValueError (msg : string)
| RasterioIOError (path : string)
| InvalidIndexError (msg : string).

Inductive outcome (A : Type) : Type :=
| Return (a : A)
| Raise (e : exn).
Arguments Return {A} a.
Arguments Raise {A} e.

(** Computations that change the world and may raise. *)
Definition M (A : Type) : Type := world -> outcome A * world.

Definition ret {A} (a : A) : M A := fun w => (Return a, w).

Definition raise {A} (e : exn) : M A := fun w => (Raise e, w).

Definition bind {A B} (m : M A) (k : A -> M B) : M B :=
  fun w =>
    match m w with
    | (Return a, w') => k a w'
    | (Raise e, w') => (Raise e, w')
    end.

Notation "x <- m ;; k" := (bind m (fun x => k))
  (at level 100, m at next level, right associativity).
Notation "m ;;; k" := (bind m (fun _ => k))
  (at level 100, right associativity).

Definition emit (ev : event) : M unit :=
  fun w =>
    (Return tt,
     {| files := files w; heap := heap w; log := log w ++ [ev] |}).

Definition print (s : string) : M unit := emit (EvPrint s).

Definition print_values (label : string) (vs : list float64) : M unit :=
  emit (EvPrintValues label vs).

Definition of_option {A} (o : option A) (e : exn) : M A :=
  match o with
  | Some a => ret a
  | None => raise e
  end.

(** [xr.open_dataset(path)] on an ABI product. *)
Definition open_dataset (path : string) : M abi_image :=
  fun w =>
    match files w !! path with
    | Some (GoesFile d) =>
        (Return d,
         {| files := files w; heap := heap w;
            log := log w ++ [EvRead path] |})
    | _ => (Raise (FileNotFoundError path), w)
    end.

(** [xr.open_rasterio(path)] *)
Definition open_rasterio (path : string) : M dem_raster :=
  fun w =>
    match files w !! path with
    | Some (DemFile d) =>
        (Return d,
         {| files := files w; heap := heap w;
            log := log w ++ [EvRead path] |})
    | _ => (Raise (RasterioIOError path), w)
    end.

(** A new dataset object; its location is returned. *)
Definition alloc (d : Dataset) : M loc :=
  fun w =>
    (Return (length (heap w)),
     {| files := files w; heap := heap w ++ [d]; log := log w |}).

(** The object behind a reference.  A Python reference always has one; the
    other case keeps the lookup total. *)
Definition deref (l : loc) : M Dataset :=
  fun w =>
    match heap w !! l with
    | Some d => (Return d, w)
    | None => (Raise (ValueError "dangling reference"), w)
    end.

(** [ds.to_netcdf(path)]: the dataset the reference holds now is written. *)
Definition to_netcdf (l : loc) (path : string) : M unit :=
  d <- deref l ;;
  fun w =>
    (Return tt,
     {| files := <[path := NetcdfFile d]> (files w); heap := heap w;
        log := log w ++ [EvWrite path] |}).

(** Attribute-style access [ds.name] to a scalar attribute and to an array
    (a data variable or a coordinate). *)
Definition getattr_float (d : Dataset) (name : string) : M float64 :=
  match attrs d !! name with
  | Some (AFloat v) => ret v
  | _ => raise (AttributeError name)
  end.

Definition lookup_variable (d : Dataset) (name : string) : option variable :=
  match data_vars d !! name with
  | Some v => Some v
  | None => coords d !! name
  end.

Definition getattr_array (d : Dataset) (name : string) : M ndarray :=
  match lookup_variable d name with
  | Some v => ret (values v)
  | None => raise (AttributeError name)
  end.

(** [ds[name] = da]: the variable is added to, or replaced in, the object
    the reference points to. *)
Definition setitem (l : loc) (name : string) (v : variable) : M unit :=
  d <- deref l ;;
  fun w =>
    (Return tt,
     {| files := files w;
        heap := <[l := {| data_vars := <[name := v]> (data_vars d);
                          coords := coords d;
                          attrs := attrs d |}]> (heap w);
        log := log w |}).

(** ** Building the ortho map *)

(** [da.where(cond)]: the value where the condition holds, NaN elsewhere. *)
Definition where_ (cond : bool) (v : float64) : float64 :=
  if cond then v else NaN.

(** [dem.where(dem != nodata)] and [dem.where(dem != 0)], cell by cell. *)
Definition mask_nodata (nodata v : float64) : float64 :=
  where_ (Float.neb v nodata) v.

Definition mask_zero (v : float64) : float64 :=
  where_ (Float.neb v (Fin 0)) v.

Definition grid_map (f : float64 -> float64) (g : grid) : grid :=
  (fun row : list float64 => f <$> row) <$> g.

(** [g[i, j]] *)
Definition cell (g : grid) (i j : nat) : option float64 :=
  match g !! i with
  | Some row => row !! j
  | None => None
  end.

(** [np.meshgrid(x, y)] *)
Definition meshgrid (xs ys : list float64) : grid * grid :=
  ((fun _ => xs) <$> ys, (fun y => (fun _ => y) <$> xs) <$> ys).

Definition zip3_with {A B C D} (f : A -> B -> C -> D)
    (la : list A) (lb : list B) (lc : list C) : list D :=
  zip_with (fun ab c => f ab.1 ab.2 c) (zip la lb) lc.

(** [LonLat2ABIangle] applied to whole grids: numpy applies every operation
    of the function cell by cell. *)
Definition LonLat2ABIangle_grid (X Y Z : grid) (H req rpol e lon_0 : float64)
  : grid * grid :=
  let cell x y z := LonLat2ABIangle x y z H req rpol e lon_0 in
  let pairs := zip3_with (zip3_with cell) X Y Z in
  ((fun row : list (float64 * float64) => fst <$> row) <$> pairs,
   (fun row : list (float64 * float64) => snd <$> row) <$> pairs).

(** GRS-80 eccentricity, as the program has it. *)
Definition grs80_eccentricity : float64 := Fin 0.0818191910435.

Definition map_metadata (lon_0 req rpol H e : float64)
    (dem_filepath : string) (dem : dem_raster) : gmap string attr :=
  list_to_map
    [ ("longitude_of_projection_origin", AFloat lon_0);
      ("semi_major_axis", AFloat req);
      ("semi_minor_axis", AFloat rpol);
      ("satellite_height", AFloat H);
      ("grs80_eccentricity", AFloat e);
      ("longitude_of_projection_origin_info",
        AStr "longitude of geostationary satellite orbit");
      ("semi_major_axis_info",
        AStr "semi-major axis of GRS 80 reference ellipsoid");
      ("semi_minor_axis_info",
        AStr "semi-minor axis of GRS 80 reference ellipsoid");
      ("satellite_height_info",
        AStr "distance from center of ellipsoid to satellite (perspective_point_height + semi_major_axis_info)");
      ("grs80_eccentricity_info",
        AStr "eccentricity of GRS 80 reference ellipsoid");
      ("dem_file", AStr dem_filepath);
      ("dem_crs", AStr (crs dem));
      ("dem_transform", ATuple (transform dem));
      ("dem_res", ATuple (res dem));
      ("dem_ifov", AInt (-9999));
      ("dem_file_info",
        AStr "filename of dem file used to create this mapping");
      ("dem_crs_info", AStr "coordinate reference system from DEM geotiff");
      ("dem_transform_info", AStr "transform matrix from DEM geotiff");
      ("dem_res_info", AStr "resolution of DEM geotiff");
      ("dem_ifov_info",
        AStr "instantaneous field of view (angular size of DEM grid cell)");
      ("dem_px_angle_x_info",
        AStr "DEM grid cell X coordinate (east/west) scan angle in the ABI Fixed Grid");
      ("dem_px_angle_y_info",
        AStr "DEM grid cell Y coordinate (north/south) scan angle in the ABI Fixed Grid");
      ("longitude_info", AStr "longitude from DEM file");
      ("latitude_info", AStr "latitude from DEM file");
      ("elevation_info", AStr "elevation from DEM file") ]%string.

Definition mk_variable (ds : list string) (v : ndarray) : variable :=
  {| dims := ds; values := v; var_attrs := ∅ |}.

(** The masked elevations: the no-data value of the first band and the
    zeros are replaced by NaN, and the first band is kept. *)
Definition load_dem (dem : dem_raster) : M grid :=
  nodata <- of_option (nodatavals dem !! 0%nat) IndexError ;;
  band <- of_option ((grid_map (mask_nodata nodata) <$> dem_values dem)
                       !! 0%nat) IndexError ;;
  ret (grid_map mask_zero band).

(** The dataset [make_ortho_map] builds from the projection and the DEM. *)
Definition ortho_map_dataset (img : abi_image) (dem_filepath : string)
    (dem : dem_raster) (elevation : grid) : Dataset :=
  let proj := projection img in
  let req := semi_major_axis proj in
  let rpol := semi_minor_axis proj in
  let H := (perspective_point_height proj + semi_major_axis proj)%fl in
  let lon_0 := longitude_of_projection_origin proj in
  let e := grs80_eccentricity in
  let '(X, Y) := meshgrid (dem_x dem) (dem_y dem) in
  let Z := elevation in
  let '(abi_grid_x, abi_grid_y) :=
    LonLat2ABIangle_grid X Y Z H req rpol e lon_0 in
  let metadata := map_metadata lon_0 req rpol H e dem_filepath dem in
  {| data_vars :=
       {[ "elevation"%string := mk_variable ["y"; "x"]%string (Array2 Z) ]};
     coords :=
       list_to_map
         [ ("longitude", mk_variable ["x"] (Array1 (dem_x dem)));
           ("latitude", mk_variable ["y"] (Array1 (dem_y dem)));
           ("dem_px_angle_x", mk_variable ["y"; "x"] (Array2 abi_grid_x));
           ("dem_px_angle_y", mk_variable ["y"; "x"] (Array2 abi_grid_y))
         ]%string;
     attrs := metadata |}.

Definition LF : string := String (Ascii.ascii_of_nat 10) EmptyString.

(** [make_ortho_map(goes_filepath, dem_filepath, out_filepath=None)] *)
Definition make_ortho_map (goes_filepath dem_filepath : string)
    (out_filepath : option string) : M pyval :=
  print (LF ++ "RUNNING: make_ortho_map()") ;;;
  print (LF ++ "Opening GOES ABI image...") ;;;
  abi_image <- open_dataset goes_filepath ;;
  print (LF ++ "Get inputs: projection information from the ABI radiance product") ;;;
  print "...done" ;;;
  print (LF ++ "Opening DEM file...") ;;;
  dem <- open_rasterio dem_filepath ;;
  elevation <- load_dem dem ;;
  print (LF ++ "Create 2D arrays of longitude and latitude from the DEM") ;;;
  print "...done" ;;;
  print (LF ++ "For each grid cell in the DEM, compute the corresponding ABI scan angle (x and y, radians)") ;;;
  print "...done" ;;;
  print (LF ++ "Create metadata dictionary about this map") ;;;
  print "...done" ;;;
  print (LF ++ "Create pixel map dataset") ;;;
  ds <- alloc (ortho_map_dataset abi_image dem_filepath dem elevation) ;;
  print "...done" ;;;
  match out_filepath with
  | Some path =>
      print (LF ++ "Export this pixel map along with the metadata (NetCDF with xarray)") ;;;
      to_netcdf ds path ;;;
      print "...done"
  | None => ret tt
  end ;;;
  print (LF ++ "Return the pixel map dataset.") ;;;
  ret (PyDataset ds).

(** ** Nearest-neighbour selection

    [abi_image.sel(x=..., y=..., method='nearest')] looks every label up in
    the axis with the index routine [get_indexer(..., method='nearest')] of
    pandas, and keeps the sample at the positions found.  The routine is
    followed here for a monotonic axis: the position of the last sample not
    after the label ([pad]) and of the first one not before it
    ([backfill]) are found by binary search, in which NaN is ordered after
    every number, and the closer of the two is kept.  No comparison singles
    NaN labels out. *)

(** The order of [np.searchsorted]: NaN after every number. *)
Definition sort_lt (a b : float64) : bool :=
  Float.ltb a b || (Float.is_nan b && negb (Float.is_nan a)).

Definition sort_le (a b : float64) : bool := negb (sort_lt b a).

(** [a.searchsorted(v, side)] on a sorted array: how many samples stand
    before the insertion point. *)
Definition searchsorted (a : list float64) (v : float64) (left : bool) : nat :=
  length (List.filter (fun s => if left then sort_lt s v else sort_le s v) a).

Fixpoint is_monotonic_increasing (a : list float64) : bool :=
  match a with
  | s :: (t :: _) as rest => Float.leb s t && is_monotonic_increasing rest
  | _ => true
  end.

Fixpoint is_monotonic_decreasing (a : list float64) : bool :=
  match a with
  | s :: (t :: _) as rest => Float.leb t s && is_monotonic_decreasing rest
  | _ => true
  end.

(** [index._searchsorted_monotonic(label, side)] on a monotonic axis. *)
Definition searchsorted_monotonic (index : list float64) (label : float64)
    (left : bool) : nat :=
  if is_monotonic_increasing index
  then searchsorted index label left
  else (length index - searchsorted (rev index) label (negb left))%nat.

(** Position of the first sample equal to the label, [-1] when there is
    none. *)
Fixpoint exact_indexer (index : list float64) (label : float64) : Z :=
  match index with
  | [] => (-1)%Z
  | s :: rest =>
      if Float.eqb s label then 0%Z
      else let i := exact_indexer rest label in
           if (i <? 0)%Z then (-1)%Z else (i + 1)%Z
  end.

Definition pad_indexer (index : list float64) (label : float64) : Z :=
  let i := exact_indexer index label in
  if (i <? 0)%Z
  then (Z.of_nat (searchsorted_monotonic index label true) - 1)%Z
  else i.

Definition backfill_indexer (index : list float64) (label : float64) : Z :=
  let i := exact_indexer index label in
  if (i <? 0)%Z
  then let j := Z.of_nat (searchsorted_monotonic index label false) in
       if (j =? Z.of_nat (length index))%Z then (-1)%Z else j
  else i.

(** [a[i]] with Python's negative positions. *)
Definition py_getitem {A} (a : list A) (i : Z) : option A :=
  if (i <? 0)%Z
  then (if (Z.of_nat (length a) + i <? 0)%Z then None
        else a !! Z.to_nat (Z.of_nat (length a) + i))
  else a !! Z.to_nat i.

Definition distance (index : list float64) (label : float64) (i : Z)
  : float64 :=
  match py_getitem index i with
  | Some s => Float.abs (s - label)%fl
  | None => NaN
  end.

(** [index._get_nearest_indexer]: the left neighbour when it is closer or
    when there is no right neighbour, the right neighbour otherwise. *)
Definition nearest_indexer (index : list float64) (label : float64) : Z :=
  let left_indexer := pad_indexer index label in
  let right_indexer := backfill_indexer index label in
  let left_distance := distance index label left_indexer in
  let right_distance := distance index label right_indexer in
  let closer :=
    if is_monotonic_increasing index
    then Float.ltb left_distance right_distance
    else Float.leb left_distance right_distance in
  if closer || (right_indexer =? -1)%Z then left_indexer else right_indexer.

(** [index.is_unique]: no value stands twice on the axis; two NaN count
    as the same value. *)
Definition same_value (a b : float64) : bool :=
  Float.eqb a b || (Float.is_nan a && Float.is_nan b).

Fixpoint is_unique (index : list float64) : bool :=
  match index with
  | [] => true
  | s :: rest => negb (existsb (same_value s) rest) && is_unique rest
  end.

(** The position [sel] uses for one label; it raises on an axis with a
    repeated value, on an axis that is not monotonic, and when no position
    was found. *)
Definition get_indexer_nearest (index : list float64) (label : float64)
  : outcome nat :=
  if is_unique index
  then
    if is_monotonic_increasing index || is_monotonic_decreasing index
    then let i := nearest_indexer index label in
         if (i <? 0)%Z then Raise (KeyError "not all values found in index")
         else Return (Z.to_nat i)
    else Raise (ValueError "index must be monotonic increasing or decreasing")
  else Raise (InvalidIndexError
                "Reindexing only valid with uniquely valued Index objects").

(** The radiance of one ground cell: the sample at the positions of its two
    scan angles, each looked up on its own axis. *)
Definition sel_cell (img : abi_image) (angle_x angle_y : float64)
  : outcome float64 :=
  match get_indexer_nearest (abi_x img) angle_x,
        get_indexer_nearest (abi_y img) angle_y with
  | Return ix, Return iy =>
      match Rad img !! iy with
      | Some row =>
          match row !! ix with
          | Some v => Return v
          | None => Raise IndexError
          end
      | None => Raise IndexError
      end
  | Raise e, _ => Raise e
  | _, Raise e => Raise e
  end.

Fixpoint sequence {A} (l : list (outcome A)) : outcome (list A) :=
  match l with
  | [] => Return []
  | Return a :: rest =>
      match sequence rest with
      | Return r => Return (a :: r)
      | Raise e => Raise e
      end
  | Raise e :: _ => Raise e
  end.

(** [abi_image.sel(x=angle_x, y=angle_y, method='nearest').Rad.values] for
    two grids of labels over the same dimensions. *)
Definition sel_nearest (img : abi_image) (angle_x angle_y : grid)
  : outcome grid :=
  sequence (zip_with (fun rx ry => sequence (zip_with (sel_cell img) rx ry))
              angle_x angle_y).

Definition lift {A} (o : outcome A) : M A := fun w => (o, w).

Definition as_grid (a : ndarray) : M grid :=
  match a with
  | Array2 g => ret g
  | Array1 _ => raise (ValueError "expected a 2D array")
  end.

(** ** Writing the result *)

(** [output_ortho_netcdf(abi_rad_values, pixel_map, out_filename)] *)
Definition output_ortho_netcdf (abi_rad_values : grid) (pixel_map : loc)
    (out_filename : string) : M pyval :=
  print (LF ++ "RUNNING: output_ortho_netcdf()") ;;;
  let metadata : gmap string attr := {[ "rad"%string := AStr "units" ]} in
  pm <- deref pixel_map ;;
  longitude <- getattr_array pm "longitude" ;;
  latitude <- getattr_array pm "latitude" ;;
  let rad_da :=
    {| dims := ["y"; "x"]%string;
       values := Array2 abi_rad_values;
       var_attrs := metadata |} in
  setitem pixel_map "rad" rad_da ;;;
  to_netcdf pixel_map out_filename ;;;
  ret PyNone.

(** ** Applying the ortho map *)

(** [orthorectify_abi_rad(goes_filepath, pixel_map, out_filename=None)] *)
Definition orthorectify_abi_rad (goes_filepath : string) (pixel_map : loc)
    (out_filename : option string) : M pyval :=
  print (LF ++ "RUNNING: orthorectify_abi_rad()") ;;;
  print (LF ++ "Does the projection info in the image match our mapping?") ;;;
  print (LF ++ "Opening GOES ABI image...") ;;;
  abi_image <- open_dataset goes_filepath ;;
  pm <- deref pixel_map ;;
  let proj := projection abi_image in
  satellite_height <- getattr_float pm "satellite_height" ;;
  print_values "perspective_point_height + semi_major_axis:"
    [(perspective_point_height proj + semi_major_axis proj)%fl;
     satellite_height] ;;;
  map_semi_major_axis <- getattr_float pm "semi_major_axis" ;;
  print_values "semi_major_axis:"
    [semi_major_axis proj; map_semi_major_axis] ;;;
  map_semi_minor_axis <- getattr_float pm "semi_minor_axis" ;;
  print_values "semi_minor_axis:"
    [semi_minor_axis proj; map_semi_minor_axis] ;;;
  map_lon_0 <- getattr_float pm "longitude_of_projection_origin" ;;
  print_values "longitude_of_projection_origin:"
    [longitude_of_projection_origin proj; map_lon_0] ;;;
  print "...done" ;;;
  print (LF ++ "Map (orthorectify) and clip the image to the pixel map") ;;;
  dem_px_angle_x <- (a <- getattr_array pm "dem_px_angle_x" ;; as_grid a) ;;
  dem_px_angle_y <- (a <- getattr_array pm "dem_px_angle_y" ;; as_grid a) ;;
  abi_rad_values <- lift (sel_nearest abi_image dem_px_angle_x dem_px_angle_y) ;;
  print "...done" ;;;
  print (LF ++ "Output this result to a new NetCDF file") ;;;
  let out_filename :=
    match out_filename with
    | None => (dataset_name abi_image ++ "_ortho.nc")%string
    | Some name => name
    end in
  print ("Saving file as: " ++ out_filename) ;;;
  output_ortho_netcdf abi_rad_values pixel_map out_filename ;;;
  print "...done" ;;;
  ret PyNone.

(** [orthorectify(goes_filepath, orth_map_filepath)]: the body is the
    docstring and [return None]. *)
Definition orthorectify (goes_filepath orth_map_filepath : string) : M pyval :=
  ret PyNone.

(** ** The two helpers outside the pipeline *)

(** IFOV values for GOES ABI bands ("500 m" 14 urad; "1 km" 28 urad;
    "2 km" 56 urad). *)
Definition ifov : list float64 := [Fin 14e-6; Fin 28e-6; Fin 56e-6].

(** The centre, in scan angle, of the pixel of angular size [i] that the
    angle [v] lies in:
    [((np.floor(np.abs(v / i)) + 0.5) * np.sign(v / i)) * i]. *)
Definition pixel_center (i v : float64) : float64 :=
  let px := (v / i)%fl in
  ((Float.floor (Float.abs px) + Fin 0.5) * Float.sign px * i)%fl.

(** [ABIpixelMap(abi_grid_x, abi_grid_y)]: one grid of pixel centres for
    each of the three IFOV values, for each axis. *)
Definition ABIpixelMap (abi_grid_x abi_grid_y : grid)
  : list grid * list grid :=
  let x_px := (fun i => grid_map (fun v => v / i)%fl abi_grid_x) <$> ifov in
  let y_px := (fun i => grid_map (fun v => v / i)%fl abi_grid_y) <$> ifov in
  let centers px i :=
    grid_map (fun p => (Float.floor (Float.abs p) + Fin 0.5)
                       * Float.sign p * i)%fl px in
  let center_x := zip_with centers x_px ifov in
  let center_y := zip_with centers y_px ifov in
  (center_x, center_y).

(** [calcLookAngles(lon_deg, lat_deg, lon_0_deg)]: the latitude is
    converted and then not used. *)
Definition calcLookAngles (lon_deg lat_deg lon_0_deg : float64)
  : float64 * float64 :=
  let lon := Float.radians lon_deg in
  let lat := Float.radians lat_deg in
  let lon_0 := Float.radians lon_0_deg in
  let s := (lon_0 - lon)%fl in
  let el :=
    Float.arctan
      ((Float.cos s * Float.cos lon - Fin 0.1512)
       / Float.sqrt (Fin 1 - Float.sq (Float.cos s) * Float.sq (Float.cos lon)))%fl in
  let az := Float.arctan (Float.tan s / Float.sin lon)%fl in
  ((Float.degrees az + Fin 180)%fl, Float.degrees el).

(** A grid of [rows] rows of [cols] cells. *)
Definition has_shape (rows cols : nat) (g : grid) : Prop :=
  length g = rows /\ Forall (fun row => length row = cols) g.

(** [a < b] on real numbers as a boolean. *)
Definition Rltb (a b : R) : bool := if Rlt_dec a b then true else false.

(** The sign of a real number, as [np.sign] gives it. *)
Definition Rsign (r : R) : R :=
  if Rlt_dec r 0 then -1 else if Rlt_dec 0 r then 1 else 0.

(** NaN, or a finite value between two bounds. *)
Definition nan_or_within (lo hi : R) (x : float64) : Prop :=
  x = NaN \/ exists v, x = Fin v /\ lo <= v <= hi.

(** Computations that leave the heap and the files alone, and
    computations that do so whenever they raise. *)
Definition keeps_store {A} (m : M A) : Prop :=
  forall w o w', m w = (o, w') -> heap w' = heap w /\ files w' = files w.

Definition keeps_store_on_failure {A} (m : M A) : Prop :=
  forall w e w',
    m w = (Raise e, w') -> heap w' = heap w /\ files w' = files w.

Definition never_raises {A} (m : M A) : Prop :=
  forall w e w', m w <> (Raise e, w').

(** ** A small world for the examples

    An image of two by two radiances over the scan angles 0 and 1, a DEM of
    one row whose first cell is at sea level, and an ortho map of one cell
    whose scan angles are NaN. *)
Definition example_image : abi_image :=
  {| projection :=
       {| semi_major_axis := Fin 6378137;
          semi_minor_axis := Fin 6356752.31414;
          perspective_point_height := Fin 35786023;
          longitude_of_projection_origin := Fin (-75) |};
     abi_x := [Fin 0; Fin 1];
     abi_y := [Fin 0; Fin 1];
     Rad := [[Fin 10; Fin 20]; [Fin 30; Fin 40]];
     dataset_name := "OR_ABI-L1b-RadC" |}.

Definition example_dem : dem_raster :=
  {| dem_values := [[[Fin 0; Fin 1500]]];
     dem_x := [Fin (-106); Fin (-105)];
     dem_y := [Fin 39];
     nodatavals := [Fin (-9999)];
     crs := "+init=epsg:4326";
     transform := [];
     res := [] |}.

Definition example_files : gmap string file :=
  <["goes.nc"%string := GoesFile example_image]>
    (<["dem.tif"%string := DemFile example_dem]> ∅).

Definition example_world : world :=
  {| files := example_files; heap := []; log := [] |}.

(** A DEM of one cell at sea level, next to the image. *)
Definition example_sea_dem : dem_raster :=
  {| dem_values := [[[Fin 0]]];
     dem_x := [Fin (-106)];
     dem_y := [Fin 39];
     nodatavals := [Fin (-9999)];
     crs := "+init=epsg:4326";
     transform := [];
     res := [] |}.

Definition example_sea_world : world :=
  {| files :=
       <["goes.nc"%string := GoesFile example_image]>
         (<["sea.tif"%string := DemFile example_sea_dem]> ∅);
     heap := [];
     log := [] |}.

Definition example_map : Dataset :=
  {| data_vars :=
       {[ "elevation"%string := mk_variable ["y"; "x"]%string (Array2 [[NaN]]) ]};
     coords :=
       list_to_map
         [ ("longitude", mk_variable ["x"] (Array1 [Fin (-106)]));
           ("latitude", mk_variable ["y"] (Array1 [Fin 39]));
           ("dem_px_angle_x", mk_variable ["y"; "x"] (Array2 [[NaN]]));
           ("dem_px_angle_y", mk_variable ["y"; "x"] (Array2 [[NaN]]))
         ]%string;
     attrs :=
       list_to_map
         [ ("longitude_of_projection_origin", AFloat (Fin (-75)));
           ("semi_major_axis", AFloat (Fin 6378137));
           ("semi_minor_axis", AFloat (Fin 6356752.31414));
           ("satellite_height", AFloat (Fin 42164160)) ]%string |}.

Definition example_world_with_map : world :=
  {| files := example_files; heap := [example_map]; log := [] |}.

(** An image whose [x] axis holds the same scan angle twice, stored next
    to the image of the examples, with the ortho map in memory. *)
Definition example_repeated_image : abi_image :=
  {| projection := projection example_image;
     abi_x := [Fin 0; Fin 0];
     abi_y := [Fin 0; Fin 1];
     Rad := [[Fin 10; Fin 20]; [Fin 30; Fin 40]];
     dataset_name := "OR_ABI-L1b-RadC" |}.

Definition example_repeated_world : world :=
  {| files :=
       <["repeated.nc"%string := GoesFile example_repeated_image]>
         example_files;
     heap := [example_map];
     log := [] |}.

(** The position [sel] ends up with for a NaN label on an axis without NaN:
    the last sample of an increasing axis, the first of a decreasing one. *)
Definition nan_position (index : list float64) : nat :=
  if is_monotonic_increasing index then (length index - 1)%nat else 0%nat.

Definition not_nan (x : float64) : Prop := x <> NaN.

(** The dataset after [pixel_map['rad'] = rad_da]. *)
Definition with_rad (d : Dataset) (abi_rad_values : grid) : Dataset :=
  {| data_vars :=
       <["rad"%string :=
           {| dims := ["y"; "x"]%string;
              values := Array2 abi_rad_values;
              var_attrs := {[ "rad"%string := AStr "units" ]} |}]>
         (data_vars d);
     coords := coords d;
     attrs := attrs d |}.

(** ** Parameters

    The invariant the specification gives for the projection parameters:
    [req >= rpol > 0], [H > req] and [0 <= e < 1]. *)
Definition valid_parameters (H req rpol e : R) : Prop :=
  rpol <= req /\ 0 < rpol /\ req < H /\ 0 <= e < 1.

(** The geocentric distance [rpol / sqrt(1 - e**2)] that [LonLat2ABIangle]
    computes for a point of the equator at sea level. *)
Definition equatorial_radius (rpol e : R) : R := rpol / sqrt (1 - e * e).

(** Parameters of the kind the transforms are run with: valid, with
    lengths between 1 and [1e100] so that no square leaves the range of
    [float64], an eccentricity of at most 0.9, and the satellite at least
    one part in a thousand farther from the centre than the equatorial
    distance above.  Away from these bounds the results of the [float64]
    operations differ in kind from those of the real numbers they stand
    for here: a square overflows, or a difference cancels to zero and a
    quotient becomes [0/0].  The parameters of GOES-R are well inside. *)
Definition well_conditioned (H req rpol e : R) : Prop :=
  valid_parameters H req rpol e
  /\ 1 <= rpol /\ H <= 1e100 /\ e <= 9 / 10
  /\ (1 + 1 / 1000) * equatorial_radius rpol e <= H.

(** The scan angle [x] of such a point, [d] radians of longitude away from
    the projection origin: [arcsin(-Sy / sqrt(Sx**2 + Sy**2 + Sz**2))] with
    [Sx = H - rc*cos(d)], [Sy = -rc*sin(d)] and [Sz = 0]. *)
Definition equator_x (H rc d : R) : R :=
  asin (rc * sin d
        / sqrt ((H - rc * cos d) * (H - rc * cos d)
                + (rc * sin d) * (rc * sin d))).

(** ** NaN propagation *)

Module FloatFacts.

Lemma add_nan_l x : (NaN + x)%fl = NaN.
Proof. reflexivity. Qed.

Lemma add_nan_r x : (x + NaN)%fl = NaN.
Proof. destruct x; reflexivity. Qed.

Lemma sub_nan_l x : (NaN - x)%fl = NaN.
Proof. reflexivity. Qed.

Lemma sub_nan_r x : (x - NaN)%fl = NaN.
Proof. destruct x; reflexivity. Qed.

Lemma mul_nan_l x : (NaN * x)%fl = NaN.
Proof. reflexivity. Qed.

Lemma mul_nan_r x : (x * NaN)%fl = NaN.
Proof. destruct x; reflexivity. Qed.

Lemma div_nan_l x : (NaN / x)%fl = NaN.
Proof. reflexivity. Qed.

Lemma div_nan_r x : (x / NaN)%fl = NaN.
Proof. destruct x; reflexivity. Qed.

Lemma sqrt_negative x : Float.ltb x (Fin 0) = true -> Float.sqrt x = NaN.
Proof.
  destruct x as [r|[]|]; simpl; try discriminate; auto.
  destruct (Rlt_dec r 0); [reflexivity | discriminate].
Qed.

(** Finite arguments away from the exceptional cases. *)
Lemma div_fin a b : b <> 0 -> (Fin a / Fin b)%fl = Fin (a / b).
Proof. intros Hb. simpl. destruct (Req_dec_T b 0); [contradiction | reflexivity]. Qed.

Lemma div_zero_zero : (Fin 0 / Fin 0)%fl = NaN.
Proof. simpl. destruct (Req_dec_T 0 0); [reflexivity | contradiction]. Qed.

Lemma sqrt_fin r : 0 <= r -> Float.sqrt (Fin r) = Fin (sqrt r).
Proof. intros Hr. simpl. destruct (Rlt_dec r 0); [lra | reflexivity]. Qed.

Lemma arcsin_fin r : -1 <= r <= 1 -> Float.arcsin (Fin r) = Fin (asin r).
Proof.
  intros Hr. simpl.
  destruct (Rlt_dec r (-1)); [lra |]. destruct (Rlt_dec 1 r); [lra | reflexivity].
Qed.

Lemma tan_fin r : cos r <> 0 -> Float.tan (Fin r) = Fin (tan r).
Proof. intros Hc. unfold Float.tan, Float.sin, Float.cos. apply div_fin, Hc. Qed.

Lemma sq_fin r : Float.sq (Fin r) = Fin (r * r).
Proof. reflexivity. Qed.

Lemma fin_eq a b : a = b -> Fin a = Fin b.
Proof. congruence. Qed.

Lemma add_fin a b : (Fin a + Fin b)%fl = Fin (a + b).
Proof. reflexivity. Qed.

Lemma sub_fin a b : (Fin a - Fin b)%fl = Fin (a - b).
Proof. reflexivity. Qed.

Lemma mul_fin a b : (Fin a * Fin b)%fl = Fin (a * b).
Proof. reflexivity. Qed.

Lemma neg_fin a : (- Fin a)%fl = Fin (- a).
Proof. reflexivity. Qed.

Lemma sin_fin a : Float.sin (Fin a) = Fin (sin a).
Proof. reflexivity. Qed.

Lemma cos_fin a : Float.cos (Fin a) = Fin (cos a).
Proof. reflexivity. Qed.

Lemma arctan_fin a : Float.arctan (Fin a) = Fin (atan a).
Proof. reflexivity. Qed.

Lemma radians_fin a : Float.radians (Fin a) = Fin (a * (PI / 180)).
Proof. reflexivity. Qed.

Lemma degrees_fin a : Float.degrees (Fin a) = Fin (a * (180 / PI)).
Proof. reflexivity. Qed.

End FloatFacts.

Create Rewrite HintDb nan.
#[local] Hint Rewrite
  FloatFacts.add_nan_l FloatFacts.add_nan_r
  FloatFacts.sub_nan_l FloatFacts.sub_nan_r
  FloatFacts.mul_nan_l FloatFacts.mul_nan_r
  FloatFacts.div_nan_l FloatFacts.div_nan_r : nan.

Create Rewrite HintDb fin.
#[local] Hint Rewrite
  FloatFacts.add_fin FloatFacts.sub_fin FloatFacts.mul_fin FloatFacts.neg_fin
  FloatFacts.sq_fin FloatFacts.sin_fin FloatFacts.cos_fin
  FloatFacts.arctan_fin FloatFacts.radians_fin FloatFacts.degrees_fin : fin.

(** Decide the tests on concrete reals that the operations make. *)
Ltac real_tests :=
  repeat match goal with
    | |- context [Req_dec_T ?a ?b] => destruct (Req_dec_T a b); try lra
    | |- context [Rlt_dec ?a ?b] => destruct (Rlt_dec a b); try lra
    | |- context [Rle_dec ?a ?b] => destruct (Rle_dec a b); try lra
    end.

Ltac float_unfold :=
  unfold Float.sq, Float.sub, Float.radians, Float.degrees, Float.tan,
    Float.mul, Float.add, Float.div, Float.neg, Float.sqrt, Float.sin,
    Float.cos, Float.arctan, Float.arcsin, Float.ltb, Float.eqb, Float.neb.

(** ** Forward transform off the disk *)

(** C4. Whenever the discriminant [b**2 - 4*a*c] computed by
    [ABIangle2LonLat] is negative, the function returns NaN for both the
    longitude and the latitude; it has no failing path. *)
Theorem ABIangle2LonLat_negative_discriminant :
  forall x y H req rpol lon_0_deg : float64,
    Float.ltb (discriminant x y H req rpol) (Fin 0) = true ->
    ABIangle2LonLat x y H req rpol lon_0_deg = (NaN, NaN).
Proof.
  intros x y H req rpol lon0 Hd.
  unfold ABIangle2LonLat. unfold discriminant in Hd.
  rewrite (FloatFacts.sqrt_negative _ Hd).
  autorewrite with nan. cbn [Float.neg].
  autorewrite with nan. cbn [Float.arctan Float.degrees].
  autorewrite with nan. reflexivity.
Qed.

(** A scan angle of a quarter turn looks away from the planet. *)
Lemma ABIangle2LonLat_negative_discriminant_witness :
  Float.ltb (discriminant (Fin (PI / 2)) (Fin 0) (Fin 2) (Fin 1) (Fin 1))
            (Fin 0) = true
  /\ ABIangle2LonLat (Fin (PI / 2)) (Fin 0) (Fin 2) (Fin 1) (Fin 1) (Fin (-75))
     = (NaN, NaN).
Proof.
  assert (Hd : Float.ltb (discriminant (Fin (PI / 2)) (Fin 0) (Fin 2) (Fin 1)
                            (Fin 1)) (Fin 0) = true).
  { unfold discriminant, quad_a, quad_b, quad_c. float_unfold.
    rewrite sin_PI2, cos_PI2, sin_0, cos_0. real_tests. }
  split; [exact Hd |].
  exact (ABIangle2LonLat_negative_discriminant _ _ _ _ _ (Fin (-75)) Hd).
Defined.

(** ** Masked elevations *)

Lemma LonLat2ABIangle_nan_elevation lon_deg lat_deg H req rpol e lon_0_deg :
  LonLat2ABIangle lon_deg lat_deg NaN H req rpol e lon_0_deg = (NaN, NaN).
Proof.
  unfold LonLat2ABIangle, sat_frame, geocentric_dist.
  autorewrite with nan. cbn [Float.neg].
  autorewrite with nan. reflexivity.
Qed.

Lemma mask_nodata_hit nodata v :
  Float.eqb v nodata = true -> mask_zero (mask_nodata nodata v) = NaN.
Proof.
  intros E. unfold mask_nodata, Float.neb. rewrite E. reflexivity.
Qed.

Lemma mask_zero_hit nodata v :
  Float.eqb v (Fin 0) = true -> mask_zero (mask_nodata nodata v) = NaN.
Proof.
  intros E. unfold mask_nodata, where_.
  destruct (Float.neb v nodata); [| reflexivity].
  unfold mask_zero, Float.neb. rewrite E. reflexivity.
Qed.

Lemma cell_grid_map f (g : grid) i j :
  cell (grid_map f g) i j = f <$> cell g i j.
Proof.
  unfold cell, grid_map. rewrite list_lookup_fmap.
  destruct (g !! i) as [row|]; simpl; [| reflexivity].
  apply list_lookup_fmap.
Qed.

Lemma lookup_zip3_with {A B C D} (f : A -> B -> C -> D) la lb lc i a b c :
  la !! i = Some a -> lb !! i = Some b -> lc !! i = Some c ->
  zip3_with f la lb lc !! i = Some (f a b c).
Proof.
  intros Ha Hb Hc. unfold zip3_with.
  rewrite lookup_zip_with, lookup_zip_with, Ha, Hb, Hc. reflexivity.
Qed.

(** A cell of the grid version is the scalar function at that cell. *)
Lemma LonLat2ABIangle_grid_cell X Y Z H req rpol e lon_0 i j x y z :
  cell X i j = Some x -> cell Y i j = Some y -> cell Z i j = Some z ->
  let r := LonLat2ABIangle_grid X Y Z H req rpol e lon_0 in
  cell r.1 i j = Some (LonLat2ABIangle x y z H req rpol e lon_0).1
  /\ cell r.2 i j = Some (LonLat2ABIangle x y z H req rpol e lon_0).2.
Proof.
  unfold cell. intros Hx Hy Hz.
  destruct (X !! i) as [rx|] eqn:EX; [| discriminate].
  destruct (Y !! i) as [ry|] eqn:EY; [| discriminate].
  destruct (Z !! i) as [rz|] eqn:EZ; [| discriminate].
  cbn zeta. unfold LonLat2ABIangle_grid. cbn [fst snd].
  rewrite !list_lookup_fmap.
  rewrite (lookup_zip3_with _ _ _ _ _ _ _ _ EX EY EZ). simpl.
  rewrite !list_lookup_fmap.
  rewrite (lookup_zip3_with _ _ _ _ _ _ _ _ Hx Hy Hz). simpl.
  split; reflexivity.
Qed.

Lemma meshgrid_cell xs ys i j lon lat :
  ys !! i = Some lat -> xs !! j = Some lon ->
  cell (meshgrid xs ys).1 i j = Some lon
  /\ cell (meshgrid xs ys).2 i j = Some lat.
Proof.
  intros Hy Hx. unfold cell, meshgrid. cbn [fst snd].
  rewrite !list_lookup_fmap, Hy. simpl.
  rewrite list_lookup_fmap, Hx. split; reflexivity.
Qed.

(** What [load_dem] leaves in a cell of the first band. *)
Lemma load_dem_cell dem nodata band w :
  nodatavals dem !! 0%nat = Some nodata ->
  dem_values dem !! 0%nat = Some band ->
  load_dem dem w
  = (Return (grid_map mask_zero (grid_map (mask_nodata nodata) band)), w).
Proof.
  intros Hn Hb. unfold load_dem, bind, of_option, ret.
  rewrite Hn, list_lookup_fmap, Hb. reflexivity.
Qed.

(** The run of [make_ortho_map] on readable inputs: it returns a reference
    to the dataset built from the masked first band. *)
Lemma make_ortho_map_returns w goes_filepath dem_filepath out_filepath
    img dem nodata band :
  files w !! goes_filepath = Some (GoesFile img) ->
  files w !! dem_filepath = Some (DemFile dem) ->
  nodatavals dem !! 0%nat = Some nodata ->
  dem_values dem !! 0%nat = Some band ->
  exists w',
    make_ortho_map goes_filepath dem_filepath out_filepath w
    = (Return (PyDataset (length (heap w))), w')
    /\ heap w' !! length (heap w)
       = Some (ortho_map_dataset img dem_filepath dem
                 (grid_map mask_zero (grid_map (mask_nodata nodata) band))).
Proof.
  intros Hg Hd Hn Hb.
  unfold make_ortho_map, bind, print, emit, open_dataset, open_rasterio,
    alloc, to_netcdf, deref, ret.
  cbn [files heap log]. rewrite Hg. cbn [files heap log]. rewrite Hd.
  rewrite (load_dem_cell _ _ _ _ Hn Hb). cbn [files heap log].
  assert (Hl : forall d : Dataset,
             (heap w ++ [d]) !! length (heap w) = Some d).
  { intros d. rewrite lookup_app_r by lia.
    replace (length (heap w) - length (heap w))%nat with 0%nat by lia.
    reflexivity. }
  destruct out_filepath as [path|]; cbn [files heap log].
  - unfold bind, deref. cbn [files heap log]. rewrite Hl.
    eexists. split; [reflexivity |]. cbn [heap]. apply Hl.
  - eexists. split; [reflexivity |]. cbn [heap]. apply Hl.
Qed.

(** C5. In the ortho map that [make_ortho_map] returns, a cell whose raw
    elevation equals the declared no-data value or equals zero has a NaN
    elevation and a NaN scan-angle pair, whatever the projection
    parameters of the image are. *)
Theorem make_ortho_map_masks_nodata_and_zero :
  forall w goes_filepath dem_filepath out_filepath img dem nodata band,
    files w !! goes_filepath = Some (GoesFile img) ->
    files w !! dem_filepath = Some (DemFile dem) ->
    nodatavals dem !! 0%nat = Some nodata ->
    dem_values dem !! 0%nat = Some band ->
    exists l w' ds elevation angle_x angle_y,
      make_ortho_map goes_filepath dem_filepath out_filepath w
      = (Return (PyDataset l), w')
      /\ heap w' !! l = Some ds
      /\ data_vars ds !! "elevation"%string
         = Some (mk_variable ["y"; "x"]%string (Array2 elevation))
      /\ coords ds !! "dem_px_angle_x"%string
         = Some (mk_variable ["y"; "x"]%string (Array2 angle_x))
      /\ coords ds !! "dem_px_angle_y"%string
         = Some (mk_variable ["y"; "x"]%string (Array2 angle_y))
      /\ forall i j v lon lat,
           cell band i j = Some v ->
           dem_x dem !! j = Some lon ->
           dem_y dem !! i = Some lat ->
           Float.eqb v nodata = true \/ Float.eqb v (Fin 0) = true ->
           cell elevation i j = Some NaN
           /\ cell angle_x i j = Some NaN
           /\ cell angle_y i j = Some NaN.
Proof.
  intros w gp dp op img dem nodata band Hg Hd Hn Hb.
  destruct (make_ortho_map_returns w gp dp op img dem nodata band Hg Hd Hn Hb)
    as (w' & Hrun & Hheap).
  set (Z := grid_map mask_zero (grid_map (mask_nodata nodata) band)) in *.
  set (proj := projection img).
  set (Hs := (perspective_point_height proj + semi_major_axis proj)%fl).
  set (r := LonLat2ABIangle_grid (meshgrid (dem_x dem) (dem_y dem)).1
              (meshgrid (dem_x dem) (dem_y dem)).2 Z Hs
              (semi_major_axis proj) (semi_minor_axis proj)
              grs80_eccentricity (longitude_of_projection_origin proj)).
  exists (length (heap w)), w', (ortho_map_dataset img dp dem Z), Z, r.1, r.2.
  split; [exact Hrun |]. split; [exact Hheap |].
  split; [reflexivity |]. split; [reflexivity |]. split; [reflexivity |].
  intros i j v lon lat Hv Hx Hy Hmask.
  assert (HZ : cell Z i j = Some NaN).
  { unfold Z. rewrite !cell_grid_map, Hv. simpl. f_equal.
    destruct Hmask; [apply mask_nodata_hit | apply mask_zero_hit]; assumption. }
  destruct (meshgrid_cell (dem_x dem) (dem_y dem) i j lon lat Hy Hx)
    as [HX HY].
  destruct (LonLat2ABIangle_grid_cell _ _ _ Hs (semi_major_axis proj)
              (semi_minor_axis proj) grs80_eccentricity
              (longitude_of_projection_origin proj) i j _ _ _ HX HY HZ)
    as [Hrx Hry].
  rewrite LonLat2ABIangle_nan_elevation in Hrx, Hry.
  split; [exact HZ |]. split; [exact Hrx | exact Hry].
Qed.

(** ** The inverse transform on the equator *)

Section Equator.

Variables H req rpol e : R.
Hypothesis Hvalid : valid_parameters H req rpol e.

(** The geocentric distance the transform computes at latitude 0. *)
Let rc : R := equatorial_radius rpol e.

Lemma one_minus_e2_pos : 0 < 1 - e * e.
Proof. destruct Hvalid as (_ & _ & _ & He). nra. Qed.

Lemma equatorial_radius_pos : 0 < rc.
Proof.
  unfold rc, equatorial_radius. destruct Hvalid as (_ & Hr & _).
  apply Rdiv_lt_0_compat; [assumption |].
  apply sqrt_lt_R0, one_minus_e2_pos.
Qed.

Lemma geocentric_lat_equator :
  geocentric_lat (Fin 0) (Fin req) (Fin rpol) = Fin 0.
Proof.
  destruct Hvalid as (Hle & Hr & _).
  unfold geocentric_lat, Float.radians. cbn [Float.mul].
  replace (0 * (PI / 180)) with 0 by ring.
  rewrite FloatFacts.tan_fin by (rewrite cos_0; lra).
  rewrite !FloatFacts.sq_fin, FloatFacts.div_fin by nra.
  cbn [Float.mul Float.arctan]. apply FloatFacts.fin_eq.
  rewrite tan_0, Rmult_0_r. apply atan_0.
Qed.

Lemma geocentric_dist_equator :
  geocentric_dist (Fin 0) (Fin 0) (Fin req) (Fin rpol) (Fin e) = Fin rc.
Proof.
  unfold geocentric_dist. rewrite geocentric_lat_equator.
  cbn [Float.cos Float.sq Float.mul Float.sub Float.neg Float.add].
  rewrite cos_0.
  rewrite FloatFacts.sqrt_fin by (pose proof one_minus_e2_pos; lra).
  assert (Hs : 0 < sqrt (1 - e * e)) by apply sqrt_lt_R0, one_minus_e2_pos.
  replace (1 + - (e * e * (1 * 1))) with (1 - e * e) by ring.
  rewrite FloatFacts.div_fin by lra.
  cbn [Float.add]. apply FloatFacts.fin_eq. unfold rc, equatorial_radius. ring.
Qed.

(** Position in the satellite frame of a point of the equator at sea
    level, [d] being the longitude from the projection origin in radians. *)
Lemma sat_frame_equator lon lon_0 :
  let d := lon * (PI / 180) - lon_0 * (PI / 180) in
  sat_frame (Fin lon) (Fin 0) (Fin 0) (Fin H) (Fin req) (Fin rpol) (Fin e)
    (Fin lon_0)
  = (Fin (H - rc * cos d), Fin (- (rc * sin d)), Fin 0).
Proof.
  intros d. unfold sat_frame.
  rewrite geocentric_dist_equator, geocentric_lat_equator.
  unfold Float.radians.
  cbn [Float.cos Float.sin Float.mul Float.sub Float.neg Float.add].
  rewrite cos_0, sin_0. unfold d, Rminus.
  f_equal; [f_equal |]; apply FloatFacts.fin_eq; ring.
Qed.

(** Off the degenerate case [Sx = 0] the transform returns the angle
    [equator_x] and the elevation angle 0. *)
Lemma LonLat2ABIangle_equator lon lon_0 :
  let d := lon * (PI / 180) - lon_0 * (PI / 180) in
  H - rc * cos d <> 0 ->
  LonLat2ABIangle (Fin lon) (Fin 0) (Fin 0) (Fin H) (Fin req) (Fin rpol)
    (Fin e) (Fin lon_0)
  = (Fin (equator_x H rc d), Fin 0).
Proof.
  intros d Hx. unfold LonLat2ABIangle. rewrite sat_frame_equator. fold d.
  set (Sx := H - rc * cos d) in *. set (a := rc * sin d).
  rewrite FloatFacts.div_fin by assumption.
  rewrite !FloatFacts.sq_fin. cbn [Float.add Float.neg Float.arctan].
  assert (Hn : 0 < Sx * Sx + a * a) by nra.
  replace (Sx * Sx + - a * - a + 0 * 0) with (Sx * Sx + a * a) by ring.
  rewrite FloatFacts.sqrt_fin by lra.
  pose proof (sqrt_lt_R0 _ Hn) as Hs.
  pose proof (sqrt_sqrt (Sx * Sx + a * a) (Rlt_le _ _ Hn)) as Hss.
  rewrite FloatFacts.div_fin by lra.
  rewrite FloatFacts.arcsin_fin.
  - f_equal; apply FloatFacts.fin_eq.
    + unfold equator_x. fold Sx a. f_equal. field. lra.
    + replace (0 / Sx) with 0 by (field; assumption). apply atan_0.
  - set (s := sqrt (Sx * Sx + a * a)) in *.
    split.
    + apply Rmult_le_reg_r with s; [assumption |].
      unfold Rdiv. rewrite Rmult_assoc, Rinv_l by lra. nra.
    + apply Rmult_le_reg_r with s; [assumption |].
      unfold Rdiv. rewrite Rmult_assoc, Rinv_l by lra. nra.
Qed.

(** In the degenerate case the two angles are NaN: every component of the
    position is zero at the origin longitude. *)
Lemma LonLat2ABIangle_equator_degenerate lon_0 :
  H = rc ->
  LonLat2ABIangle (Fin lon_0) (Fin 0) (Fin 0) (Fin H) (Fin req) (Fin rpol)
    (Fin e) (Fin lon_0)
  = (NaN, NaN).
Proof.
  intros HH. unfold LonLat2ABIangle. rewrite sat_frame_equator.
  replace (lon_0 * (PI / 180) - lon_0 * (PI / 180)) with 0 by ring.
  rewrite cos_0, sin_0.
  replace (H - rc * 1) with 0 by lra.
  replace (- (rc * 0)) with 0 by ring.
  rewrite FloatFacts.div_zero_zero. rewrite !FloatFacts.sq_fin.
  cbn [Float.add Float.neg Float.arctan].
  replace (0 * 0 + 0 * 0 + 0 * 0) with 0 by ring.
  rewrite FloatFacts.sqrt_fin by lra. rewrite sqrt_0.
  replace (- 0) with 0 by ring.
  rewrite FloatFacts.div_zero_zero. reflexivity.
Qed.

End Equator.

Lemma equator_x_origin H rc : equator_x H rc 0 = 0.
Proof.
  unfold equator_x. rewrite sin_0, Rmult_0_r. unfold Rdiv.
  rewrite Rmult_0_l. apply asin_0.
Qed.

Lemma equatorial_radius_le_double rpol e :
  0 < rpol -> e * e <= 3 / 4 -> equatorial_radius rpol e <= 2 * rpol.
Proof.
  intros Hr He. unfold equatorial_radius.
  assert (Hq : / 2 <= sqrt (1 - e * e)).
  { replace (/ 2) with (sqrt (/ 2 * / 2)) by (apply sqrt_square; lra).
    apply sqrt_le_1_alt. lra. }
  apply Rmult_le_reg_r with (sqrt (1 - e * e)); [lra |].
  unfold Rdiv. rewrite Rmult_assoc, Rinv_l by lra. nra.
Qed.

(** The parameters of the end-to-end scenario of the specification. *)
Lemma goes_parameters_valid :
  valid_parameters 42164160 6378137 6356752.31414 0.0818191910435.
Proof. unfold valid_parameters. lra. Qed.

Lemma goes_height_above_radius :
  equatorial_radius 6356752.31414 0.0818191910435 < 42164160.
Proof.
  eapply Rle_lt_trans; [apply equatorial_radius_le_double; lra | lra].
Qed.

(** The sub-satellite point off the degenerate case. *)
Lemma subsatellite_point_angles H req rpol e lon_0 :
  valid_parameters H req rpol e ->
  H <> equatorial_radius rpol e ->
  LonLat2ABIangle (Fin lon_0) (Fin 0) (Fin 0) (Fin H) (Fin req) (Fin rpol)
    (Fin e) (Fin lon_0)
  = (Fin 0, Fin 0).
Proof.
  intros Hv Hne.
  rewrite (LonLat2ABIangle_equator H req rpol e Hv).
  - replace (lon_0 * (PI / 180) - lon_0 * (PI / 180)) with 0 by ring.
    rewrite equator_x_origin. reflexivity.
  - replace (lon_0 * (PI / 180) - lon_0 * (PI / 180)) with 0 by ring.
    rewrite cos_0. lra.
Qed.

(** On the equator the distance is at least [rpol]. *)
Lemma equatorial_radius_ge rpol e :
  0 < rpol -> 0 <= e < 1 -> rpol <= equatorial_radius rpol e.
Proof.
  intros Hr He. unfold equatorial_radius.
  assert (Hpos : 0 < 1 - e * e) by nra.
  pose proof (sqrt_lt_R0 _ Hpos) as Hs.
  assert (Hle : sqrt (1 - e * e) <= 1).
  { rewrite <- sqrt_1 at 2. apply sqrt_le_1_alt. nra. }
  apply Rmult_le_reg_r with (sqrt (1 - e * e)); [assumption |].
  unfold Rdiv. rewrite Rmult_assoc, Rinv_l by lra. nra.
Qed.

Lemma well_conditioned_above H req rpol e :
  well_conditioned H req rpol e -> equatorial_radius rpol e < H.
Proof.
  intros (Hv & Hr & _ & _ & Hm).
  pose proof (equatorial_radius_pos H req rpol e Hv). lra.
Qed.

Lemma goes_parameters_well_conditioned :
  well_conditioned 42164160 6378137 6356752.31414 0.0818191910435.
Proof.
  split; [exact goes_parameters_valid |].
  split; [lra |]. split; [lra |]. split; [lra |].
  eapply Rle_trans.
  - apply Rmult_le_compat_l; [lra |].
    apply equatorial_radius_le_double; lra.
  - lra.
Qed.



Lemma equatorial_radius_4_35 : equatorial_radius 4 (3 / 5) = 5.
Proof.
  unfold equatorial_radius.
  replace (1 - 3 / 5 * (3 / 5)) with (4 / 5 * (4 / 5)) by field.
  rewrite sqrt_square by lra. field.
Qed.


(** ** Monotonicity along the equator *)

Lemma asin_lt a b : -1 <= a -> a < b -> b <= 1 -> asin a < asin b.
Proof.
  intros Ha Hab Hb.
  destruct (Rlt_le_dec (asin a) (asin b)) as [Hlt | Hle]; [assumption |].
  exfalso.
  pose proof (asin_bound a) as Ba. pose proof (asin_bound b) as Bb.
  assert (Hs : sin (asin b) <= sin (asin a)) by (apply sin_incr_1; lra).
  rewrite !sin_asin in Hs by lra. lra.
Qed.

Section EquatorMonotone.

Variables H rc : R.
Hypothesis HH : 0 < H.
Hypothesis Hrc : 0 < rc.

(** The argument of the arcsine in [equator_x]. *)
Let ratio (d : R) : R :=
  rc * sin d
  / sqrt ((H - rc * cos d) * (H - rc * cos d) + (rc * sin d) * (rc * sin d)).

Let norm2 (d : R) : R :=
  (H - rc * cos d) * (H - rc * cos d) + (rc * sin d) * (rc * sin d).

Lemma ratio_bounds d : H - rc * cos d <> 0 -> -1 <= ratio d <= 1.
Proof.
  intros Hx. unfold ratio. fold (norm2 d).
  assert (Hn : 0 < norm2 d) by (unfold norm2; nra).
  pose proof (sqrt_lt_R0 _ Hn) as Hs.
  pose proof (sqrt_sqrt _ (Rlt_le _ _ Hn)) as Hss.
  set (s := sqrt (norm2 d)) in *. unfold norm2 in Hss.
  split; (apply Rmult_le_reg_r with s; [assumption |]);
    unfold Rdiv; rewrite Rmult_assoc, Rinv_l by lra; nra.
Qed.

Lemma ratio_nonneg d : 0 <= d <= PI -> 0 <= ratio d.
Proof.
  intros Hd. unfold ratio, Rdiv. apply Rmult_le_pos.
  - apply Rmult_le_pos; [lra | apply sin_ge_0; lra].
  - fold (norm2 d). pose proof (sqrt_pos (norm2 d)) as Hp.
    destruct (Req_dec (sqrt (norm2 d)) 0) as [E | E].
    + rewrite E, Rinv_0. lra.
    + left. apply Rinv_0_lt_compat. lra.
Qed.

(** Inside the limb, where [rc <= H * cos d], the ratio grows with the
    longitude from the origin. *)
Lemma ratio_increasing d1 d2 :
  0 <= d1 -> d1 < d2 -> d2 <= PI -> rc <= H * cos d2 ->
  ratio d1 < ratio d2.
Proof.
  intros H1 H12 H2 Hlimb.
  assert (Hc : cos d2 < cos d1) by (apply cos_decreasing_1; lra).
  pose proof (COS_bound d1) as [_ Hc1].
  pose proof (sin2_cos2 d1) as E1. pose proof (sin2_cos2 d2) as E2.
  unfold Rsqr in E1, E2.
  set (c1 := cos d1) in *. set (c2 := cos d2) in *.
  assert (Hc2 : 0 < c2) by nra.
  assert (Hx1 : 0 < H - rc * c1) by nra.
  assert (Hx2 : 0 < H - rc * c2) by nra.
  assert (Hn1 : 0 < norm2 d1) by (unfold norm2; fold c1; nra).
  assert (Hn2 : 0 < norm2 d2) by (unfold norm2; fold c2; nra).
  assert (Hkey : (rc * sin d1) * (rc * sin d1) * norm2 d2
                 < (rc * sin d2) * (rc * sin d2) * norm2 d1).
  { unfold norm2. fold c1 c2.
    set (s1 := sin d1) in *. set (s2 := sin d2) in *.
    assert (P1 : 0 < (H * c1 - rc) * (H - rc * c2)) by (apply Rmult_lt_0_compat; nra).
    assert (P2 : 0 <= (H * c2 - rc) * (H - rc * c1)) by (apply Rmult_le_pos; nra).
    assert (Hid : rc * s2 * (rc * s2)
                  * ((H - rc * c1) * (H - rc * c1) + rc * s1 * (rc * s1))
                  - rc * s1 * (rc * s1)
                    * ((H - rc * c2) * (H - rc * c2) + rc * s2 * (rc * s2))
                  = rc * rc * (c1 - c2)
                    * ((H * c1 - rc) * (H - rc * c2)
                       + (H * c2 - rc) * (H - rc * c1))).
    { assert (Es1 : rc * s1 * (rc * s1) = rc * rc * (1 - c1 * c1)).
      { replace (1 - c1 * c1) with (s1 * s1) by lra. ring. }
      assert (Es2 : rc * s2 * (rc * s2) = rc * rc * (1 - c2 * c2)).
      { replace (1 - c2 * c2) with (s2 * s2) by lra. ring. }
      rewrite Es1, Es2. ring. }
    assert (0 < rc * rc * (c1 - c2)
                * ((H * c1 - rc) * (H - rc * c2)
                   + (H * c2 - rc) * (H - rc * c1))).
    { apply Rmult_lt_0_compat; [| lra].
      apply Rmult_lt_0_compat; [nra | lra]. }
    lra. }
  pose proof (sqrt_lt_R0 _ Hn1) as Hs1. pose proof (sqrt_lt_R0 _ Hn2) as Hs2.
  pose proof (sqrt_sqrt _ (Rlt_le _ _ Hn1)) as Hss1.
  pose proof (sqrt_sqrt _ (Rlt_le _ _ Hn2)) as Hss2.
  apply Rsqr_incrst_0; [| apply ratio_nonneg; lra | apply ratio_nonneg; lra].
  unfold ratio. fold (norm2 d1) (norm2 d2).
  rewrite !Rsqr_div'. unfold Rsqr. rewrite Hss1, Hss2.
  apply Rmult_lt_reg_r with (norm2 d1 * norm2 d2);
    [apply Rmult_lt_0_compat; assumption |].
  replace (rc * sin d1 * (rc * sin d1) / norm2 d1 * (norm2 d1 * norm2 d2))
    with (rc * sin d1 * (rc * sin d1) * norm2 d2) by (field; lra).
  replace (rc * sin d2 * (rc * sin d2) / norm2 d2 * (norm2 d1 * norm2 d2))
    with (rc * sin d2 * (rc * sin d2) * norm2 d1) by (field; lra).
  exact Hkey.
Qed.

Lemma equator_x_opp d : equator_x H rc (- d) = - equator_x H rc d.
Proof.
  unfold equator_x. rewrite sin_neg, cos_neg, <- asin_opp. f_equal.
  replace (rc * - sin d * (rc * - sin d)) with (rc * sin d * (rc * sin d))
    by ring.
  unfold Rdiv. ring.
Qed.

Lemma equator_x_nonneg d : 0 <= d <= PI -> 0 <= equator_x H rc d.
Proof.
  intros Hd. pose proof (ratio_nonneg d Hd) as Hr. unfold ratio in Hr.
  unfold equator_x.
  set (q := rc * sin d / _) in *.
  destruct (Rle_lt_dec q 1) as [Hq | Hq].
  - destruct Hr as [Hr | Hr].
    + rewrite <- asin_0. left. apply asin_lt; lra.
    + rewrite <- Hr, asin_0. lra.
  - unfold asin. destruct (Rle_dec q (-1)); [lra |].
    destruct (Rle_dec 1 q); [| lra]. pose proof PI_RGT_0. lra.
Qed.

Lemma equator_x_abs d :
  - PI <= d <= PI -> Rabs (equator_x H rc d) = equator_x H rc (Rabs d).
Proof.
  intros Hd. unfold Rabs at 2. destruct (Rcase_abs d) as [Hneg | Hpos].
  - rewrite equator_x_opp.
    pose proof (equator_x_nonneg (- d)) as Hn. rewrite equator_x_opp in Hn.
    rewrite Rabs_left1; [reflexivity | lra].
  - apply Rabs_right. apply Rle_ge, equator_x_nonneg. lra.
Qed.

Lemma equator_x_increasing d1 d2 :
  0 <= d1 -> d1 < d2 -> d2 <= PI -> rc <= H * cos d2 ->
  equator_x H rc d1 < equator_x H rc d2.
Proof.
  intros H1 H12 H2 Hlimb.
  assert (Hc : cos d2 < cos d1) by (apply cos_decreasing_1; lra).
  pose proof (COS_bound d1) as [_ Hc1].
  assert (Hx1 : H - rc * cos d1 <> 0) by nra.
  assert (Hx2 : H - rc * cos d2 <> 0) by nra.
  pose proof (ratio_bounds d1 Hx1). pose proof (ratio_bounds d2 Hx2).
  pose proof (ratio_increasing d1 d2 H1 H12 H2 Hlimb).
  unfold equator_x. apply asin_lt; unfold ratio in *; lra.
Qed.

End EquatorMonotone.

Lemma cos_Rabs d : cos (Rabs d) = cos d.
Proof.
  unfold Rabs. destruct (Rcase_abs d); [apply cos_neg | reflexivity].
Qed.



(** ** The inverse transform has no visibility filter *)

Section Inverse.

Variables H req rpol e : R.
Hypothesis Hvalid : valid_parameters H req rpol e.

Lemma tan_not_nan r : Float.tan (Fin r) <> NaN.
Proof.
  unfold Float.tan, Float.sin, Float.cos, Float.div.
  destruct (Req_dec_T (cos r) 0) as [Hc |]; [| discriminate].
  destruct (Req_dec_T (sin r) 0) as [Hs |]; [| discriminate].
  pose proof (sin2_cos2 r) as E. unfold Rsqr in E. rewrite Hc, Hs in E. lra.
Qed.

Lemma geocentric_lat_finite lat :
  exists g, geocentric_lat (Fin lat) (Fin req) (Fin rpol) = Fin g.
Proof.
  destruct Hvalid as (Hle & Hr & _).
  unfold geocentric_lat.
  rewrite !FloatFacts.sq_fin, FloatFacts.div_fin by nra.
  assert (Hk : rpol * rpol / (req * req) <> 0).
  { apply Rgt_not_eq. apply Rdiv_lt_0_compat; nra. }
  pose proof (tan_not_nan (lat * (PI / 180))) as Ht.
  change (Float.radians (Fin lat)) with (Fin (lat * (PI / 180))).
  destruct (Float.tan (Fin (lat * (PI / 180)))) as [t | s |];
    [| | contradiction].
  - eexists. reflexivity.
  - cbn [Float.mul].
    destruct (Req_dec_T (rpol * rpol / (req * req)) 0); [contradiction |].
    destruct (xorb s (Float.signbit (rpol * rpol / (req * req))));
      eexists; reflexivity.
Qed.

Lemma geocentric_dist_finite lat z :
  exists rc, geocentric_dist (Fin lat) (Fin z) (Fin req) (Fin rpol) (Fin e)
             = Fin rc.
Proof.
  unfold geocentric_dist. destruct (geocentric_lat_finite lat) as [g ->].
  cbn [Float.cos Float.sq Float.mul Float.sub Float.neg Float.add].
  assert (Hpos : 0 < 1 + - (e * e * (cos g * cos g))).
  { destruct Hvalid as (_ & _ & _ & He).
    pose proof (COS_bound g) as [? ?].
    assert (cos g * cos g <= 1) by nra. assert (e * e < 1) by nra.
    assert (0 <= e * e) by nra. nra. }
  rewrite FloatFacts.sqrt_fin by lra.
  pose proof (sqrt_lt_R0 _ Hpos).
  rewrite FloatFacts.div_fin by lra.
  eexists. reflexivity.
Qed.

Lemma sat_frame_finite lon lat z lon_0 :
  exists Sx Sy Sz,
    sat_frame (Fin lon) (Fin lat) (Fin z) (Fin H) (Fin req) (Fin rpol) (Fin e)
      (Fin lon_0)
    = (Fin Sx, Fin Sy, Fin Sz).
Proof.
  unfold sat_frame.
  destruct (geocentric_dist_finite lat z) as [rc ->].
  destruct (geocentric_lat_finite lat) as [g ->].
  do 3 eexists. reflexivity.
Qed.

(** The two angles of a finite position off the axis [Sx = Sz = 0]. *)
Lemma scan_angles_finite Sx Sy Sz :
  Sx <> 0 \/ Sz <> 0 ->
  exists x y,
    (Float.arcsin (- Fin Sy / Float.sqrt (Float.sq (Fin Sx) + Float.sq (Fin Sy)
                                           + Float.sq (Fin Sz)))%fl,
     Float.arctan (Fin Sz / Fin Sx)%fl)
    = (Fin x, Fin y).
Proof.
  intros Hnz.
  assert (Hy : exists y, Float.arctan (Fin Sz / Fin Sx)%fl = Fin y).
  { unfold Float.div. destruct (Req_dec_T Sx 0) as [Hx |].
    - destruct (Req_dec_T Sz 0); [lra |].
      destruct (Float.signbit Sz); eexists; reflexivity.
    - eexists. reflexivity. }
  destruct Hy as [y ->].
  rewrite !FloatFacts.sq_fin. cbn [Float.add Float.neg].
  set (n := Sx * Sx + Sy * Sy + Sz * Sz).
  assert (Hn : 0 < n) by (unfold n; destruct Hnz; nra).
  rewrite FloatFacts.sqrt_fin by lra.
  pose proof (sqrt_lt_R0 _ Hn) as Hs.
  pose proof (sqrt_sqrt n (Rlt_le _ _ Hn)) as Hss.
  rewrite FloatFacts.div_fin by lra.
  rewrite FloatFacts.arcsin_fin.
  - do 2 eexists. reflexivity.
  - set (s := sqrt n) in *. unfold n in Hss.
    split; (apply Rmult_le_reg_r with s; [assumption |]);
      unfold Rdiv; rewrite Rmult_assoc, Rinv_l by lra; nra.
Qed.

(** The point of the equator opposite to the satellite: the commented-out
    test finds it not visible, and the transform returns the angles of
    the sub-satellite point for it. *)
Lemma antipode_not_visible lon_0 :
  not_visible (Fin (lon_0 + 180)) (Fin 0) (Fin 0) (Fin H) (Fin req)
    (Fin rpol) (Fin e) (Fin lon_0) = true.
Proof.
  unfold not_visible. rewrite (sat_frame_equator H req rpol e Hvalid).
  replace ((lon_0 + 180) * (PI / 180) - lon_0 * (PI / 180)) with PI
    by (field; apply PI_neq0).
  rewrite cos_PI, sin_PI.
  pose proof (equatorial_radius_pos H req rpol e Hvalid) as Hrc.
  destruct Hvalid as (Hle & Hr & HH & _).
  rewrite !FloatFacts.sq_fin, FloatFacts.div_fin by nra.
  cbn [Float.mul Float.add Float.sub Float.neg Float.ltb].
  destruct (Rlt_dec _ _) as [| Hn]; [reflexivity |].
  exfalso. apply Hn. nra.
Qed.

Lemma antipode_angles lon_0 :
  LonLat2ABIangle (Fin (lon_0 + 180)) (Fin 0) (Fin 0) (Fin H) (Fin req)
    (Fin rpol) (Fin e) (Fin lon_0) = (Fin 0, Fin 0).
Proof.
  pose proof (equatorial_radius_pos H req rpol e Hvalid) as Hrc.
  assert (HH : 0 < H) by (destruct Hvalid as (? & ? & ? & ?); lra).
  assert (Ed : (lon_0 + 180) * (PI / 180) - lon_0 * (PI / 180) = PI)
    by (field; apply PI_neq0).
  rewrite (LonLat2ABIangle_equator H req rpol e Hvalid).
  - rewrite Ed. unfold equator_x. rewrite sin_PI, Rmult_0_r.
    unfold Rdiv. rewrite Rmult_0_l, asin_0. reflexivity.
  - rewrite Ed, cos_PI. lra.
Qed.

End Inverse.



(** ** Round trip *)

(** [ABIangle2LonLat] is the second half applied to the first. *)
Lemma ABIangle2LonLat_split x y H req rpol lon_0_deg :
  ABIangle2LonLat x y H req rpol lon_0_deg
  = lonlat_of_range (range_to_surface x y H req rpol) x y H req rpol
      lon_0_deg.
Proof. reflexivity. Qed.

(** The forward transform at the scan-angle origin: the sub-satellite
    point, for any ellipsoid below the satellite. *)
Lemma ABIangle2LonLat_origin H req rpol lon_0 :
  0 < rpol -> 0 < req -> req < H ->
  ABIangle2LonLat (Fin 0) (Fin 0) (Fin H) (Fin req) (Fin rpol) (Fin lon_0)
  = (Fin lon_0, Fin 0).
Proof.
  intros Hrpol Hreq HH. rewrite ABIangle2LonLat_split.
  assert (Ers : range_to_surface (Fin 0) (Fin 0) (Fin H) (Fin req) (Fin rpol)
                = Fin (H - req)).
  { unfold range_to_surface, quad_a, quad_b, quad_c.
    autorewrite with fin. rewrite sin_0, cos_0.
    rewrite FloatFacts.div_fin by nra. autorewrite with fin.
    set (k := req * req / (rpol * rpol)).
    replace (-2 * H * 1 * 1 * (-2 * H * 1 * 1)
             - 4 * (0 * 0 + 1 * 1 * (1 * 1 + k * (0 * 0)))
               * (H * H - req * req))
      with ((2 * req) * (2 * req)) by ring.
    rewrite FloatFacts.sqrt_fin by nra. rewrite sqrt_square by lra.
    autorewrite with fin. rewrite FloatFacts.div_fin by lra.
    apply FloatFacts.fin_eq. field. }
  rewrite Ers. unfold lonlat_of_range.
  autorewrite with fin. rewrite sin_0, cos_0.
  replace ((H - (H - req) * 1 * 1) * (H - (H - req) * 1 * 1)
           + - (H - req) * 0 * (- (H - req) * 0))
    with (req * req) by ring.
  rewrite FloatFacts.sqrt_fin by nra. rewrite sqrt_square by lra.
  rewrite !FloatFacts.div_fin by nra.
  autorewrite with fin.
  f_equal; apply FloatFacts.fin_eq.
  - replace (- (H - req) * 0 / (H - (H - req) * 1 * 1)) with 0
      by (field; lra).
    rewrite atan_0. ring.
  - replace (req * req / (rpol * rpol) * ((H - req) * 1 * 0 / req)) with 0
      by (field; lra).
    rewrite atan_0. ring.
Qed.

(** *** The spherical case *)

Section Sphere.

Variables H a lon lat lon_0 : R.

Let phi : R := lat * (PI / 180).
Let d : R := lon * (PI / 180) - lon_0 * (PI / 180).

Hypothesis Ha : 0 < a.
Hypothesis HH : a < H.
Hypothesis Hphi : - (PI / 2) < phi < PI / 2.
Hypothesis Hd : - (PI / 2) < d < PI / 2.
Hypothesis Hvis : a <= H * cos phi * cos d.

(** Position of the ground point in the satellite frame. *)
Let Sx : R := H - a * cos phi * cos d.
Let Sy : R := - (a * cos phi * sin d).
Let Sz : R := a * sin phi.
Let rho : R := sqrt (Sx * Sx + Sy * Sy + Sz * Sz).
Let sigma : R := sqrt (Sx * Sx + Sz * Sz).

Lemma cos_phi_pos : 0 < cos phi.
Proof. apply cos_gt_0; lra. Qed.

Lemma cos_d_pos : 0 < cos d.
Proof. apply cos_gt_0; lra. Qed.

Lemma Sx_pos : 0 < Sx.
Proof.
  unfold Sx. pose proof cos_phi_pos. pose proof cos_d_pos.
  pose proof (COS_bound phi) as [_ ?]. pose proof (COS_bound d) as [_ ?].
  assert (cos phi * cos d <= 1) by nra. nra.
Qed.

Lemma sigma_pos : 0 < sigma.
Proof. unfold sigma. apply sqrt_lt_R0. pose proof Sx_pos. nra. Qed.

Lemma rho_pos : 0 < rho.
Proof. unfold rho. apply sqrt_lt_R0. pose proof Sx_pos. nra. Qed.

Lemma sigma_sqr : sigma * sigma = Sx * Sx + Sz * Sz.
Proof. unfold sigma. apply sqrt_sqrt. nra. Qed.

Lemma rho_sqr : rho * rho = Sx * Sx + Sy * Sy + Sz * Sz.
Proof. unfold rho. apply sqrt_sqrt. nra. Qed.

(** The squared distance to the satellite, by the law of cosines. *)
Lemma rho_sqr_cosines :
  rho * rho = H * H - 2 * H * (a * cos phi * cos d) + a * a.
Proof.
  rewrite rho_sqr. unfold Sx, Sy, Sz.
  pose proof (sin2_cos2 phi) as E1. pose proof (sin2_cos2 d) as E2.
  unfold Rsqr in E1, E2.
  assert (Es : a * sin phi * (a * sin phi)
               = a * a * (1 - cos phi * cos phi)).
  { replace (1 - cos phi * cos phi) with (sin phi * sin phi) by lra. ring. }
  assert (Ed : - (a * cos phi * sin d) * - (a * cos phi * sin d)
               = a * a * cos phi * cos phi * (1 - cos d * cos d)).
  { replace (1 - cos d * cos d) with (sin d * sin d) by lra. ring. }
  rewrite Es, Ed. ring.
Qed.

Lemma geocentric_lat_sphere :
  geocentric_lat (Fin lat) (Fin a) (Fin a) = Fin phi.
Proof.
  unfold geocentric_lat. autorewrite with fin. fold phi.
  rewrite FloatFacts.tan_fin by (pose proof cos_phi_pos; lra).
  rewrite FloatFacts.div_fin by nra. autorewrite with fin.
  apply FloatFacts.fin_eq.
  replace (a * a / (a * a)) with 1 by (field; lra).
  rewrite Rmult_1_l. apply atan_tan. exact Hphi.
Qed.

Lemma geocentric_dist_sphere :
  geocentric_dist (Fin lat) (Fin 0) (Fin a) (Fin a) (Fin 0) = Fin a.
Proof.
  unfold geocentric_dist. rewrite geocentric_lat_sphere.
  autorewrite with fin.
  replace (1 - 0 * 0 * (cos phi * cos phi)) with 1 by ring.
  rewrite FloatFacts.sqrt_fin by lra. rewrite sqrt_1.
  rewrite FloatFacts.div_fin by lra. autorewrite with fin.
  apply FloatFacts.fin_eq. field.
Qed.

Lemma sat_frame_sphere :
  sat_frame (Fin lon) (Fin lat) (Fin 0) (Fin H) (Fin a) (Fin a) (Fin 0)
    (Fin lon_0)
  = (Fin Sx, Fin Sy, Fin Sz).
Proof.
  unfold sat_frame. rewrite geocentric_dist_sphere, geocentric_lat_sphere.
  autorewrite with fin. fold d.
  replace (- a * cos phi * sin d) with Sy by (unfold Sy; ring).
  reflexivity.
Qed.

Lemma Sy_over_rho_bounds : -1 <= - Sy / rho <= 1.
Proof.
  pose proof rho_pos as Hr. pose proof rho_sqr as Hrr.
  split; (apply Rmult_le_reg_r with rho; [assumption |]);
    unfold Rdiv; rewrite Rmult_assoc, Rinv_l by lra; nra.
Qed.

(** The scan angles of the ground point. *)
Let xs : R := asin (- Sy / rho).
Let ys : R := atan (Sz / Sx).

Lemma LonLat2ABIangle_sphere :
  LonLat2ABIangle (Fin lon) (Fin lat) (Fin 0) (Fin H) (Fin a) (Fin a) (Fin 0)
    (Fin lon_0)
  = (Fin xs, Fin ys).
Proof.
  unfold LonLat2ABIangle. rewrite sat_frame_sphere.
  pose proof Sx_pos. pose proof rho_pos.
  rewrite FloatFacts.div_fin by lra. autorewrite with fin.
  rewrite FloatFacts.sqrt_fin by nra. fold rho.
  rewrite FloatFacts.div_fin by lra.
  rewrite FloatFacts.arcsin_fin by apply Sy_over_rho_bounds.
  reflexivity.
Qed.

Lemma sin_xs : sin xs = - Sy / rho.
Proof. unfold xs. apply sin_asin, Sy_over_rho_bounds. Qed.

Lemma cos_xs : cos xs = sigma / rho.
Proof.
  unfold xs. rewrite cos_asin by apply Sy_over_rho_bounds.
  pose proof rho_pos as Hr. pose proof sigma_pos as Hs.
  pose proof rho_sqr as Hrr. pose proof sigma_sqr as Hss.
  apply sqrt_lem_1.
  - pose proof Sy_over_rho_bounds as [? ?]. unfold Rsqr. nra.
  - apply Rlt_le, Rdiv_lt_0_compat; assumption.
  - unfold Rsqr. field_simplify; [| lra | lra].
    apply Rmult_eq_reg_r with (rho * rho); [| nra].
    field_simplify; [| lra | lra]. nra.
Qed.

Lemma cos_ys : cos ys = Sx / sigma.
Proof.
  unfold ys. rewrite cos_atan.
  pose proof Sx_pos as Hx. pose proof sigma_pos as Hs.
  pose proof sigma_sqr as Hss.
  assert (E : sqrt (1 + Rsqr (Sz / Sx)) = sigma / Sx).
  { apply sqrt_lem_1.
    - unfold Rsqr. nra.
    - apply Rlt_le, Rdiv_lt_0_compat; assumption.
    - unfold Rsqr.
      replace (sigma / Sx * (sigma / Sx)) with (sigma * sigma / (Sx * Sx))
        by (field; lra).
      rewrite Hss. field. lra. }
  rewrite E. field. lra.
Qed.

Lemma sin_ys : sin ys = Sz / sigma.
Proof.
  unfold ys. rewrite sin_atan.
  pose proof Sx_pos as Hx. pose proof sigma_pos as Hs.
  pose proof sigma_sqr as Hss.
  assert (E : sqrt (1 + Rsqr (Sz / Sx)) = sigma / Sx).
  { apply sqrt_lem_1.
    - unfold Rsqr. nra.
    - apply Rlt_le, Rdiv_lt_0_compat; assumption.
    - unfold Rsqr.
      replace (sigma / Sx * (sigma / Sx)) with (sigma * sigma / (Sx * Sx))
        by (field; lra).
      rewrite Hss. field. lra. }
  rewrite E. field. lra.
Qed.

Lemma range_to_surface_sphere :
  range_to_surface (Fin xs) (Fin ys) (Fin H) (Fin a) (Fin a) = Fin rho.
Proof.
  unfold range_to_surface, quad_a, quad_b, quad_c.
  autorewrite with fin. rewrite sin_xs, cos_xs, sin_ys, cos_ys.
  rewrite FloatFacts.div_fin by nra. autorewrite with fin.
  pose proof rho_pos as Hr. pose proof sigma_pos as Hs.
  pose proof rho_sqr as Hrr. pose proof Sx_pos as Hx.
  pose proof rho_sqr_cosines as Hcos.
  set (A := - Sy / rho * (- Sy / rho)
            + sigma / rho * (sigma / rho)
              * (Sx / sigma * (Sx / sigma)
                 + a * a / (a * a) * (Sz / sigma * (Sz / sigma)))).
  assert (EA : A = 1).
  { unfold A.
    replace (- Sy / rho * (- Sy / rho)
             + sigma / rho * (sigma / rho)
               * (Sx / sigma * (Sx / sigma)
                  + a * a / (a * a) * (Sz / sigma * (Sz / sigma))))
      with ((Sx * Sx + Sy * Sy + Sz * Sz) / (rho * rho)) by (field; lra).
    rewrite <- Hrr. field. lra. }
  set (B := -2 * H * (sigma / rho) * (Sx / sigma)).
  assert (EB : B = - (2 * (H * Sx / rho))) by (unfold B; field; lra).
  rewrite EA, EB.
  set (q := H * Sx / rho).
  assert (Hq : rho <= q).
  { unfold q. apply Rmult_le_reg_r with rho; [assumption |].
    unfold Rdiv. rewrite Rmult_assoc, Rinv_l by lra.
    rewrite Hcos. unfold Sx. nra. }
  assert (EC : H * H - a * a = 2 * (q * rho) - rho * rho).
  { replace (q * rho) with (H * Sx) by (unfold q; field; lra).
    rewrite Hcos. unfold Sx. ring. }
  rewrite EC.
  replace (- (2 * q) * - (2 * q) - 4 * 1 * (2 * (q * rho) - rho * rho))
    with ((2 * (q - rho)) * (2 * (q - rho))) by ring.
  rewrite FloatFacts.sqrt_fin by nra. rewrite sqrt_square by lra.
  autorewrite with fin. rewrite FloatFacts.div_fin by lra.
  apply FloatFacts.fin_eq. field.
Qed.

Lemma lonlat_of_range_sphere :
  lonlat_of_range (Fin rho) (Fin xs) (Fin ys) (Fin H) (Fin a) (Fin a)
    (Fin lon_0)
  = (Fin lon, Fin lat).
Proof.
  unfold lonlat_of_range.
  autorewrite with fin. rewrite sin_xs, cos_xs, sin_ys, cos_ys.
  pose proof rho_pos as Hr. pose proof sigma_pos as Hs.
  pose proof cos_phi_pos as Hcp. pose proof cos_d_pos as Hcd.
  pose proof PI_RGT_0 as Hpi.
  replace (rho * (sigma / rho) * (Sx / sigma)) with Sx by (field; lra).
  replace (- rho * (- Sy / rho)) with Sy by (field; lra).
  replace (rho * (sigma / rho) * (Sz / sigma)) with Sz by (field; lra).
  assert (Ep : H - Sx = a * cos phi * cos d) by (unfold Sx; ring).
  rewrite Ep.
  replace (a * cos phi * cos d * (a * cos phi * cos d) + Sy * Sy)
    with ((a * cos phi) * (a * cos phi)).
  2:{ unfold Sy. pose proof (sin2_cos2 d) as E. unfold Rsqr in E.
      transitivity (a * cos phi * (a * cos phi)
                    * (sin d * sin d + cos d * cos d));
        [rewrite E; ring | ring]. }
  rewrite FloatFacts.sqrt_fin by nra. rewrite sqrt_square by nra.
  assert (Hac : 0 < a * cos phi) by nra.
  assert (Hacd : 0 < a * cos phi * cos d) by nra.
  rewrite !FloatFacts.div_fin by nra.
  autorewrite with fin.
  f_equal; apply FloatFacts.fin_eq.
  - replace (Sy / (a * cos phi * cos d)) with (- tan d)
      by (unfold Sy, tan; field; lra).
    rewrite atan_opp, atan_tan by exact Hd.
    unfold d. field. lra.
  - replace (a * a / (a * a) * (Sz / (a * cos phi))) with (tan phi)
      by (unfold Sz, tan; field; lra).
    rewrite atan_tan by exact Hphi.
    unfold phi. field. lra.
Qed.

(** Forward after inverse gives the point back. *)
Lemma round_trip_sphere :
  ABIangle2LonLat
    (LonLat2ABIangle (Fin lon) (Fin lat) (Fin 0) (Fin H) (Fin a) (Fin a)
       (Fin 0) (Fin lon_0)).1
    (LonLat2ABIangle (Fin lon) (Fin lat) (Fin 0) (Fin H) (Fin a) (Fin a)
       (Fin 0) (Fin lon_0)).2
    (Fin H) (Fin a) (Fin a) (Fin lon_0)
  = (Fin lon, Fin lat).
Proof.
  rewrite LonLat2ABIangle_sphere. cbn [fst snd].
  rewrite ABIangle2LonLat_split, range_to_surface_sphere.
  apply lonlat_of_range_sphere.
Qed.

End Sphere.

Lemma Rabs_lt_inv x b : Rabs x < b -> - b < x < b.
Proof.
  intros Hx. pose proof (Rle_abs x). pose proof (Rle_abs (- x)) as Hn.
  rewrite Rabs_Ropp in Hn. lra.
Qed.



(** ** Nearest-neighbour selection with NaN labels *)

Lemma exact_indexer_nan index : exact_indexer index NaN = (-1)%Z.
Proof.
  induction index as [| s rest IH]; [reflexivity |].
  cbn [exact_indexer]. replace (Float.eqb s NaN) with false
    by (destruct s; reflexivity).
  rewrite IH. reflexivity.
Qed.

Lemma searchsorted_nan_right index :
  searchsorted index NaN false = length index.
Proof.
  unfold searchsorted. induction index as [| s rest IH]; [reflexivity |].
  cbn [List.filter]. replace (sort_le s NaN) with true.
  - cbn [length]. rewrite IH. reflexivity.
  - unfold sort_le, sort_lt. cbn. rewrite andb_false_r. reflexivity.
Qed.

Lemma searchsorted_nan_left index :
  Forall not_nan index -> searchsorted index NaN true = length index.
Proof.
  unfold searchsorted. induction 1 as [| s rest Hs _ IH]; [reflexivity |].
  cbn [List.filter]. replace (sort_lt s NaN) with true.
  - cbn [length]. rewrite IH. reflexivity.
  - unfold sort_lt. destruct s; cbn; try reflexivity. contradiction Hs.
    reflexivity.
Qed.

Lemma Forall_not_nan_rev index :
  Forall not_nan index -> Forall not_nan (rev index).
Proof. intros Hf. apply Forall_rev. exact Hf. Qed.

(** The position found for a NaN label. *)
Lemma get_indexer_nearest_nan index :
  index <> [] ->
  Forall not_nan index ->
  is_unique index = true ->
  is_monotonic_increasing index || is_monotonic_decreasing index = true ->
  get_indexer_nearest index NaN = Return (nan_position index).
Proof.
  intros Hne Hnn Huniq Hmono.
  assert (Hlen : (0 < length index)%nat)
    by (destruct index; [contradiction | cbn; lia]).
  unfold get_indexer_nearest. rewrite Huniq, Hmono.
  unfold nearest_indexer, pad_indexer, backfill_indexer, nan_position,
    searchsorted_monotonic.
  rewrite exact_indexer_nan. cbn [Z.ltb Z.compare].
  destruct (is_monotonic_increasing index) eqn:Einc.
  - rewrite searchsorted_nan_left by assumption.
    rewrite searchsorted_nan_right, Z.eqb_refl.
    rewrite orb_true_r.
    destruct (Z.of_nat (length index) - 1 <? 0)%Z eqn:E; [lia |].
    f_equal. lia.
  - cbn [negb].
    rewrite searchsorted_nan_right, searchsorted_nan_left
      by (apply Forall_not_nan_rev; assumption).
    rewrite length_rev, Nat.sub_diag. change (Z.of_nat 0) with 0%Z.
    destruct (0 =? Z.of_nat (length index))%Z eqn:E0; [lia |].
    assert (Ed : distance index NaN 0 = NaN).
    { unfold distance. destruct (py_getitem index 0); [| reflexivity].
      rewrite FloatFacts.sub_nan_r. reflexivity. }
    assert (Ed' : distance index NaN (0 - 1) = NaN).
    { unfold distance. destruct (py_getitem index (0 - 1)); [| reflexivity].
      rewrite FloatFacts.sub_nan_r. reflexivity. }
    rewrite Ed, Ed'. reflexivity.
Qed.

Lemma sequence_lookup {A} (l : list (outcome A)) r i o :
  sequence l = Return r -> l !! i = Some o ->
  exists v, o = Return v /\ r !! i = Some v.
Proof.
  revert r i. induction l as [| [a | e] rest IH]; intros r i Hs Hl.
  - discriminate.
  - cbn [sequence] in Hs. destruct (sequence rest) as [r' |] eqn:Er;
      [| discriminate].
    injection Hs as <-. destruct i as [| i].
    + injection Hl as <-. exists a. split; reflexivity.
    + cbn in Hl. apply (IH r' i eq_refl Hl).
  - discriminate.
Qed.

(** A cell of the selection is the selection of the cell. *)
Lemma sel_nearest_cell img angle_x angle_y vals i j kx ky :
  sel_nearest img angle_x angle_y = Return vals ->
  cell angle_x i j = Some kx -> cell angle_y i j = Some ky ->
  exists v, sel_cell img kx ky = Return v /\ cell vals i j = Some v.
Proof.
  unfold sel_nearest, cell. intros Hs Hx Hy.
  destruct (angle_x !! i) as [rx |] eqn:Ex; [| discriminate].
  destruct (angle_y !! i) as [ry |] eqn:Ey; [| discriminate].
  destruct (sequence_lookup _ _ i
              (sequence (zip_with (sel_cell img) rx ry)) Hs)
    as (row & Hrow & Hvals).
  { rewrite lookup_zip_with, Ex, Ey. reflexivity. }
  rewrite Hvals.
  destruct (sequence_lookup _ _ j (sel_cell img kx ky) Hrow)
    as (v & Hv & Hr).
  { rewrite lookup_zip_with, Hx, Hy. reflexivity. }
  exists v. split; assumption.
Qed.

(** ** Runs of the resampler *)

Lemma bind_returns {A B} (m : M A) (k : A -> M B) w v w' :
  bind m k w = (Return v, w') ->
  exists a w1, m w = (Return a, w1) /\ k a w1 = (Return v, w').
Proof.
  unfold bind. destruct (m w) as [[a | e] w1]; intros Hk.
  - exists a, w1. split; [reflexivity | exact Hk].
  - discriminate.
Qed.

(** [output_ortho_netcdf] on a map that has its two coordinates: the
    object the reference points to gets the variable [rad], and that
    object is written. *)
Lemma output_ortho_netcdf_returns w abi_rad_values pixel_map out_filename
    d lonv latv :
  heap w !! pixel_map = Some d ->
  lookup_variable d "longitude" = Some lonv ->
  lookup_variable d "latitude" = Some latv ->
  exists w',
    output_ortho_netcdf abi_rad_values pixel_map out_filename w
    = (Return PyNone, w')
    /\ heap w' = <[pixel_map := with_rad d abi_rad_values]> (heap w)
    /\ files w'
       = <[out_filename := NetcdfFile (with_rad d abi_rad_values)]> (files w).
Proof.
  intros Hd Hlon Hlat.
  pose proof (lookup_lt_Some _ _ _ Hd) as Hlt.
  unfold output_ortho_netcdf, bind, print, emit, deref, getattr_array,
    setitem, to_netcdf, ret.
  cbn [files heap log]. rewrite Hd, Hlon, Hlat.
  unfold bind, deref. cbn [files heap log]. rewrite Hd.
  cbn [files heap log]. rewrite list_lookup_insert_eq by exact Hlt.
  eexists. split; [reflexivity |]. split; reflexivity.
Qed.

(** A run of [orthorectify_abi_rad] whose inputs are all there. *)
Lemma orthorectify_abi_rad_run w goes_filepath pixel_map out_filename
    img d h req rpol lon_0 vx vy angle_x angle_y vals lonv latv :
  files w !! goes_filepath = Some (GoesFile img) ->
  heap w !! pixel_map = Some d ->
  attrs d !! "satellite_height"%string = Some (AFloat h) ->
  attrs d !! "semi_major_axis"%string = Some (AFloat req) ->
  attrs d !! "semi_minor_axis"%string = Some (AFloat rpol) ->
  attrs d !! "longitude_of_projection_origin"%string = Some (AFloat lon_0) ->
  lookup_variable d "dem_px_angle_x" = Some vx ->
  values vx = Array2 angle_x ->
  lookup_variable d "dem_px_angle_y" = Some vy ->
  values vy = Array2 angle_y ->
  sel_nearest img angle_x angle_y = Return vals ->
  lookup_variable d "longitude" = Some lonv ->
  lookup_variable d "latitude" = Some latv ->
  let name :=
    match out_filename with
    | None => (dataset_name img ++ "_ortho.nc")%string
    | Some name => name
    end in
  exists w',
    orthorectify_abi_rad goes_filepath pixel_map out_filename w
    = (Return PyNone, w')
    /\ heap w' = <[pixel_map := with_rad d vals]> (heap w)
    /\ files w' = <[name := NetcdfFile (with_rad d vals)]> (files w).
Proof.
  intros Hg Hd Hh Hreq Hrpol Hlon0 Hvx Hax Hvy Hay Hsel Hlon Hlat name.
  unfold orthorectify_abi_rad, bind, print, print_values, emit, open_dataset,
    deref, getattr_float, getattr_array, as_grid, lift, ret.
  cbn [files heap log]. rewrite Hg. cbn [files heap log]. rewrite Hd.
  rewrite Hh, Hreq, Hrpol, Hlon0, Hvx, Hax, Hvy, Hay, Hsel.
  cbn [files heap log]. fold name.
  match goal with
  | |- context [output_ortho_netcdf ?v ?p ?n ?w0] =>
      destruct (output_ortho_netcdf_returns w0 v p n d lonv latv)
        as (w1 & Hrun & Hheap & Hfiles); [exact Hd | exact Hlon | exact Hlat |];
      rewrite Hrun
  end.
  eexists. split; [reflexivity |]. cbn [files heap].
  split; [exact Hheap | exact Hfiles].
Qed.

Lemma get_indexer_nearest_nan_inv index i :
  Forall not_nan index ->
  get_indexer_nearest index NaN = Return i ->
  i = nan_position index.
Proof.
  intros Hnn Hi.
  destruct (is_unique index) eqn:Hu;
    [| unfold get_indexer_nearest in Hi; rewrite Hu in Hi; discriminate].
  destruct index as [| s rest] eqn:E; [discriminate |].
  rewrite <- E in *.
  destruct (is_monotonic_increasing index || is_monotonic_decreasing index)
    eqn:Hm.
  - rewrite get_indexer_nearest_nan in Hi; [congruence | | assumption ..].
    rewrite E. discriminate.
  - unfold get_indexer_nearest in Hi. rewrite Hu, Hm in Hi. discriminate.
Qed.

(** What [sel_cell] gives for a NaN pair of labels. *)
Lemma sel_cell_nan img v :
  Forall not_nan (abi_x img) -> Forall not_nan (abi_y img) ->
  sel_cell img NaN NaN = Return v ->
  cell (Rad img) (nan_position (abi_y img)) (nan_position (abi_x img))
  = Some v.
Proof.
  intros Hx Hy. unfold sel_cell, cell.
  destruct (get_indexer_nearest (abi_x img) NaN) as [ix |] eqn:Ex;
    [| discriminate].
  destruct (get_indexer_nearest (abi_y img) NaN) as [iy |] eqn:Ey;
    [| discriminate].
  rewrite <- (get_indexer_nearest_nan_inv _ _ Hx Ex).
  rewrite <- (get_indexer_nearest_nan_inv _ _ Hy Ey).
  destruct (Rad img !! iy) as [row |]; [| discriminate].
  destruct (row !! ix) as [u |]; [| discriminate].
  congruence.
Qed.

(** The example image: its axes are increasing, and the cell with the NaN
    labels gets the last sample. *)
Lemma example_axis_not_nan : Forall not_nan [Fin 0; Fin 1].
Proof. repeat constructor; discriminate. Qed.

Lemma example_axis_increasing : is_monotonic_increasing [Fin 0; Fin 1] = true.
Proof.
  cbn [is_monotonic_increasing]. unfold Float.leb, Float.ltb.
  destruct (Rlt_dec 0 1) as [| Hn]; [reflexivity | exfalso; lra].
Qed.

Lemma example_axis_unique : is_unique [Fin 0; Fin 1] = true.
Proof.
  unfold is_unique, existsb, same_value, Float.eqb, Float.is_nan.
  destruct (Req_dec_T 0 1) as [E |]; [exfalso; lra | reflexivity].
Qed.

Lemma example_sel :
  sel_nearest example_image [[NaN]] [[NaN]] = Return [[Fin 40]].
Proof.
  unfold sel_nearest. cbn [zip_with]. unfold sel_cell.
  cbn [abi_x abi_y example_image].
  rewrite get_indexer_nearest_nan;
    [| discriminate | apply example_axis_not_nan | apply example_axis_unique
     | rewrite example_axis_increasing; reflexivity ].
  unfold nan_position. rewrite example_axis_increasing. reflexivity.
Qed.

Lemma example_run :
  exists w',
    orthorectify_abi_rad "goes.nc" 0%nat None example_world_with_map
    = (Return PyNone, w')
    /\ heap w' = [with_rad example_map [[Fin 40]]]
    /\ files w' !! "OR_ABI-L1b-RadC_ortho.nc"%string
       = Some (NetcdfFile (with_rad example_map [[Fin 40]])).
Proof.
  destruct (orthorectify_abi_rad_run example_world_with_map "goes.nc" 0%nat
              None example_image example_map
              (Fin 42164160) (Fin 6378137) (Fin 6356752.31414) (Fin (-75))
              (mk_variable ["y"; "x"]%string (Array2 [[NaN]]))
              (mk_variable ["y"; "x"]%string (Array2 [[NaN]]))
              [[NaN]] [[NaN]] [[Fin 40]]
              (mk_variable ["x"]%string (Array1 [Fin (-106)]))
              (mk_variable ["y"]%string (Array1 [Fin 39])))
    as (w' & Hrun & Hheap & Hfiles);
    try reflexivity; [apply example_sel |].
  exists w'. split; [exact Hrun |]. split; [exact Hheap |].
  rewrite Hfiles. apply lookup_insert_eq.
Qed.

(** ** The resampler and NaN scan angles *)

(** C1, as the program has it. [orthorectify_abi_rad] hands every pair of
    scan angles to the nearest-neighbour selection, NaN pairs included.  In
    a completed run the value written for a cell whose two scan angles are
    NaN is a sample of the radiance grid: the one at the last position of
    an increasing axis and at the first position of a decreasing one.  It
    is NaN only if that sample is. *)
Theorem orthorectify_abi_rad_nan_cell_takes_a_sample :
  forall w goes_filepath pixel_map out_filename img d h req rpol lon_0
         vx vy angle_x angle_y vals lonv latv i j,
    files w !! goes_filepath = Some (GoesFile img) ->
    heap w !! pixel_map = Some d ->
    attrs d !! "satellite_height"%string = Some (AFloat h) ->
    attrs d !! "semi_major_axis"%string = Some (AFloat req) ->
    attrs d !! "semi_minor_axis"%string = Some (AFloat rpol) ->
    attrs d !! "longitude_of_projection_origin"%string
    = Some (AFloat lon_0) ->
    lookup_variable d "dem_px_angle_x" = Some vx ->
    values vx = Array2 angle_x ->
    lookup_variable d "dem_px_angle_y" = Some vy ->
    values vy = Array2 angle_y ->
    sel_nearest img angle_x angle_y = Return vals ->
    lookup_variable d "longitude" = Some lonv ->
    lookup_variable d "latitude" = Some latv ->
    Forall not_nan (abi_x img) ->
    Forall not_nan (abi_y img) ->
    cell angle_x i j = Some NaN ->
    cell angle_y i j = Some NaN ->
    let name :=
      match out_filename with
      | None => (dataset_name img ++ "_ortho.nc")%string
      | Some name => name
      end in
    exists w',
      orthorectify_abi_rad goes_filepath pixel_map out_filename w
      = (Return PyNone, w')
      /\ files w' !! name = Some (NetcdfFile (with_rad d vals))
      /\ is_Some (cell vals i j)
      /\ cell vals i j
         = cell (Rad img) (nan_position (abi_y img))
             (nan_position (abi_x img)).
Proof.
  intros w gp pm out img d h req rpol lon_0 vx vy ax ay vals lonv latv i j
    Hg Hd Hh Hreq Hrpol Hlon0 Hvx Hax Hvy Hay Hsel Hlon Hlat Hnx Hny Hcx Hcy
    name.
  destruct (orthorectify_abi_rad_run w gp pm out img d h req rpol lon_0
              vx vy ax ay vals lonv latv
              Hg Hd Hh Hreq Hrpol Hlon0 Hvx Hax Hvy Hay Hsel Hlon Hlat)
    as (w' & Hrun & _ & Hfiles).
  destruct (sel_nearest_cell img ax ay vals i j NaN NaN Hsel Hcx Hcy)
    as (v & Hv & Hcell).
  exists w'. split; [exact Hrun |].
  split; [rewrite Hfiles; apply lookup_insert_eq |].
  split; [rewrite Hcell; eexists; reflexivity |].
  rewrite Hcell. symmetry. apply sel_cell_nan; assumption.
Qed.

Lemma orthorectify_abi_rad_nan_cell_takes_a_sample_witness :
  exists w',
    orthorectify_abi_rad "goes.nc" 0%nat None example_world_with_map
    = (Return PyNone, w')
    /\ files w' !! "OR_ABI-L1b-RadC_ortho.nc"%string
       = Some (NetcdfFile (with_rad example_map [[Fin 40]]))
    /\ is_Some (cell [[Fin 40]] 0 0)
    /\ cell [[Fin 40]] 0 0
       = cell (Rad example_image) (nan_position (abi_y example_image))
           (nan_position (abi_x example_image)).
Proof.
  refine (orthorectify_abi_rad_nan_cell_takes_a_sample
            example_world_with_map "goes.nc" 0%nat None example_image
            example_map
            (Fin 42164160) (Fin 6378137) (Fin 6356752.31414) (Fin (-75))
            (mk_variable ["y"; "x"]%string (Array2 [[NaN]]))
            (mk_variable ["y"; "x"]%string (Array2 [[NaN]]))
            [[NaN]] [[NaN]] [[Fin 40]]
            (mk_variable ["x"]%string (Array1 [Fin (-106)]))
            (mk_variable ["y"]%string (Array1 [Fin 39]))
            0%nat 0%nat _ _ _ _ _ _ _ _ _ _ _ _ _ _ _ _ _);
    try reflexivity;
    [apply example_sel | apply example_axis_not_nan
     | apply example_axis_not_nan].
Defined.

(** C1, as stated, fails: in the example the only cell of the ortho map has
    NaN for both scan angles, the run completes, and the radiance written
    for the cell is 40, the last sample of the image. *)
Lemma nan_scan_angles_get_a_radiance :
  coords example_map !! "dem_px_angle_x"%string
  = Some (mk_variable ["y"; "x"]%string (Array2 [[NaN]]))
  /\ coords example_map !! "dem_px_angle_y"%string
     = Some (mk_variable ["y"; "x"]%string (Array2 [[NaN]]))
  /\ exists w' d,
       orthorectify_abi_rad "goes.nc" 0%nat None example_world_with_map
       = (Return PyNone, w')
       /\ files w' !! "OR_ABI-L1b-RadC_ortho.nc"%string = Some (NetcdfFile d)
       /\ values <$> data_vars d !! "rad"%string = Some (Array2 [[Fin 40]])
       /\ Fin 40 <> NaN.
Proof.
  split; [reflexivity |]. split; [reflexivity |].
  destruct example_run as (w' & Hrun & _ & Hfile).
  exists w', (with_rad example_map [[Fin 40]]).
  split; [exact Hrun |]. split; [exact Hfile |].
  split; [reflexivity | discriminate].
Qed.

(** ** The ortho map is changed by the packaging step *)

(** C2 fails on the code: [output_ortho_netcdf] assigns the variable [rad]
    into the dataset its argument refers to.  After the call the caller's
    ortho map holds the radiances; it differs from the map passed in
    whenever that one had no such variable. *)
Theorem output_ortho_netcdf_mutates_pixel_map :
  forall w abi_rad_values pixel_map out_filename d lonv latv,
    heap w !! pixel_map = Some d ->
    lookup_variable d "longitude" = Some lonv ->
    lookup_variable d "latitude" = Some latv ->
    data_vars d !! "rad"%string = None ->
    exists w' d',
      output_ortho_netcdf abi_rad_values pixel_map out_filename w
      = (Return PyNone, w')
      /\ heap w' !! pixel_map = Some d'
      /\ values <$> data_vars d' !! "rad"%string
         = Some (Array2 abi_rad_values)
      /\ d' <> d.
Proof.
  intros w vals pm out d lonv latv Hd Hlon Hlat Hrad.
  destruct (output_ortho_netcdf_returns w vals pm out d lonv latv
              Hd Hlon Hlat) as (w' & Hrun & Hheap & _).
  exists w', (with_rad d vals).
  split; [exact Hrun |].
  split.
  { rewrite Hheap. apply list_lookup_insert_eq.
    exact (lookup_lt_Some _ _ _ Hd). }
  assert (Hnew : data_vars (with_rad d vals) !! "rad"%string
                 = Some {| dims := ["y"; "x"]%string;
                           values := Array2 vals;
                           var_attrs := {[ "rad"%string := AStr "units" ]} |}).
  { unfold with_rad. cbn [data_vars]. apply lookup_insert_eq. }
  split; [rewrite Hnew; reflexivity |].
  intros E. rewrite E in Hnew. congruence.
Qed.

Lemma output_ortho_netcdf_mutates_pixel_map_witness :
  heap example_world_with_map !! 0%nat = Some example_map
  /\ data_vars example_map !! "rad"%string = None
  /\ exists w' d',
       output_ortho_netcdf [[Fin 40]] 0%nat "out.nc" example_world_with_map
       = (Return PyNone, w')
       /\ heap w' !! 0%nat = Some d'
       /\ values <$> data_vars d' !! "rad"%string = Some (Array2 [[Fin 40]])
       /\ d' <> example_map.
Proof.
  split; [reflexivity |]. split; [reflexivity |].
  refine (output_ortho_netcdf_mutates_pixel_map example_world_with_map
            [[Fin 40]] 0%nat "out.nc" example_map
            (mk_variable ["x"]%string (Array1 [Fin (-106)]))
            (mk_variable ["y"]%string (Array1 [Fin 39])) _ _ _ _);
    reflexivity.
Defined.

(** ** What the entry points return *)

(** C3 fails on the code: every call of [orthorectify_abi_rad] that
    completes returns [None], not the orthorectified radiances. *)
Theorem orthorectify_abi_rad_returns_None :
  forall goes_filepath pixel_map out_filename w v w',
    orthorectify_abi_rad goes_filepath pixel_map out_filename w
    = (Return v, w') ->
    v = PyNone.
Proof.
  intros gp pm out w v w' Hrun. unfold orthorectify_abi_rad in Hrun.
  repeat match type of Hrun with
    | bind _ _ _ = (Return _, _) =>
        apply bind_returns in Hrun;
        destruct Hrun as (? & ? & _ & Hrun); cbv beta zeta in Hrun
    end.
  unfold ret in Hrun. congruence.
Qed.

Lemma orthorectify_abi_rad_returns_None_witness :
  exists v w',
    orthorectify_abi_rad "goes.nc" 0%nat None example_world_with_map
    = (Return v, w')
    /\ v = PyNone.
Proof.
  destruct example_run as (w' & Hrun & _).
  exists PyNone, w'. split; [exact Hrun |].
  exact (orthorectify_abi_rad_returns_None _ _ _ _ _ _ Hrun).
Defined.

(** C10. [orthorectify] returns [None] on every input and leaves the
    world as it was: nothing is read, printed or written.  The function
    that resamples, [orthorectify_abi_rad], takes a reference to a dataset
    in memory, and raises when there is no dataset behind the reference. *)
Theorem orthorectify_is_a_stub :
  (forall goes_filepath orth_map_filepath w,
      orthorectify goes_filepath orth_map_filepath w = (Return PyNone, w))
  /\ (forall goes_filepath pixel_map out_filename w,
         heap w !! pixel_map = None ->
         exists e w',
           orthorectify_abi_rad goes_filepath pixel_map out_filename w
           = (Raise e, w')).
Proof.
  split; [reflexivity |].
  intros gp pm out w Hnone.
  unfold orthorectify_abi_rad, bind, print, emit, open_dataset, deref.
  cbn [files heap log].
  destruct (files w !! gp) as [[img | dem | ds] |];
    cbn [files heap log]; try (do 2 eexists; reflexivity).
  rewrite Hnone. do 2 eexists. reflexivity.
Qed.

Lemma orthorectify_is_a_stub_witness :
  orthorectify "goes.nc" "map.nc" example_world
  = (Return PyNone, example_world)
  /\ heap example_world !! 0%nat = None
  /\ exists e w',
       orthorectify_abi_rad "goes.nc" 0%nat None example_world
       = (Raise e, w').
Proof.
  split; [exact (proj1 orthorectify_is_a_stub _ _ _) |].
  split; [reflexivity |].
  exact (proj2 orthorectify_is_a_stub "goes.nc"%string 0%nat None
           example_world eq_refl).
Defined.

(** The example DEM through [make_ortho_map]: its first cell is at sea
    level. *)
Lemma make_ortho_map_masks_nodata_and_zero_witness :
  files example_world !! "goes.nc"%string = Some (GoesFile example_image)
  /\ files example_world !! "dem.tif"%string = Some (DemFile example_dem)
  /\ nodatavals example_dem !! 0%nat = Some (Fin (-9999))
  /\ dem_values example_dem !! 0%nat = Some [[Fin 0; Fin 1500]]
  /\ exists l w' ds elevation angle_x angle_y,
       make_ortho_map "goes.nc" "dem.tif" None example_world
       = (Return (PyDataset l), w')
       /\ heap w' !! l = Some ds
       /\ data_vars ds !! "elevation"%string
          = Some (mk_variable ["y"; "x"]%string (Array2 elevation))
       /\ coords ds !! "dem_px_angle_x"%string
          = Some (mk_variable ["y"; "x"]%string (Array2 angle_x))
       /\ coords ds !! "dem_px_angle_y"%string
          = Some (mk_variable ["y"; "x"]%string (Array2 angle_y))
       /\ forall i j v lon lat,
            cell [[Fin 0; Fin 1500]] i j = Some v ->
            dem_x example_dem !! j = Some lon ->
            dem_y example_dem !! i = Some lat ->
            Float.eqb v (Fin (-9999)) = true \/ Float.eqb v (Fin 0) = true ->
            cell elevation i j = Some NaN
            /\ cell angle_x i j = Some NaN
            /\ cell angle_y i j = Some NaN.
Proof.
  split; [reflexivity |]. split; [reflexivity |].
  split; [reflexivity |]. split; [reflexivity |].
  exact (make_ortho_map_masks_nodata_and_zero example_world "goes.nc"
           "dem.tif" None example_image example_dem (Fin (-9999))
           [[Fin 0; Fin 1500]] eq_refl eq_refl eq_refl eq_refl).
Defined.

(** * Further properties of the code *)

(** ** Negation and the operations *)

Module FloatNeg.

Lemma signbit_opp a : a <> 0 -> Float.signbit (- a) = negb (Float.signbit a).
Proof.
  intros Ha. unfold Float.signbit.
  destruct (Rlt_dec (- a) 0), (Rlt_dec a 0); try reflexivity; exfalso; lra.
Qed.

Lemma neg_neg x : (- - x)%fl = x.
Proof.
  destruct x as [r | s |]; cbn; [| rewrite negb_involutive |]; try reflexivity.
  apply FloatFacts.fin_eq. ring.
Qed.

Lemma mul_neg_l x y : (- x * y)%fl = (- (x * y))%fl.
Proof.
  destruct x as [a | s |], y as [b | t |]; cbn; try reflexivity.
  - apply FloatFacts.fin_eq. ring.
  - destruct (Req_dec_T (- a) 0), (Req_dec_T a 0); try reflexivity;
      try (exfalso; lra).
    cbn. rewrite signbit_opp by assumption.
    destruct t, (Float.signbit a); reflexivity.
  - destruct (Req_dec_T b 0); [reflexivity |]. cbn.
    destruct s, (Float.signbit b); reflexivity.
  - destruct s, t; reflexivity.
Qed.

Lemma mul_neg_r x y : (x * - y)%fl = (- (x * y))%fl.
Proof.
  destruct x as [a | s |], y as [b | t |]; cbn; try reflexivity.
  - apply FloatFacts.fin_eq. ring.
  - destruct (Req_dec_T a 0); [reflexivity |]. cbn.
    destruct t, (Float.signbit a); reflexivity.
  - destruct (Req_dec_T (- b) 0), (Req_dec_T b 0); try reflexivity;
      try (exfalso; lra).
    cbn. rewrite signbit_opp by assumption.
    destruct s, (Float.signbit b); reflexivity.
  - destruct s, t; reflexivity.
Qed.

Lemma sq_neg x : Float.sq (- x) = Float.sq x.
Proof.
  unfold Float.sq. rewrite mul_neg_l, mul_neg_r. apply neg_neg.
Qed.

Lemma div_neg_l x y : (- x / y)%fl = (- (x / y))%fl.
Proof.
  destruct x as [a | s |], y as [b | t |]; cbn; try reflexivity.
  - destruct (Req_dec_T b 0).
    + destruct (Req_dec_T (- a) 0), (Req_dec_T a 0); try reflexivity;
        try (exfalso; lra).
      cbn. rewrite signbit_opp by assumption. reflexivity.
    + cbn. apply FloatFacts.fin_eq. field. assumption.
  - apply FloatFacts.fin_eq. ring.
  - destruct s, (Float.signbit b); reflexivity.
Qed.

Lemma sin_neg x : Float.sin (- x) = (- Float.sin x)%fl.
Proof.
  destruct x as [r | s |]; cbn; try reflexivity.
  apply FloatFacts.fin_eq, Rtrigo1.sin_neg.
Qed.

Lemma cos_neg x : Float.cos (- x) = Float.cos x.
Proof.
  destruct x as [r | s |]; cbn; try reflexivity.
  apply FloatFacts.fin_eq, Rtrigo1.cos_neg.
Qed.

Lemma tan_neg x : Float.tan (- x) = (- Float.tan x)%fl.
Proof. unfold Float.tan. rewrite sin_neg, cos_neg. apply div_neg_l. Qed.

Lemma arctan_neg x : Float.arctan (- x) = (- Float.arctan x)%fl.
Proof.
  destruct x as [r | [] |]; cbn; try reflexivity.
  - apply FloatFacts.fin_eq, atan_opp.
  - apply FloatFacts.fin_eq. ring.
Qed.

Lemma arcsin_neg x : Float.arcsin (- x) = (- Float.arcsin x)%fl.
Proof.
  destruct x as [r | s |]; cbn; try reflexivity.
  destruct (Rlt_dec (- r) (-1)), (Rlt_dec r (-1)), (Rlt_dec 1 (- r)),
    (Rlt_dec 1 r); try reflexivity; try (exfalso; lra).
  cbn. apply FloatFacts.fin_eq, asin_opp.
Qed.

Lemma radians_neg x : Float.radians (- x) = (- Float.radians x)%fl.
Proof. unfold Float.radians. apply mul_neg_l. Qed.

End FloatNeg.

(** ** Symmetries and ranges of the two transforms *)

(** X1. Mirroring the latitude mirrors the scan angle [y] and leaves [x]
    as it is, for all arguments. *)
Theorem LonLat2ABIangle_mirror_latitude :
  forall lon lat z H req rpol e lon_0 : float64,
    LonLat2ABIangle lon (- lat)%fl z H req rpol e lon_0
    = ((LonLat2ABIangle lon lat z H req rpol e lon_0).1,
       (- (LonLat2ABIangle lon lat z H req rpol e lon_0).2)%fl).
Proof.
  intros. unfold LonLat2ABIangle, sat_frame, geocentric_dist, geocentric_lat.
  rewrite FloatNeg.radians_neg, FloatNeg.tan_neg, FloatNeg.mul_neg_r,
    FloatNeg.arctan_neg, FloatNeg.cos_neg, FloatNeg.sin_neg,
    FloatNeg.mul_neg_r.
  cbn [fst snd]. rewrite FloatNeg.sq_neg.
  match goal with
  | |- context [Float.arctan (- ?a / ?b)%fl] =>
      rewrite (FloatNeg.div_neg_l a b), FloatNeg.arctan_neg
  end.
  reflexivity.
Qed.

(** X2. Mirroring the longitude about the projection origin mirrors the
    scan angle [x] and leaves [y] as it is. *)
Theorem LonLat2ABIangle_mirror_longitude :
  forall (lon lon_0 : R) (lat z H req rpol e : float64),
    LonLat2ABIangle (Fin (2 * lon_0 - lon)) lat z H req rpol e (Fin lon_0)
    = ((- (LonLat2ABIangle (Fin lon) lat z H req rpol e (Fin lon_0)).1)%fl,
       (LonLat2ABIangle (Fin lon) lat z H req rpol e (Fin lon_0)).2).
Proof.
  intros. unfold LonLat2ABIangle, sat_frame.
  assert (E : (Float.radians (Fin (2 * lon_0 - lon))
               - Float.radians (Fin lon_0))%fl
              = (- (Float.radians (Fin lon) - Float.radians (Fin lon_0)))%fl).
  { autorewrite with fin. apply FloatFacts.fin_eq. ring. }
  rewrite E, FloatNeg.cos_neg, FloatNeg.sin_neg, FloatNeg.mul_neg_r.
  cbn [fst snd]. rewrite FloatNeg.sq_neg.
  match goal with
  | |- context [Float.arcsin (- - ?a / ?b)%fl] =>
      rewrite (FloatNeg.div_neg_l (- a)%fl b), FloatNeg.arcsin_neg
  end.
  reflexivity.
Qed.

(** X3. Only the difference between the longitude and the projection
    origin matters: moving both by the same amount changes nothing. *)
Theorem LonLat2ABIangle_longitude_shift :
  forall (lon lon_0 t : R) (lat z H req rpol e : float64),
    LonLat2ABIangle (Fin (lon + t)) lat z H req rpol e (Fin (lon_0 + t))
    = LonLat2ABIangle (Fin lon) lat z H req rpol e (Fin lon_0).
Proof.
  intros. unfold LonLat2ABIangle, sat_frame.
  assert (E : (Float.radians (Fin (lon + t))
               - Float.radians (Fin (lon_0 + t)))%fl
              = (Float.radians (Fin lon) - Float.radians (Fin lon_0))%fl).
  { autorewrite with fin. apply FloatFacts.fin_eq. ring. }
  rewrite E. reflexivity.
Qed.

Lemma arctan_range x : nan_or_within (- (PI / 2)) (PI / 2) (Float.arctan x).
Proof.
  pose proof PI_RGT_0.
  destruct x as [r | [] |]; cbn; [| | | left; reflexivity];
    right; eexists; (split; [reflexivity |]); try lra.
  pose proof (atan_bound r). lra.
Qed.

Lemma arcsin_range x : nan_or_within (- (PI / 2)) (PI / 2) (Float.arcsin x).
Proof.
  destruct x as [r | s |]; cbn; try (left; reflexivity).
  destruct (Rlt_dec r (-1)); [left; reflexivity |].
  destruct (Rlt_dec 1 r); [left; reflexivity |].
  right. eexists. split; [reflexivity | apply asin_bound].
Qed.

Lemma degrees_range x :
  nan_or_within (- (PI / 2)) (PI / 2) x ->
  nan_or_within (-90) 90 (Float.degrees x).
Proof.
  pose proof PI_RGT_0 as Hpi.
  intros [-> | (v & -> & Hv)]; [left; reflexivity |].
  right. exists (v * (180 / PI)). split; [reflexivity |].
  assert (E : PI / 2 * (180 / PI) = 90) by (field; lra).
  assert (Hk : 0 < 180 / PI) by (apply Rdiv_lt_0_compat; lra).
  set (k := 180 / PI) in *. set (h := PI / 2) in *.
  pose proof (Rmult_le_compat_r k _ _ (Rlt_le _ _ Hk) (proj1 Hv)).
  pose proof (Rmult_le_compat_r k _ _ (Rlt_le _ _ Hk) (proj2 Hv)).
  lra.
Qed.

(** X4. Whatever the arguments, each scan angle that [LonLat2ABIangle]
    returns is NaN or a finite angle between minus and plus a quarter
    turn; it is never an infinity. *)
Theorem LonLat2ABIangle_range :
  forall lon lat z H req rpol e lon_0 : float64,
    nan_or_within (- (PI / 2)) (PI / 2)
      (LonLat2ABIangle lon lat z H req rpol e lon_0).1
    /\ nan_or_within (- (PI / 2)) (PI / 2)
         (LonLat2ABIangle lon lat z H req rpol e lon_0).2.
Proof.
  intros. unfold LonLat2ABIangle.
  destruct (sat_frame lon lat z H req rpol e lon_0) as [[Sx Sy] Sz].
  cbn [fst snd]. split; [apply arcsin_range | apply arctan_range].
Qed.

(** X5. Whatever the scan angles and the ellipsoid, the latitude that
    [ABIangle2LonLat] returns is NaN or within 90 degrees of the equator,
    and the longitude is NaN or within 90 degrees of the projection
    origin. *)
Theorem ABIangle2LonLat_range :
  forall (x y H req rpol : float64) (lon_0 : R),
    nan_or_within (lon_0 - 90) (lon_0 + 90)
      (ABIangle2LonLat x y H req rpol (Fin lon_0)).1
    /\ nan_or_within (-90) 90 (ABIangle2LonLat x y H req rpol (Fin lon_0)).2.
Proof.
  intros. unfold ABIangle2LonLat. cbn [fst snd]. split.
  - match goal with
    | |- nan_or_within _ _ (Fin lon_0 - Float.degrees (Float.arctan ?q))%fl =>
        destruct (degrees_range _ (arctan_range q)) as [-> | (v & -> & Hv)]
    end.
    + left. reflexivity.
    + right. exists (lon_0 - v). split; [reflexivity | lra].
  - apply degrees_range, arctan_range.
Qed.

(** ** NaN arguments *)

Ltac nan_through :=
  repeat (progress (autorewrite with nan;
                    cbn [Float.radians Float.degrees Float.tan Float.sin
                         Float.cos Float.arctan Float.arcsin Float.sqrt
                         Float.sq Float.neg Float.mul Float.div])).

(** X6. If any argument of [LonLat2ABIangle] is NaN, both scan angles are
    NaN. *)
Theorem LonLat2ABIangle_nan_argument :
  forall lon lat z H req rpol e lon_0 : float64,
    lon = NaN \/ lat = NaN \/ z = NaN \/ H = NaN \/ req = NaN \/ rpol = NaN
    \/ e = NaN \/ lon_0 = NaN ->
    LonLat2ABIangle lon lat z H req rpol e lon_0 = (NaN, NaN).
Proof.
  intros lon lat z H req rpol e lon_0 Hnan.
  unfold LonLat2ABIangle, sat_frame, geocentric_dist, geocentric_lat.
  decompose [or] Hnan; subst; nan_through; reflexivity.
Qed.

Lemma LonLat2ABIangle_nan_argument_witness :
  (Fin (-105) = NaN \/ NaN = NaN \/ Fin 1500 = NaN \/ Fin 42164160 = NaN
   \/ Fin 6378137 = NaN \/ Fin 6356752.31414 = NaN
   \/ Fin 0.0818191910435 = NaN \/ Fin (-75) = NaN)
  /\ LonLat2ABIangle (Fin (-105)) NaN (Fin 1500) (Fin 42164160)
       (Fin 6378137) (Fin 6356752.31414) (Fin 0.0818191910435) (Fin (-75))
     = (NaN, NaN).
Proof.
  assert (Hn : Fin (-105) = NaN \/ NaN = NaN \/ Fin 1500 = NaN
               \/ Fin 42164160 = NaN \/ Fin 6378137 = NaN
               \/ Fin 6356752.31414 = NaN \/ Fin 0.0818191910435 = NaN
               \/ Fin (-75) = NaN) by (right; left; reflexivity).
  split; [exact Hn |].
  exact (LonLat2ABIangle_nan_argument _ _ _ _ _ _ _ _ Hn).
Defined.

(** X7. If a scan angle, the satellite distance or an axis of the
    ellipsoid is NaN, [ABIangle2LonLat] returns NaN for the longitude and
    the latitude. *)
Theorem ABIangle2LonLat_nan_argument :
  forall x y H req rpol lon_0 : float64,
    x = NaN \/ y = NaN \/ H = NaN \/ req = NaN \/ rpol = NaN ->
    ABIangle2LonLat x y H req rpol lon_0 = (NaN, NaN).
Proof.
  intros x y H req rpol lon_0 Hnan.
  unfold ABIangle2LonLat, quad_a, quad_b, quad_c.
  decompose [or] Hnan; subst; nan_through; reflexivity.
Qed.

Lemma ABIangle2LonLat_nan_argument_witness :
  (NaN = NaN \/ Fin 0 = NaN \/ Fin 42164160 = NaN \/ Fin 6378137 = NaN
   \/ Fin 6356752.31414 = NaN)
  /\ ABIangle2LonLat NaN (Fin 0) (Fin 42164160) (Fin 6378137)
       (Fin 6356752.31414) (Fin (-75))
     = (NaN, NaN).
Proof.
  assert (Hn : NaN = NaN \/ Fin 0 = NaN \/ Fin 42164160 = NaN
               \/ Fin 6378137 = NaN \/ Fin 6356752.31414 = NaN)
    by (left; reflexivity).
  split; [exact Hn |].
  exact (ABIangle2LonLat_nan_argument _ _ _ _ _ (Fin (-75)) Hn).
Defined.



(** ** The ortho-map builder *)

Lemma has_shape_lookup rows cols (g : grid) :
  has_shape rows cols g <->
  length g = rows /\ forall i row, g !! i = Some row -> length row = cols.
Proof.
  unfold has_shape. rewrite Forall_lookup. reflexivity.
Qed.

Lemma has_shape_grid_map f rows cols (g : grid) :
  has_shape rows cols g -> has_shape rows cols (grid_map f g).
Proof.
  rewrite !has_shape_lookup. intros [Hl Hr]. unfold grid_map. split.
  - rewrite length_fmap. exact Hl.
  - intros i row Hi. rewrite list_lookup_fmap in Hi.
    destruct (g !! i) as [r |] eqn:E; [| discriminate].
    injection Hi as <-. rewrite length_fmap. eapply Hr, E.
Qed.

Lemma has_shape_meshgrid xs ys :
  has_shape (length ys) (length xs) (meshgrid xs ys).1
  /\ has_shape (length ys) (length xs) (meshgrid xs ys).2.
Proof.
  unfold meshgrid. cbn [fst snd]. rewrite !has_shape_lookup.
  split; (split; [apply length_fmap |]); intros i row Hi;
    rewrite list_lookup_fmap in Hi;
    destruct (ys !! i); try discriminate; injection Hi as <-;
    [reflexivity | apply length_fmap].
Qed.

Lemma length_zip3_with {A B C D} (f : A -> B -> C -> D) la lb lc n :
  length la = n -> length lb = n -> length lc = n ->
  length (zip3_with f la lb lc) = n.
Proof.
  intros Ha Hb Hc. unfold zip3_with.
  rewrite length_zip_with, length_zip_with. lia.
Qed.

Lemma lookup_zip3_with_Some {A B C D} (f : A -> B -> C -> D) la lb lc i d :
  zip3_with f la lb lc !! i = Some d ->
  exists a b c,
    la !! i = Some a /\ lb !! i = Some b /\ lc !! i = Some c /\ d = f a b c.
Proof.
  unfold zip3_with. intros Hd.
  apply lookup_zip_with_Some in Hd as ([a b] & c & -> & Hab & Hc).
  apply lookup_zip_with_Some in Hab as (a' & b' & E & Ha & Hb).
  injection E as -> ->. exists a', b', c. repeat split; assumption.
Qed.

Lemma has_shape_LonLat2ABIangle_grid X Y Z H req rpol e lon_0 rows cols :
  has_shape rows cols X -> has_shape rows cols Y -> has_shape rows cols Z ->
  has_shape rows cols (LonLat2ABIangle_grid X Y Z H req rpol e lon_0).1
  /\ has_shape rows cols (LonLat2ABIangle_grid X Y Z H req rpol e lon_0).2.
Proof.
  rewrite !has_shape_lookup. intros [HX HXr] [HY HYr] [HZ HZr].
  unfold LonLat2ABIangle_grid. cbn [fst snd].
  split; (split; [rewrite length_fmap; apply length_zip3_with; assumption |]);
    intros i row Hi; rewrite list_lookup_fmap in Hi;
    match type of Hi with
    | _ <$> ?o = _ => destruct o as [r |] eqn:E; [| discriminate]
    end;
    injection Hi as <-; rewrite length_fmap;
    apply lookup_zip3_with_Some in E as (a & b & c & Ha & Hb & Hc & ->);
    apply length_zip3_with; eauto.
Qed.

(** The state after a run of [make_ortho_map] on readable inputs. *)
Lemma make_ortho_map_run w goes_filepath dem_filepath out_filepath
    img dem nodata band :
  files w !! goes_filepath = Some (GoesFile img) ->
  files w !! dem_filepath = Some (DemFile dem) ->
  nodatavals dem !! 0%nat = Some nodata ->
  dem_values dem !! 0%nat = Some band ->
  let ds := ortho_map_dataset img dem_filepath dem
              (grid_map mask_zero (grid_map (mask_nodata nodata) band)) in
  exists w',
    make_ortho_map goes_filepath dem_filepath out_filepath w
    = (Return (PyDataset (length (heap w))), w')
    /\ heap w' = heap w ++ [ds]
    /\ files w'
       = match out_filepath with
         | Some path => <[path := NetcdfFile ds]> (files w)
         | None => files w
         end.
Proof.
  intros Hg Hd Hn Hb ds. subst ds.
  unfold make_ortho_map, bind, print, emit, open_dataset, open_rasterio,
    alloc, to_netcdf, deref, ret.
  cbn [files heap log]. rewrite Hg. cbn [files heap log]. rewrite Hd.
  rewrite (load_dem_cell _ _ _ _ Hn Hb). cbn [files heap log].
  assert (Hl : forall d : Dataset,
             (heap w ++ [d]) !! length (heap w) = Some d).
  { intros d. rewrite lookup_app_r by lia.
    replace (length (heap w) - length (heap w))%nat with 0%nat by lia.
    reflexivity. }
  destruct out_filepath as [path |]; cbn [files heap log].
  - unfold bind, deref. cbn [files heap log]. rewrite Hl.
    eexists. split; [reflexivity |]. split; reflexivity.
  - eexists. split; [reflexivity |]. split; reflexivity.
Qed.

(** X9. Every cell of the ortho map that [make_ortho_map] returns is the
    scalar transform of that cell: with [z] the elevation after the two
    masks, the map holds [z] and the two angles of
    [LonLat2ABIangle(lon, lat, z, H, req, rpol, e, lon_0)], where
    [H = perspective_point_height + semi_major_axis] and [e] is the fixed
    GRS-80 eccentricity.  An elevation that is neither the no-data value
    nor zero is kept as it is. *)
Theorem make_ortho_map_cell :
  forall w goes_filepath dem_filepath out_filepath img dem nodata band
         i j v lon lat,
    files w !! goes_filepath = Some (GoesFile img) ->
    files w !! dem_filepath = Some (DemFile dem) ->
    nodatavals dem !! 0%nat = Some nodata ->
    dem_values dem !! 0%nat = Some band ->
    cell band i j = Some v ->
    dem_x dem !! j = Some lon ->
    dem_y dem !! i = Some lat ->
    let proj := projection img in
    let H := (perspective_point_height proj + semi_major_axis proj)%fl in
    let z := mask_zero (mask_nodata nodata v) in
    let xy := LonLat2ABIangle lon lat z H (semi_major_axis proj)
                (semi_minor_axis proj) (Fin 0.0818191910435)
                (longitude_of_projection_origin proj) in
    exists l w' ds elevation angle_x angle_y,
      make_ortho_map goes_filepath dem_filepath out_filepath w
      = (Return (PyDataset l), w')
      /\ heap w' !! l = Some ds
      /\ values <$> data_vars ds !! "elevation"%string
         = Some (Array2 elevation)
      /\ values <$> coords ds !! "dem_px_angle_x"%string
         = Some (Array2 angle_x)
      /\ values <$> coords ds !! "dem_px_angle_y"%string
         = Some (Array2 angle_y)
      /\ cell elevation i j = Some z
      /\ cell angle_x i j = Some xy.1
      /\ cell angle_y i j = Some xy.2
      /\ (Float.neb v nodata = true -> Float.neb v (Fin 0) = true -> z = v).
Proof.
  intros w gp dp op img dem nodata band i j v lon lat Hg Hd Hn Hb Hv Hx Hy
    proj H z xy.
  destruct (make_ortho_map_run w gp dp op img dem nodata band Hg Hd Hn Hb)
    as (w' & Hrun & Hheap & _).
  set (Z := grid_map mask_zero (grid_map (mask_nodata nodata) band)) in *.
  set (r := LonLat2ABIangle_grid (meshgrid (dem_x dem) (dem_y dem)).1
              (meshgrid (dem_x dem) (dem_y dem)).2 Z H
              (semi_major_axis proj) (semi_minor_axis proj)
              grs80_eccentricity (longitude_of_projection_origin proj)).
  exists (length (heap w)), w', (ortho_map_dataset img dp dem Z), Z, r.1, r.2.
  split; [exact Hrun |].
  split.
  { rewrite Hheap, lookup_app_r by lia.
    replace (length (heap w) - length (heap w))%nat with 0%nat by lia.
    reflexivity. }
  split; [reflexivity |]. split; [reflexivity |]. split; [reflexivity |].
  assert (HZ : cell Z i j = Some z).
  { unfold Z. rewrite !cell_grid_map, Hv. reflexivity. }
  destruct (meshgrid_cell (dem_x dem) (dem_y dem) i j lon lat Hy Hx)
    as [HX HY].
  destruct (LonLat2ABIangle_grid_cell _ _ _ H (semi_major_axis proj)
              (semi_minor_axis proj) grs80_eccentricity
              (longitude_of_projection_origin proj) i j _ _ _ HX HY HZ)
    as [Hrx Hry].
  split; [exact HZ |]. split; [exact Hrx |]. split; [exact Hry |].
  intros N1 N2. unfold z, mask_zero, mask_nodata, where_.
  rewrite N1, N2. reflexivity.
Qed.

Lemma example_cell_not_masked :
  Float.neb (Fin 1500) (Fin (-9999)) = true
  /\ Float.neb (Fin 1500) (Fin 0) = true.
Proof.
  unfold Float.neb, Float.eqb.
  destruct (Req_dec_T 1500 (-9999)); [exfalso; lra |].
  destruct (Req_dec_T 1500 0); [exfalso; lra |].
  split; reflexivity.
Qed.

Lemma make_ortho_map_cell_witness :
  exists l w' ds elevation angle_x angle_y,
    make_ortho_map "goes.nc" "dem.tif" None example_world
    = (Return (PyDataset l), w')
    /\ heap w' !! l = Some ds
    /\ values <$> data_vars ds !! "elevation"%string = Some (Array2 elevation)
    /\ values <$> coords ds !! "dem_px_angle_x"%string
       = Some (Array2 angle_x)
    /\ values <$> coords ds !! "dem_px_angle_y"%string
       = Some (Array2 angle_y)
    /\ cell elevation 0 1 = Some (Fin 1500)
    /\ cell angle_x 0 1
       = Some (LonLat2ABIangle (Fin (-105)) (Fin 39) (Fin 1500)
                 (Fin 35786023 + Fin 6378137)%fl (Fin 6378137)
                 (Fin 6356752.31414) (Fin 0.0818191910435) (Fin (-75))).1
    /\ cell angle_y 0 1
       = Some (LonLat2ABIangle (Fin (-105)) (Fin 39) (Fin 1500)
                 (Fin 35786023 + Fin 6378137)%fl (Fin 6378137)
                 (Fin 6356752.31414) (Fin 0.0818191910435) (Fin (-75))).2.
Proof.
  destruct (make_ortho_map_cell example_world "goes.nc" "dem.tif" None
              example_image example_dem (Fin (-9999)) [[Fin 0; Fin 1500]]
              0%nat 1%nat (Fin 1500) (Fin (-105)) (Fin 39)
              eq_refl eq_refl eq_refl eq_refl eq_refl eq_refl eq_refl)
    as (l & w' & ds & el & ax & ay & Hrun & Hh & He & Hax & Hay & Hz & Hcx
        & Hcy & Hkeep).
  destruct example_cell_not_masked as [N1 N2].
  rewrite (Hkeep N1 N2) in Hz, Hcx, Hcy.
  exists l, w', ds, el, ax, ay. repeat split; assumption.
Defined.

(** X10. The grids of the ortho map have the shape of the DEM: when the
    first band has one row for each [y] coordinate and one cell for each
    [x] coordinate, so have the elevation and the two scan-angle grids. *)
Theorem make_ortho_map_shape :
  forall w goes_filepath dem_filepath out_filepath img dem nodata band,
    files w !! goes_filepath = Some (GoesFile img) ->
    files w !! dem_filepath = Some (DemFile dem) ->
    nodatavals dem !! 0%nat = Some nodata ->
    dem_values dem !! 0%nat = Some band ->
    has_shape (length (dem_y dem)) (length (dem_x dem)) band ->
    exists l w' ds elevation angle_x angle_y,
      make_ortho_map goes_filepath dem_filepath out_filepath w
      = (Return (PyDataset l), w')
      /\ heap w' !! l = Some ds
      /\ values <$> data_vars ds !! "elevation"%string
         = Some (Array2 elevation)
      /\ values <$> coords ds !! "dem_px_angle_x"%string
         = Some (Array2 angle_x)
      /\ values <$> coords ds !! "dem_px_angle_y"%string
         = Some (Array2 angle_y)
      /\ has_shape (length (dem_y dem)) (length (dem_x dem)) elevation
      /\ has_shape (length (dem_y dem)) (length (dem_x dem)) angle_x
      /\ has_shape (length (dem_y dem)) (length (dem_x dem)) angle_y.
Proof.
  intros w gp dp op img dem nodata band Hg Hd Hn Hb Hshape.
  destruct (make_ortho_map_run w gp dp op img dem nodata band Hg Hd Hn Hb)
    as (w' & Hrun & Hheap & _).
  set (Z := grid_map mask_zero (grid_map (mask_nodata nodata) band)) in *.
  set (proj := projection img).
  set (r := LonLat2ABIangle_grid (meshgrid (dem_x dem) (dem_y dem)).1
              (meshgrid (dem_x dem) (dem_y dem)).2 Z
              (perspective_point_height proj + semi_major_axis proj)%fl
              (semi_major_axis proj) (semi_minor_axis proj)
              grs80_eccentricity (longitude_of_projection_origin proj)).
  exists (length (heap w)), w', (ortho_map_dataset img dp dem Z), Z, r.1, r.2.
  split; [exact Hrun |].
  split.
  { rewrite Hheap, lookup_app_r by lia.
    replace (length (heap w) - length (heap w))%nat with 0%nat by lia.
    reflexivity. }
  split; [reflexivity |]. split; [reflexivity |]. split; [reflexivity |].
  assert (HZ : has_shape (length (dem_y dem)) (length (dem_x dem)) Z)
    by (unfold Z; do 2 apply has_shape_grid_map; exact Hshape).
  destruct (has_shape_meshgrid (dem_x dem) (dem_y dem)) as [HX HY].
  split; [exact HZ |].
  apply has_shape_LonLat2ABIangle_grid; assumption.
Qed.

Lemma make_ortho_map_shape_witness :
  has_shape (length (dem_y example_dem)) (length (dem_x example_dem))
    [[Fin 0; Fin 1500]]
  /\ exists l w' ds elevation angle_x angle_y,
       make_ortho_map "goes.nc" "dem.tif" None example_world
       = (Return (PyDataset l), w')
       /\ heap w' !! l = Some ds
       /\ values <$> data_vars ds !! "elevation"%string
          = Some (Array2 elevation)
       /\ values <$> coords ds !! "dem_px_angle_x"%string
          = Some (Array2 angle_x)
       /\ values <$> coords ds !! "dem_px_angle_y"%string
          = Some (Array2 angle_y)
       /\ has_shape 1 2 elevation
       /\ has_shape 1 2 angle_x
       /\ has_shape 1 2 angle_y.
Proof.
  assert (Hs : has_shape (length (dem_y example_dem))
                 (length (dem_x example_dem)) [[Fin 0; Fin 1500]])
    by (split; [reflexivity | repeat constructor]).
  split; [exact Hs |].
  exact (make_ortho_map_shape example_world "goes.nc" "dem.tif" None
           example_image example_dem (Fin (-9999)) [[Fin 0; Fin 1500]]
           eq_refl eq_refl eq_refl eq_refl Hs).
Defined.

Lemma load_dem_world dem w : (load_dem dem w).2 = w.
Proof.
  unfold load_dem, bind, of_option, ret, raise.
  destruct (nodatavals dem !! 0%nat); [| reflexivity].
  match goal with
  | |- context [of_option ?o] => destruct o
  | |- context [match ?o with Some _ => _ | None => _ end] => destruct o
  end; reflexivity.
Qed.





(** X13. The ortho map returned is the same with and without an output
    path.  With a path, the file at that path holds the map and no other
    file changes; without one, no file changes at all. *)
Theorem make_ortho_map_output_file :
  forall w goes_filepath dem_filepath path img dem nodata band,
    files w !! goes_filepath = Some (GoesFile img) ->
    files w !! dem_filepath = Some (DemFile dem) ->
    nodatavals dem !! 0%nat = Some nodata ->
    dem_values dem !! 0%nat = Some band ->
    exists l ds w1 w2,
      make_ortho_map goes_filepath dem_filepath None w
      = (Return (PyDataset l), w1)
      /\ make_ortho_map goes_filepath dem_filepath (Some path) w
         = (Return (PyDataset l), w2)
      /\ heap w1 !! l = Some ds /\ heap w2 !! l = Some ds
      /\ files w1 = files w
      /\ files w2 !! path = Some (NetcdfFile ds)
      /\ forall other, other <> path -> files w2 !! other = files w !! other.
Proof.
  intros w gp dp path img dem nodata band Hg Hd Hn Hb.
  destruct (make_ortho_map_run w gp dp None img dem nodata band Hg Hd Hn Hb)
    as (w1 & Hrun1 & Hheap1 & Hfiles1).
  destruct (make_ortho_map_run w gp dp (Some path) img dem nodata band
              Hg Hd Hn Hb) as (w2 & Hrun2 & Hheap2 & Hfiles2).
  assert (Hl : forall d : Dataset,
             (heap w ++ [d]) !! length (heap w) = Some d).
  { intros d. rewrite lookup_app_r by lia.
    replace (length (heap w) - length (heap w))%nat with 0%nat by lia.
    reflexivity. }
  eexists (length (heap w)), _, w1, w2.
  split; [exact Hrun1 |]. split; [exact Hrun2 |].
  split; [rewrite Hheap1; apply Hl |].
  split; [rewrite Hheap2; apply Hl |].
  split; [exact Hfiles1 |].
  split; [rewrite Hfiles2; apply lookup_insert_eq |].
  intros other Hne. rewrite Hfiles2. apply lookup_insert_ne. congruence.
Qed.

Lemma make_ortho_map_output_file_witness :
  exists l ds w1 w2,
    make_ortho_map "goes.nc" "dem.tif" None example_world
    = (Return (PyDataset l), w1)
    /\ make_ortho_map "goes.nc" "dem.tif" (Some "map.nc"%string) example_world
       = (Return (PyDataset l), w2)
    /\ heap w1 !! l = Some ds /\ heap w2 !! l = Some ds
    /\ files w1 = files example_world
    /\ files w2 !! "map.nc"%string = Some (NetcdfFile ds)
    /\ forall other,
         other <> "map.nc"%string ->
         files w2 !! other = files example_world !! other.
Proof.
  exact (make_ortho_map_output_file example_world "goes.nc" "dem.tif"
           "map.nc" example_image example_dem (Fin (-9999))
           [[Fin 0; Fin 1500]] eq_refl eq_refl eq_refl eq_refl).
Defined.

(** X14. The two stages compose: on the world [make_ortho_map] leaves, a
    call of [orthorectify_abi_rad] with the map it returned and any
    readable image finds every attribute and coordinate it reads, and
    completes whenever the selection on the map's scan angles does.  The
    file written holds the map with the radiances added. *)
Theorem make_ortho_map_then_orthorectify_abi_rad :
  forall w goes_filepath dem_filepath img dem nodata band
         image_filepath img2 out_filename vals,
    files w !! goes_filepath = Some (GoesFile img) ->
    files w !! dem_filepath = Some (DemFile dem) ->
    nodatavals dem !! 0%nat = Some nodata ->
    dem_values dem !! 0%nat = Some band ->
    files w !! image_filepath = Some (GoesFile img2) ->
    let elevation := grid_map mask_zero (grid_map (mask_nodata nodata) band) in
    let ds := ortho_map_dataset img dem_filepath dem elevation in
    let proj := projection img in
    let angles :=
      LonLat2ABIangle_grid (meshgrid (dem_x dem) (dem_y dem)).1
        (meshgrid (dem_x dem) (dem_y dem)).2 elevation
        (perspective_point_height proj + semi_major_axis proj)%fl
        (semi_major_axis proj) (semi_minor_axis proj) grs80_eccentricity
        (longitude_of_projection_origin proj) in
    sel_nearest img2 angles.1 angles.2 = Return vals ->
    let name :=
      match out_filename with
      | None => (dataset_name img2 ++ "_ortho.nc")%string
      | Some name => name
      end in
    exists l w1 w2,
      make_ortho_map goes_filepath dem_filepath None w
      = (Return (PyDataset l), w1)
      /\ orthorectify_abi_rad image_filepath l out_filename w1
         = (Return PyNone, w2)
      /\ files w2 !! name = Some (NetcdfFile (with_rad ds vals))
      /\ heap w2 !! l = Some (with_rad ds vals).
Proof.
  intros w gp dp img dem nodata band gp2 img2 out vals Hg Hd Hn Hb Hg2
    elevation ds proj angles Hsel name.
  destruct (make_ortho_map_run w gp dp None img dem nodata band Hg Hd Hn Hb)
    as (w1 & Hrun1 & Hheap1 & Hfiles1).
  fold elevation in Hheap1. fold ds in Hheap1.
  assert (Hl : heap w1 !! length (heap w) = Some ds).
  { rewrite Hheap1, lookup_app_r by lia.
    replace (length (heap w) - length (heap w))%nat with 0%nat by lia.
    reflexivity. }
  destruct (orthorectify_abi_rad_run w1 gp2 (length (heap w)) out img2 ds
              (perspective_point_height proj + semi_major_axis proj)%fl
              (semi_major_axis proj) (semi_minor_axis proj)
              (longitude_of_projection_origin proj)
              (mk_variable ["y"; "x"]%string (Array2 angles.1))
              (mk_variable ["y"; "x"]%string (Array2 angles.2))
              angles.1 angles.2 vals
              (mk_variable ["x"]%string (Array1 (dem_x dem)))
              (mk_variable ["y"]%string (Array1 (dem_y dem))))
    as (w2 & Hrun2 & Hheap2 & Hfiles2);
    try reflexivity; try assumption.
  { rewrite Hfiles1. exact Hg2. }
  exists (length (heap w)), w1, w2.
  split; [exact Hrun1 |]. split; [exact Hrun2 |].
  split; [rewrite Hfiles2; apply lookup_insert_eq |].
  rewrite Hheap2. apply list_lookup_insert_eq.
  exact (lookup_lt_Some _ _ _ Hl).
Qed.

(** ** What a failed call leaves behind *)

Lemma keeps_store_ret {A} (a : A) : keeps_store (ret a).
Proof. intros w o w' [= _ <-]. split; reflexivity. Qed.

Lemma keeps_store_raise {A} (e : exn) : keeps_store (@raise A e).
Proof. intros w o w' [= _ <-]. split; reflexivity. Qed.

Lemma keeps_store_emit ev : keeps_store (emit ev).
Proof. intros w o w' [= _ <-]. split; reflexivity. Qed.

Lemma keeps_store_lift {A} (o : outcome A) : keeps_store (lift o).
Proof. intros w o' w' [= _ <-]. split; reflexivity. Qed.

Lemma keeps_store_open_dataset path : keeps_store (open_dataset path).
Proof.
  intros w o w'. unfold open_dataset.
  destruct (files w !! path) as [[img | dem | ds] |];
    intros [= _ <-]; split; reflexivity.
Qed.

Lemma keeps_store_deref l : keeps_store (deref l).
Proof.
  intros w o w'. unfold deref.
  destruct (heap w !! l); intros [= _ <-]; split; reflexivity.
Qed.

Lemma keeps_store_getattr_float d name : keeps_store (getattr_float d name).
Proof.
  unfold getattr_float.
  destruct (attrs d !! name) as [[v | n | s | l] |];
    first [apply keeps_store_ret | apply keeps_store_raise].
Qed.

Lemma keeps_store_getattr_array d name : keeps_store (getattr_array d name).
Proof.
  unfold getattr_array.
  destruct (lookup_variable d name);
    first [apply keeps_store_ret | apply keeps_store_raise].
Qed.

Lemma keeps_store_as_grid a : keeps_store (as_grid a).
Proof.
  destruct a; first [apply keeps_store_ret | apply keeps_store_raise].
Qed.

Lemma keeps_store_bind {A B} (m : M A) (k : A -> M B) :
  keeps_store m -> (forall a, keeps_store (k a)) -> keeps_store (bind m k).
Proof.
  intros Hm Hk w o w'. unfold bind.
  destruct (m w) as [[a | e] w1] eqn:E.
  - intros Hrun. destruct (Hm _ _ _ E) as [H1 H2].
    destruct (Hk a _ _ _ Hrun) as [H3 H4]. split; congruence.
  - intros [= _ <-]. exact (Hm _ _ _ E).
Qed.

Lemma keeps_store_weaken {A} (m : M A) :
  keeps_store m -> keeps_store_on_failure m.
Proof. intros Hm w e w' Hrun. exact (Hm _ _ _ Hrun). Qed.

Lemma on_failure_bind {A B} (m : M A) (k : A -> M B) :
  keeps_store m -> (forall a, keeps_store_on_failure (k a)) ->
  keeps_store_on_failure (bind m k).
Proof.
  intros Hm Hk w e w'. unfold bind.
  destruct (m w) as [[a | e0] w1] eqn:E.
  - intros Hrun. destruct (Hm _ _ _ E) as [H1 H2].
    destruct (Hk a _ _ _ Hrun) as [H3 H4]. split; congruence.
  - intros [= _ <-]. exact (Hm _ _ _ E).
Qed.

Lemma on_failure_bind_tail {A B} (m : M A) (k : A -> M B) :
  keeps_store_on_failure m -> (forall a, never_raises (k a)) ->
  keeps_store_on_failure (bind m k).
Proof.
  intros Hm Hk w e w'. unfold bind.
  destruct (m w) as [[a | e0] w1] eqn:E.
  - intros Hrun. exfalso. exact (Hk a _ _ _ Hrun).
  - intros [= _ <-]. exact (Hm _ _ _ E).
Qed.

(** Assigning the variable and writing the file: this part raises only
    when there is nothing behind the reference, before anything is done. *)
Lemma on_failure_assign_and_write l name v path :
  keeps_store_on_failure
    (setitem l name v ;;; to_netcdf l path ;;; ret PyNone).
Proof.
  intros w e w'.
  unfold setitem, to_netcdf, bind, deref, ret. cbn [files heap log].
  destruct (heap w !! l) as [d |] eqn:E.
  - cbn [files heap log].
    rewrite list_lookup_insert_eq by exact (lookup_lt_Some _ _ _ E).
    discriminate.
  - intros [= _ <-]. split; reflexivity.
Qed.

Lemma on_failure_output_ortho_netcdf vals l path :
  keeps_store_on_failure (output_ortho_netcdf vals l path).
Proof.
  unfold output_ortho_netcdf.
  apply on_failure_bind; [apply keeps_store_emit | intros _].
  apply on_failure_bind; [apply keeps_store_deref | intros pm].
  apply on_failure_bind; [apply keeps_store_getattr_array | intros _].
  apply on_failure_bind; [apply keeps_store_getattr_array | intros _].
  apply on_failure_assign_and_write.
Qed.

(** In the model every step that can fail comes before the assignment of
    [rad]; the write itself always succeeds here. *)
Lemma orthorectify_abi_rad_keeps_store_on_failure gp pm out :
  keeps_store_on_failure (orthorectify_abi_rad gp pm out).
Proof.
  unfold orthorectify_abi_rad, print, print_values.
  repeat (apply on_failure_bind;
          [ solve
              [ apply keeps_store_emit | apply keeps_store_open_dataset
              | apply keeps_store_deref | apply keeps_store_getattr_float
              | apply keeps_store_lift
              | apply keeps_store_bind;
                [apply keeps_store_getattr_array
                | intros ?; apply keeps_store_as_grid] ]
          | intros ?; cbv beta zeta ]).
  apply on_failure_bind_tail; [apply on_failure_output_ortho_netcdf |].
  intros _ w e w'. unfold bind, emit, ret. discriminate.
Qed.

(** X15. The failures of [orthorectify_abi_rad] that come before the
    packaging step leave the ortho map and the files as they were.  When
    there is no file at the image path the call raises the file-not-found
    error for that path; when the image is read and the selection on the
    scan angles of the map raises, the call raises; in both cases the heap
    and the files are unchanged, so the map has no [rad] added and no
    output file is written. *)
Theorem orthorectify_abi_rad_early_failure_changes_nothing :
  forall w goes_filepath pixel_map out_filename,
    (files w !! goes_filepath = None ->
     exists w',
       orthorectify_abi_rad goes_filepath pixel_map out_filename w
       = (Raise (FileNotFoundError goes_filepath), w')
       /\ heap w' = heap w /\ files w' = files w)
    /\ (forall img d angle_x angle_y e,
           files w !! goes_filepath = Some (GoesFile img) ->
           heap w !! pixel_map = Some d ->
           values <$> lookup_variable d "dem_px_angle_x"
           = Some (Array2 angle_x) ->
           values <$> lookup_variable d "dem_px_angle_y"
           = Some (Array2 angle_y) ->
           sel_nearest img angle_x angle_y = Raise e ->
           exists e' w',
             orthorectify_abi_rad goes_filepath pixel_map out_filename w
             = (Raise e', w')
             /\ heap w' = heap w /\ files w' = files w).
Proof.
  intros w gp pm out. split.
  - intros Hg.
    assert (Hrun : exists w',
               orthorectify_abi_rad gp pm out w
               = (Raise (FileNotFoundError gp), w')).
    { unfold orthorectify_abi_rad, bind, print, emit, open_dataset.
      cbn [files heap log]. rewrite Hg. eexists. reflexivity. }
    destruct Hrun as [w' Hrun]. exists w'. split; [exact Hrun |].
    exact (orthorectify_abi_rad_keeps_store_on_failure gp pm out _ _ _ Hrun).
  - intros img d ax ay e Hg Hd Hax Hay Hsel.
    destruct (orthorectify_abi_rad gp pm out w) as [[v | e'] w'] eqn:Hrun.
    + exfalso.
      destruct (lookup_variable d "dem_px_angle_x") as [vx |] eqn:Evx;
        [| discriminate].
      destruct (lookup_variable d "dem_px_angle_y") as [vy |] eqn:Evy;
        [| discriminate].
      cbn in Hax, Hay. injection Hax as Hax. injection Hay as Hay.
      revert Hrun.
      unfold orthorectify_abi_rad, bind, print, print_values, emit,
        open_dataset, deref, getattr_float, getattr_array, as_grid, lift,
        ret, raise.
      cbn [files heap log]. rewrite Hg. cbn [files heap log]. rewrite Hd.
      destruct (attrs d !! "satellite_height"%string) as [[h | ? | ? | ?] |];
        try discriminate.
      destruct (attrs d !! "semi_major_axis"%string) as [[a | ? | ? | ?] |];
        try discriminate.
      destruct (attrs d !! "semi_minor_axis"%string) as [[b | ? | ? | ?] |];
        try discriminate.
      destruct (attrs d !! "longitude_of_projection_origin"%string)
        as [[l0 | ? | ? | ?] |]; try discriminate.
      rewrite Evx, Hax, Evy, Hay, Hsel. discriminate.
    + exists e', w'. split; [reflexivity |].
      exact (orthorectify_abi_rad_keeps_store_on_failure gp pm out _ _ _
               Hrun).
Qed.

Lemma example_repeated_sel :
  sel_nearest example_repeated_image [[NaN]] [[NaN]]
  = Raise (InvalidIndexError
             "Reindexing only valid with uniquely valued Index objects").
Proof.
  unfold sel_nearest. cbn [zip_with]. unfold sel_cell.
  cbn [abi_x abi_y example_repeated_image].
  assert (Eu : is_unique [Fin 0; Fin 0] = false).
  { unfold is_unique, existsb, same_value, Float.eqb.
    destruct (Req_dec_T 0 0) as [| Hn]; [reflexivity | contradiction]. }
  unfold get_indexer_nearest at 1. rewrite Eu. reflexivity.
Qed.

Lemma orthorectify_abi_rad_early_failure_changes_nothing_witness :
  exists e' w',
    orthorectify_abi_rad "repeated.nc" 0%nat None example_repeated_world
    = (Raise e', w')
    /\ heap w' = heap example_repeated_world
    /\ files w' = files example_repeated_world.
Proof.
  exact (proj2 (orthorectify_abi_rad_early_failure_changes_nothing
                  example_repeated_world "repeated.nc" 0%nat None)
           example_repeated_image example_map [[NaN]] [[NaN]] _
           eq_refl eq_refl eq_refl eq_refl example_repeated_sel).
Defined.

(** ** The positions the selection returns *)

Lemma exact_indexer_bounds index label :
  (-1 <= exact_indexer index label < Z.of_nat (length index))%Z.
Proof.
  induction index as [| s rest IH]; cbn [exact_indexer length]; [lia |].
  destruct (Float.eqb s label); [lia |].
  destruct (exact_indexer rest label <? 0)%Z eqn:E; lia.
Qed.

Lemma exact_indexer_hit index label :
  (0 <= exact_indexer index label)%Z ->
  exists s,
    index !! Z.to_nat (exact_indexer index label) = Some s
    /\ Float.eqb s label = true.
Proof.
  induction index as [| s rest IH]; cbn [exact_indexer]; [lia |].
  destruct (Float.eqb s label) eqn:Es.
  - intros _. exists s. split; [reflexivity | exact Es].
  - destruct (exact_indexer rest label <? 0)%Z eqn:E; [lia |].
    intros _. destruct IH as (t & Ht & Et); [lia |].
    exists t. split; [| exact Et].
    replace (Z.to_nat (exact_indexer rest label + 1))
      with (S (Z.to_nat (exact_indexer rest label))) by lia.
    exact Ht.
Qed.

Lemma exact_indexer_found index label j s :
  index !! j = Some s -> Float.eqb s label = true ->
  (0 <= exact_indexer index label)%Z.
Proof.
  revert j. induction index as [| t rest IH]; intros j Hj Es;
    [discriminate |].
  cbn [exact_indexer]. destruct (Float.eqb t label) eqn:Et; [lia |].
  destruct j as [| j]; [injection Hj as ->; congruence |].
  specialize (IH j Hj Es).
  destruct (exact_indexer rest label <? 0)%Z eqn:E; lia.
Qed.

Lemma searchsorted_le a v left : (searchsorted a v left <= length a)%nat.
Proof. unfold searchsorted. apply filter_length_le. Qed.

Lemma searchsorted_monotonic_le index label left :
  (searchsorted_monotonic index label left <= length index)%nat.
Proof.
  unfold searchsorted_monotonic.
  destruct (is_monotonic_increasing index); [apply searchsorted_le | lia].
Qed.

Lemma pad_indexer_bounds index label :
  (-1 <= pad_indexer index label < Z.of_nat (length index))%Z.
Proof.
  unfold pad_indexer. pose proof (exact_indexer_bounds index label).
  pose proof (searchsorted_monotonic_le index label true).
  destruct (exact_indexer index label <? 0)%Z; lia.
Qed.

Lemma backfill_indexer_bounds index label :
  (-1 <= backfill_indexer index label < Z.of_nat (length index))%Z.
Proof.
  unfold backfill_indexer. pose proof (exact_indexer_bounds index label).
  pose proof (searchsorted_monotonic_le index label false).
  destruct (exact_indexer index label <? 0)%Z; [| lia].
  destruct (Z.of_nat (searchsorted_monotonic index label false)
            =? Z.of_nat (length index))%Z eqn:E; lia.
Qed.

(** X16. A position that the selection returns for a label is a position
    of the axis: it is below the length of the axis, whatever the label
    (NaN and the infinities included). *)
Theorem get_indexer_nearest_in_range :
  forall index label i,
    get_indexer_nearest index label = Return i ->
    (i < length index)%nat.
Proof.
  intros index label i. unfold get_indexer_nearest.
  destruct (is_unique index); [| discriminate].
  destruct (is_monotonic_increasing index || is_monotonic_decreasing index);
    [| discriminate].
  assert (Hb : (-1 <= nearest_indexer index label
                < Z.of_nat (length index))%Z).
  { unfold nearest_indexer.
    pose proof (pad_indexer_bounds index label).
    pose proof (backfill_indexer_bounds index label).
    match goal with |- context [if ?c then _ else _] => destruct c end; lia. }
  destruct (nearest_indexer index label <? 0)%Z eqn:E; [discriminate |].
  intros [= <-]. lia.
Qed.

Lemma get_indexer_nearest_in_range_witness :
  get_indexer_nearest [Fin 0; Fin 1] NaN = Return 1%nat
  /\ (1 < length [Fin 0; Fin 1])%nat.
Proof.
  assert (Hr : get_indexer_nearest [Fin 0; Fin 1] NaN = Return 1%nat).
  { rewrite get_indexer_nearest_nan;
      [| discriminate | apply example_axis_not_nan
       | apply example_axis_unique
       | rewrite example_axis_increasing; reflexivity ].
    unfold nan_position. rewrite example_axis_increasing. reflexivity. }
  split; [exact Hr |].
  exact (get_indexer_nearest_in_range _ _ _ Hr).
Defined.


Lemma eqb_one : Float.eqb (Fin 1) (Fin 1) = true.
Proof. cbn. destruct (Req_dec_T 1 1); [reflexivity | contradiction]. Qed.


Lemma ltb_irrefl x : Float.ltb x x = false.
Proof.
  destruct x as [r | [] |]; cbn; try reflexivity.
  destruct (Rlt_dec r r); [exfalso; lra | reflexivity].
Qed.

Lemma sort_lt_asym a b : sort_lt a b = true -> sort_lt b a = false.
Proof.
  unfold sort_lt.
  destruct a as [r | [] |], b as [t | [] |]; cbn; try reflexivity;
    try discriminate.
  destruct (Rlt_dec r t), (Rlt_dec t r); try reflexivity; try discriminate.
  exfalso; lra.
Qed.

Lemma sort_lt_total a b :
  a <> NaN -> Float.eqb a b = false -> sort_lt a b = false ->
  sort_lt b a = true.
Proof.
  unfold sort_lt. intros Ha.
  destruct a as [r | [] |], b as [t | [] |]; cbn; try reflexivity;
    try discriminate; try contradiction.
  destruct (Req_dec_T r t), (Rlt_dec r t), (Rlt_dec t r);
    try reflexivity; try discriminate.
  exfalso; lra.
Qed.

(** X18. On an axis of a single sample that is not NaN, every label,
    however far, NaN included, is given that sample: there is no distance
    threshold. *)
Theorem get_indexer_nearest_single_sample :
  forall s label : float64,
    s <> NaN ->
    get_indexer_nearest [s] label = Return 0%nat.
Proof.
  intros s label Hs.
  unfold get_indexer_nearest, nearest_indexer, pad_indexer, backfill_indexer,
    searchsorted_monotonic, searchsorted.
  cbn [is_unique existsb negb andb is_monotonic_increasing orb exact_indexer
       List.filter length].
  destruct (Float.eqb s label) eqn:Es.
  - change (0 <? 0)%Z with false. cbv iota.
    match goal with
    | |- context [if (?c || ?e)%bool then _ else _] => destruct (c || e)%bool
    end; reflexivity.
  - change (-1 <? 0)%Z with true. cbv iota.
    destruct (sort_lt s label) eqn:Elt.
    + unfold sort_le. rewrite (sort_lt_asym _ _ Elt). cbn.
      rewrite orb_true_r. reflexivity.
    + unfold sort_le. rewrite (sort_lt_total _ _ Hs Es Elt). cbn.
      unfold distance, py_getitem. cbn. rewrite ltb_irrefl. reflexivity.
Qed.

Lemma get_indexer_nearest_single_sample_witness :
  Fin 0 <> NaN /\ get_indexer_nearest [Fin 0] (Inf false) = Return 0%nat.
Proof.
  assert (Hs : Fin 0 <> NaN) by discriminate.
  split; [exact Hs |].
  exact (get_indexer_nearest_single_sample (Fin 0) (Inf false) Hs).
Defined.

(** ** The shape of the result *)

Lemma sequence_length {A} (l : list (outcome A)) r :
  sequence l = Return r -> length r = length l.
Proof.
  revert r. induction l as [| [a | e] rest IH]; intros r Hs.
  - injection Hs as <-. reflexivity.
  - cbn [sequence] in Hs. destruct (sequence rest) as [r' |]; [| discriminate].
    injection Hs as <-. cbn. f_equal. apply IH. reflexivity.
  - discriminate.
Qed.

Lemma sequence_lookup_inv {A} (l : list (outcome A)) r i v :
  sequence l = Return r -> r !! i = Some v -> l !! i = Some (Return v).
Proof.
  revert r i. induction l as [| [a | e] rest IH]; intros r i Hs Hr.
  - injection Hs as <-. discriminate.
  - cbn [sequence] in Hs. destruct (sequence rest) as [r' |] eqn:E;
      [| discriminate].
    injection Hs as <-. destruct i as [| i].
    + injection Hr as <-. reflexivity.
    + cbn in *. apply (IH r' i eq_refl Hr).
  - discriminate.
Qed.

Lemma sel_nearest_has_shape img angle_x angle_y vals rows cols :
  sel_nearest img angle_x angle_y = Return vals ->
  has_shape rows cols angle_x -> has_shape rows cols angle_y ->
  has_shape rows cols vals.
Proof.
  unfold sel_nearest. rewrite !has_shape_lookup.
  intros Hs [Hx Hxr] [Hy Hyr]. split.
  - rewrite (sequence_length _ _ Hs), length_zip_with. lia.
  - intros i row Hi.
    pose proof (sequence_lookup_inv _ _ _ _ Hs Hi) as Hrow.
    apply lookup_zip_with_Some in Hrow as (rx & ry & E & Hrx & Hry).
    symmetry in E. rewrite (sequence_length _ _ E), length_zip_with.
    rewrite (Hxr _ _ Hrx), (Hyr _ _ Hry). lia.
Qed.

(** X19. In a completed run of [orthorectify_abi_rad], the radiances
    written have the shape of the scan-angle grids of the ortho map. *)
Theorem orthorectify_abi_rad_shape :
  forall w goes_filepath pixel_map out_filename img d w' angle_x angle_y
         rows cols,
    files w !! goes_filepath = Some (GoesFile img) ->
    heap w !! pixel_map = Some d ->
    values <$> lookup_variable d "dem_px_angle_x" = Some (Array2 angle_x) ->
    values <$> lookup_variable d "dem_px_angle_y" = Some (Array2 angle_y) ->
    has_shape rows cols angle_x ->
    has_shape rows cols angle_y ->
    orthorectify_abi_rad goes_filepath pixel_map out_filename w
    = (Return PyNone, w') ->
    exists d' rad,
      heap w' !! pixel_map = Some d'
      /\ values <$> data_vars d' !! "rad"%string = Some (Array2 rad)
      /\ has_shape rows cols rad.
Proof.
  intros w gp pm out img d w' ax ay rows cols Hg Hd Hax Hay Hsx Hsy Hrun.
  destruct (lookup_variable d "dem_px_angle_x") as [vx |] eqn:Evx;
    [| discriminate].
  destruct (lookup_variable d "dem_px_angle_y") as [vy |] eqn:Evy;
    [| discriminate].
  cbn in Hax, Hay. injection Hax as Hax. injection Hay as Hay.
  revert Hrun.
  unfold orthorectify_abi_rad, bind, print, print_values, emit, open_dataset,
    deref, getattr_float, getattr_array, as_grid, lift, ret, raise.
  cbn [files heap log]. rewrite Hg. cbn [files heap log]. rewrite Hd.
  destruct (attrs d !! "satellite_height"%string) as [[h | ? | ? | ?] |];
    try discriminate.
  destruct (attrs d !! "semi_major_axis"%string) as [[a | ? | ? | ?] |];
    try discriminate.
  destruct (attrs d !! "semi_minor_axis"%string) as [[b | ? | ? | ?] |];
    try discriminate.
  destruct (attrs d !! "longitude_of_projection_origin"%string)
    as [[l0 | ? | ? | ?] |]; try discriminate.
  rewrite Evx, Hax, Evy, Hay.
  destruct (sel_nearest img ax ay) as [vals | e] eqn:Esel; [| discriminate].
  cbn [files heap log].
  match goal with
  | |- context [output_ortho_netcdf ?v ?p ?n ?w0] =>
      destruct (output_ortho_netcdf v p n w0) as [[r | e] w1] eqn:Eout
  end; [| discriminate].
  intros [= <-]. cbn [heap].
  revert Eout.
  unfold output_ortho_netcdf, bind, print, emit, deref, getattr_array,
    setitem, to_netcdf, ret, raise.
  cbn [files heap log]. rewrite Hd.
  destruct (lookup_variable d "longitude"); [| discriminate].
  destruct (lookup_variable d "latitude"); [| discriminate].
  unfold bind, deref. cbn [files heap log]. rewrite Hd. cbn [files heap log].
  rewrite list_lookup_insert_eq by exact (lookup_lt_Some _ _ _ Hd).
  intros [= _ <-]. cbn [heap].
  rewrite list_lookup_insert_eq by exact (lookup_lt_Some _ _ _ Hd).
  eexists _, vals. split; [reflexivity |].
  split; [cbn [data_vars]; rewrite lookup_insert_eq; reflexivity |].
  exact (sel_nearest_has_shape _ _ _ _ _ _ Esel Hsx Hsy).
Qed.

Lemma orthorectify_abi_rad_shape_witness :
  exists w' d' rad,
    orthorectify_abi_rad "goes.nc" 0%nat None example_world_with_map
    = (Return PyNone, w')
    /\ heap w' !! 0%nat = Some d'
    /\ values <$> data_vars d' !! "rad"%string = Some (Array2 rad)
    /\ has_shape 1 1 rad.
Proof.
  destruct example_run as (w' & Hrun & _).
  assert (Hs : has_shape 1 1 [[NaN]])
    by (split; [reflexivity | repeat constructor]).
  destruct (orthorectify_abi_rad_shape example_world_with_map "goes.nc"
              0%nat None example_image example_map w' [[NaN]] [[NaN]]
              1%nat 1%nat eq_refl eq_refl eq_refl eq_refl Hs Hs Hrun)
    as (d' & rad & Hd' & Hrad & Hshape).
  exists w', d', rad.
  split; [exact Hrun |]. split; [exact Hd' |].
  split; [exact Hrad | exact Hshape].
Defined.

(** ** What the packaging step changes and keeps *)

Lemma lookup_variable_with_rad d vals name :
  name <> "rad"%string ->
  lookup_variable (with_rad d vals) name = lookup_variable d name.
Proof.
  intros Hne. unfold lookup_variable, with_rad. cbn [data_vars coords].
  rewrite lookup_insert_ne by congruence. reflexivity.
Qed.

Lemma with_rad_with_rad d v1 v2 :
  with_rad (with_rad d v1) v2 = with_rad d v2.
Proof.
  unfold with_rad. cbn [data_vars coords attrs].
  rewrite insert_insert_eq. reflexivity.
Qed.



(** X21. The ortho map can be used again: after a completed run, a second
    run of [orthorectify_abi_rad] with the same map and another image finds
    the map's attributes and scan angles as before and, when its selection
    succeeds, completes; the map then holds the radiances of the second
    run only. *)
Theorem orthorectify_abi_rad_twice :
  forall w path1 path2 pixel_map out1 out2 img1 img2 d h req rpol lon_0
         vx vy angle_x angle_y vals1 vals2 lonv latv,
    files w !! path1 = Some (GoesFile img1) ->
    files w !! path2 = Some (GoesFile img2) ->
    match out1 with
    | None => (dataset_name img1 ++ "_ortho.nc")%string
    | Some name => name
    end <> path2 ->
    heap w !! pixel_map = Some d ->
    attrs d !! "satellite_height"%string = Some (AFloat h) ->
    attrs d !! "semi_major_axis"%string = Some (AFloat req) ->
    attrs d !! "semi_minor_axis"%string = Some (AFloat rpol) ->
    attrs d !! "longitude_of_projection_origin"%string
    = Some (AFloat lon_0) ->
    lookup_variable d "dem_px_angle_x" = Some vx ->
    values vx = Array2 angle_x ->
    lookup_variable d "dem_px_angle_y" = Some vy ->
    values vy = Array2 angle_y ->
    sel_nearest img1 angle_x angle_y = Return vals1 ->
    sel_nearest img2 angle_x angle_y = Return vals2 ->
    lookup_variable d "longitude" = Some lonv ->
    lookup_variable d "latitude" = Some latv ->
    exists w1 w2,
      orthorectify_abi_rad path1 pixel_map out1 w = (Return PyNone, w1)
      /\ orthorectify_abi_rad path2 pixel_map out2 w1 = (Return PyNone, w2)
      /\ heap w1 !! pixel_map = Some (with_rad d vals1)
      /\ heap w2 !! pixel_map = Some (with_rad d vals2).
Proof.
  intros w p1 p2 pm out1 out2 img1 img2 d h req rpol lon_0 vx vy ax ay
    vals1 vals2 lonv latv Hg1 Hg2 Hname Hd Hh Hreq Hrpol Hlon0 Hvx Hax Hvy
    Hay Hsel1 Hsel2 Hlon Hlat.
  pose proof (lookup_lt_Some _ _ _ Hd) as Hlt.
  destruct (orthorectify_abi_rad_run w p1 pm out1 img1 d h req rpol lon_0
              vx vy ax ay vals1 lonv latv
              Hg1 Hd Hh Hreq Hrpol Hlon0 Hvx Hax Hvy Hay Hsel1 Hlon Hlat)
    as (w1 & Hrun1 & Hheap1 & Hfiles1).
  assert (Hd1 : heap w1 !! pm = Some (with_rad d vals1))
    by (rewrite Hheap1; apply list_lookup_insert_eq; exact Hlt).
  assert (Hg2' : files w1 !! p2 = Some (GoesFile img2)).
  { rewrite Hfiles1, lookup_insert_ne by exact Hname. exact Hg2. }
  destruct (orthorectify_abi_rad_run w1 p2 pm out2 img2 (with_rad d vals1)
              h req rpol lon_0 vx vy ax ay vals2 lonv latv)
    as (w2 & Hrun2 & Hheap2 & Hfiles2); try assumption;
    try (rewrite lookup_variable_with_rad by discriminate; assumption).
  exists w1, w2.
  split; [exact Hrun1 |]. split; [exact Hrun2 |]. split; [exact Hd1 |].
  rewrite Hheap2, with_rad_with_rad. apply list_lookup_insert_eq.
  rewrite Hheap1, length_insert. exact Hlt.
Qed.

Lemma orthorectify_abi_rad_twice_witness :
  exists w1 w2,
    orthorectify_abi_rad "goes.nc" 0%nat None example_world_with_map
    = (Return PyNone, w1)
    /\ orthorectify_abi_rad "goes.nc" 0%nat (Some "second.nc"%string) w1
       = (Return PyNone, w2)
    /\ heap w1 !! 0%nat = Some (with_rad example_map [[Fin 40]])
    /\ heap w2 !! 0%nat = Some (with_rad example_map [[Fin 40]]).
Proof.
  refine (orthorectify_abi_rad_twice example_world_with_map "goes.nc"
            "goes.nc" 0%nat None (Some "second.nc"%string)
            example_image example_image example_map
            (Fin 42164160) (Fin 6378137) (Fin 6356752.31414) (Fin (-75))
            (mk_variable ["y"; "x"]%string (Array2 [[NaN]]))
            (mk_variable ["y"; "x"]%string (Array2 [[NaN]]))
            [[NaN]] [[NaN]] [[Fin 40]] [[Fin 40]]
            (mk_variable ["x"]%string (Array1 [Fin (-106)]))
            (mk_variable ["y"]%string (Array1 [Fin 39]))
            _ _ _ _ _ _ _ _ _ _ _ _ _ _ _ _);
    try reflexivity; try apply example_sel.
  discriminate.
Defined.

(** X22. A completed run of [orthorectify_abi_rad] writes one file: the
    one named by [out_filename], or by the image's [dataset_name] followed
    by [_ortho.nc] when no name is given.  The file holds the ortho map as
    it is after the call, and no other file changes.  The stored projection
    parameters are only printed: the run completes whatever their values,
    equal to those of the image or not. *)
Theorem orthorectify_abi_rad_output_file :
  forall w goes_filepath pixel_map out_filename img d h req rpol lon_0
         vx vy angle_x angle_y vals lonv latv,
    files w !! goes_filepath = Some (GoesFile img) ->
    heap w !! pixel_map = Some d ->
    attrs d !! "satellite_height"%string = Some (AFloat h) ->
    attrs d !! "semi_major_axis"%string = Some (AFloat req) ->
    attrs d !! "semi_minor_axis"%string = Some (AFloat rpol) ->
    attrs d !! "longitude_of_projection_origin"%string
    = Some (AFloat lon_0) ->
    lookup_variable d "dem_px_angle_x" = Some vx ->
    values vx = Array2 angle_x ->
    lookup_variable d "dem_px_angle_y" = Some vy ->
    values vy = Array2 angle_y ->
    sel_nearest img angle_x angle_y = Return vals ->
    lookup_variable d "longitude" = Some lonv ->
    lookup_variable d "latitude" = Some latv ->
    let name :=
      match out_filename with
      | None => (dataset_name img ++ "_ortho.nc")%string
      | Some name => name
      end in
    exists w' d',
      orthorectify_abi_rad goes_filepath pixel_map out_filename w
      = (Return PyNone, w')
      /\ heap w' !! pixel_map = Some d'
      /\ files w' !! name = Some (NetcdfFile d')
      /\ (forall path, path <> name -> files w' !! path = files w !! path).
Proof.
  intros w gp pm out img d h req rpol lon_0 vx vy ax ay vals lonv latv
    Hg Hd Hh Hreq Hrpol Hlon0 Hvx Hax Hvy Hay Hsel Hlon Hlat name.
  destruct (orthorectify_abi_rad_run w gp pm out img d h req rpol lon_0
              vx vy ax ay vals lonv latv
              Hg Hd Hh Hreq Hrpol Hlon0 Hvx Hax Hvy Hay Hsel Hlon Hlat)
    as (w' & Hrun & Hheap & Hfiles).
  exists w', (with_rad d vals).
  split; [exact Hrun |].
  split.
  { rewrite Hheap. apply list_lookup_insert_eq.
    exact (lookup_lt_Some _ _ _ Hd). }
  split; [rewrite Hfiles; apply lookup_insert_eq |].
  intros path Hne. rewrite Hfiles. apply lookup_insert_ne.
  intros E. apply Hne. symmetry. exact E.
Qed.

Lemma orthorectify_abi_rad_output_file_witness :
  exists w' d',
    orthorectify_abi_rad "goes.nc" 0%nat None example_world_with_map
    = (Return PyNone, w')
    /\ heap w' !! 0%nat = Some d'
    /\ files w' !! "OR_ABI-L1b-RadC_ortho.nc"%string = Some (NetcdfFile d')
    /\ (forall path,
           path <> "OR_ABI-L1b-RadC_ortho.nc"%string ->
           files w' !! path = files example_world_with_map !! path).
Proof.
  refine (orthorectify_abi_rad_output_file example_world_with_map "goes.nc"
            0%nat None example_image example_map
            (Fin 42164160) (Fin 6378137) (Fin 6356752.31414) (Fin (-75))
            (mk_variable ["y"; "x"]%string (Array2 [[NaN]]))
            (mk_variable ["y"; "x"]%string (Array2 [[NaN]]))
            [[NaN]] [[NaN]] [[Fin 40]]
            (mk_variable ["x"]%string (Array1 [Fin (-106)]))
            (mk_variable ["y"]%string (Array1 [Fin 39]))
            _ _ _ _ _ _ _ _ _ _ _ _ _);
    try reflexivity; try apply example_sel.
Defined.

Lemma eqb_zero : Float.eqb (Fin 0) (Fin 0) = true.
Proof. cbn. destruct (Req_dec_T 0 0); [reflexivity | contradiction]. Qed.

Lemma example_sea_angles H req rpol e lon_0 :
  LonLat2ABIangle_grid
    (meshgrid (dem_x example_sea_dem) (dem_y example_sea_dem)).1
    (meshgrid (dem_x example_sea_dem) (dem_y example_sea_dem)).2
    (grid_map mask_zero (grid_map (mask_nodata (Fin (-9999))) [[Fin 0]]))
    H req rpol e lon_0
  = ([[NaN]], [[NaN]]).
Proof.
  unfold LonLat2ABIangle_grid, meshgrid, grid_map, zip3_with.
  cbn -[LonLat2ABIangle mask_zero mask_nodata].
  rewrite (mask_zero_hit _ _ eqb_zero), LonLat2ABIangle_nan_elevation.
  reflexivity.
Qed.

Lemma make_ortho_map_then_orthorectify_abi_rad_witness :
  exists l w1 w2 ds,
    make_ortho_map "goes.nc" "sea.tif" None example_sea_world
    = (Return (PyDataset l), w1)
    /\ orthorectify_abi_rad "goes.nc" l None w1 = (Return PyNone, w2)
    /\ files w2 !! "OR_ABI-L1b-RadC_ortho.nc"%string
       = Some (NetcdfFile (with_rad ds [[Fin 40]]))
    /\ heap w2 !! l = Some (with_rad ds [[Fin 40]]).
Proof.
  destruct (make_ortho_map_then_orthorectify_abi_rad example_sea_world
              "goes.nc" "sea.tif" example_image example_sea_dem
              (Fin (-9999)) [[Fin 0]] "goes.nc" example_image None
              [[Fin 40]] eq_refl eq_refl eq_refl eq_refl eq_refl)
    as (l & w1 & w2 & H1 & H2 & H3 & H4).
  { rewrite example_sea_angles. apply example_sel. }
  exists l, w1, w2. eexists.
  split; [exact H1 |]. split; [exact H2 |]. split; [exact H3 | exact H4].
Defined.

(** ** Pixel centres *)

Lemma sign_fin r : Float.sign (Fin r) = Fin (Rsign r).
Proof.
  unfold Float.sign, Rsign.
  destruct (Rlt_dec r 0); [reflexivity |].
  destruct (Rlt_dec 0 r); reflexivity.
Qed.

Lemma Rsign_neg r : r < 0 -> Rsign r = -1.
Proof.
  intros H. unfold Rsign. destruct (Rlt_dec r 0); [reflexivity | contradiction].
Qed.

Lemma Rsign_pos r : 0 < r -> Rsign r = 1.
Proof.
  intros H. unfold Rsign. destruct (Rlt_dec r 0); [exfalso; lra |].
  destruct (Rlt_dec 0 r); [reflexivity | contradiction].
Qed.

Lemma Rsign_zero r : r = 0 -> Rsign r = 0.
Proof.
  intros ->. unfold Rsign. destruct (Rlt_dec 0 0); [exfalso; lra | reflexivity].
Qed.

(** The centre as a real number, for a finite angle and a pixel size that
    is not zero. *)
Lemma pixel_center_fin i v :
  i <> 0 ->
  pixel_center (Fin i) (Fin v)
  = Fin ((IZR (Zfloor (Rabs (v / i))) + 0.5) * Rsign (v / i) * i).
Proof.
  intros Hi. unfold pixel_center.
  rewrite FloatFacts.div_fin by assumption.
  cbn [Float.abs Float.floor]. rewrite sign_fin. reflexivity.
Qed.

Lemma Zfloor_nonneg x : 0 <= x -> 0 <= IZR (Zfloor x).
Proof.
  intros Hx. apply IZR_le. apply Zfloor_lub. exact Hx.
Qed.

Lemma ifov_positive k i :
  ifov !! k = Some i -> exists r, i = Fin r /\ 0 < r.
Proof.
  unfold ifov. destruct k as [| [| [| k]]]; intros [= <-];
    eexists; (split; [reflexivity | lra]).
Qed.

(** A band of the result is the input grid with every angle replaced by
    its pixel centre. *)
Lemma ABIpixelMap_band gx gy k i :
  ifov !! k = Some i ->
  (ABIpixelMap gx gy).1 !! k
  = Some (grid_map (fun p => (Float.floor (Float.abs p) + Fin 0.5)
                             * Float.sign p * i)%fl
            (grid_map (fun v => v / i)%fl gx))
  /\ (ABIpixelMap gx gy).2 !! k
     = Some (grid_map (fun p => (Float.floor (Float.abs p) + Fin 0.5)
                                * Float.sign p * i)%fl
               (grid_map (fun v => v / i)%fl gy)).
Proof.
  unfold ABIpixelMap, ifov. cbn [fst snd].
  destruct k as [| [| [| k]]]; intros [= <-]; split; reflexivity.
Qed.

Lemma ABIpixelMap_cell gx gy k i r c v :
  ifov !! k = Some i ->
  cell gx r c = Some v ->
  exists band,
    (ABIpixelMap gx gy).1 !! k = Some band
    /\ cell band r c = Some (pixel_center i v).
Proof.
  intros Hk Hv. destruct (ABIpixelMap_band gx gy k i Hk) as [Hb _].
  eexists. split; [exact Hb |].
  rewrite !cell_grid_map, Hv. reflexivity.
Qed.

(** X23. [ABIpixelMap] moves a finite scan angle other than 0 by at most
    half a pixel: in each of the three bands, the centre returned for a
    cell is within half the IFOV of that band from the angle of the
    cell. *)
Theorem ABIpixelMap_within_half_ifov :
  forall gx gy k i r c v,
    ifov !! k = Some (Fin i) ->
    cell gx r c = Some (Fin v) ->
    v <> 0 ->
    exists band ctr,
      (ABIpixelMap gx gy).1 !! k = Some band
      /\ cell band r c = Some (Fin ctr)
      /\ Rabs (ctr - v) <= i / 2.
Proof.
  intros gx gy k i r c v Hk Hv Hnz.
  destruct (ifov_positive k _ Hk) as (i' & [= <-] & Hi).
  destruct (ABIpixelMap_cell gx gy k (Fin i) r c (Fin v) Hk Hv)
    as (band & Hb & Hc).
  rewrite pixel_center_fin in Hc by lra.
  exists band. eexists. split; [exact Hb |]. split; [exact Hc |].
  set (q := v / i). assert (Ev : v = q * i) by (unfold q; field; lra).
  pose proof (Zfloor_bound (Rabs q)) as [Hlo Hhi].
  set (n := IZR (Zfloor (Rabs q))) in *.
  unfold Rsign. apply Rabs_le.
  destruct (Rlt_dec q 0) as [Hneg | Hnn].
  - rewrite Rabs_left in Hlo, Hhi by assumption. rewrite Ev. nra.
  - destruct (Rlt_dec 0 q) as [Hpos | Hz].
    + rewrite Rabs_right in Hlo, Hhi by lra. rewrite Ev. nra.
    + exfalso. apply Hnz. rewrite Ev. nra.
Qed.

Lemma ABIpixelMap_within_half_ifov_witness :
  exists band ctr,
    (ABIpixelMap [[Fin 20e-6]] [[Fin 0]]).1 !! 0%nat = Some band
    /\ cell band 0 0 = Some (Fin ctr)
    /\ Rabs (ctr - 20e-6) <= 14e-6 / 2.
Proof.
  refine (ABIpixelMap_within_half_ifov [[Fin 20e-6]] [[Fin 0]] 0%nat 14e-6
            0%nat 0%nat 20e-6 eq_refl eq_refl _).
  lra.
Defined.

(** X24. A scan angle of exactly 0 is not moved to a pixel centre: its
    sign is 0, so the value returned for it is 0, the edge between two
    pixels, in every band. *)
Theorem ABIpixelMap_zero_angle :
  forall gx gy k i r c,
    ifov !! k = Some i ->
    cell gx r c = Some (Fin 0) ->
    exists band,
      (ABIpixelMap gx gy).1 !! k = Some band
      /\ cell band r c = Some (Fin 0).
Proof.
  intros gx gy k i r c Hk Hv.
  destruct (ifov_positive k _ Hk) as (i' & -> & Hi).
  destruct (ABIpixelMap_cell gx gy k (Fin i') r c (Fin 0) Hk Hv)
    as (band & Hb & Hc).
  exists band. split; [exact Hb |]. rewrite Hc. f_equal.
  rewrite pixel_center_fin by lra. apply FloatFacts.fin_eq.
  replace (0 / i') with 0 by (field; lra).
  unfold Rsign. destruct (Rlt_dec 0 0); [exfalso; lra |]. ring.
Qed.

Lemma ABIpixelMap_zero_angle_witness :
  exists band,
    (ABIpixelMap [[Fin 0]] [[Fin 0]]).1 !! 2%nat = Some band
    /\ cell band 0 0 = Some (Fin 0).
Proof.
  exact (ABIpixelMap_zero_angle [[Fin 0]] [[Fin 0]] 2%nat (Fin 56e-6)
           0%nat 0%nat eq_refl eq_refl).
Defined.

Lemma pixel_center_nan i : pixel_center i NaN = NaN.
Proof. destruct i as [r | s |]; reflexivity. Qed.

Lemma pixel_center_inf i s : 0 < i -> pixel_center (Fin i) (Inf s) = Inf s.
Proof.
  intros Hi. unfold pixel_center. cbn [Float.div Float.abs Float.floor Float.add].
  assert (Hs : Float.signbit i = false).
  { unfold Float.signbit. destruct (Rlt_dec i 0); [exfalso; lra | reflexivity]. }
  rewrite Hs, xorb_false_r.
  destruct s; cbn [Float.sign];
    repeat first
      [ reflexivity
      | progress cbn [Float.mul xorb]
      | progress unfold Float.signbit
      | match goal with
        | |- context [Req_dec_T ?a ?b] =>
            destruct (Req_dec_T a b); [exfalso; lra |]
        | |- context [Rlt_dec ?a ?b] =>
            destruct (Rlt_dec a b); try (exfalso; lra)
        end ].
Qed.

(** A pixel centre is its own pixel centre. *)
Lemma pixel_center_idempotent i v :
  0 < i ->
  pixel_center (Fin i) (pixel_center (Fin i) v) = pixel_center (Fin i) v.
Proof.
  intros Hi. destruct v as [v | s |].
  - rewrite (pixel_center_fin i v) by lra.
    set (q := v / i). set (n := IZR (Zfloor (Rabs q))).
    assert (Hn : 0 <= n) by (apply Zfloor_nonneg, Rabs_pos).
    rewrite pixel_center_fin by lra. apply FloatFacts.fin_eq.
    replace ((n + 0.5) * Rsign q * i / i) with ((n + 0.5) * Rsign q)
      by (field; lra).
    assert (Hfl : Zfloor (n + 0.5) = Zfloor (Rabs q)).
    { apply Zfloor_eq. fold n. lra. }
    destruct (Rtotal_order q 0) as [Hq | [Hq | Hq]].
    + rewrite (Rsign_neg q) by assumption.
      replace ((n + 0.5) * -1) with (- (n + 0.5)) by ring.
      rewrite Rabs_Ropp, (Rabs_right (n + 0.5)) by lra.
      rewrite Hfl. fold n. rewrite Rsign_neg by lra. ring.
    + rewrite (Rsign_zero q) by assumption.
      rewrite Rmult_0_r, (Rsign_zero 0) by reflexivity. ring.
    + rewrite (Rsign_pos q) by assumption.
      rewrite Rmult_1_r, (Rabs_right (n + 0.5)) by lra.
      rewrite Hfl. fold n. rewrite Rsign_pos by lra. ring.
  - rewrite !pixel_center_inf by assumption. reflexivity.
  - rewrite !pixel_center_nan. reflexivity.
Qed.

Lemma grid_map_grid_map f g (x : grid) :
  grid_map f (grid_map g x) = grid_map (fun v => f (g v)) x.
Proof.
  unfold grid_map. rewrite <- list_fmap_compose.
  apply list_fmap_ext. intros _ row _. cbn.
  rewrite <- list_fmap_compose. reflexivity.
Qed.

Lemma grid_map_ext f g (x : grid) :
  (forall v, f v = g v) -> grid_map f x = grid_map g x.
Proof.
  intros E. unfold grid_map. apply list_fmap_ext. intros _ row _.
  apply list_fmap_ext. intros _ v _. apply E.
Qed.

Lemma ABIpixelMap_band_pixel_center gx gy k i :
  ifov !! k = Some i ->
  (ABIpixelMap gx gy).1 !! k = Some (grid_map (pixel_center i) gx)
  /\ (ABIpixelMap gx gy).2 !! k = Some (grid_map (pixel_center i) gy).
Proof.
  intros Hk. destruct (ABIpixelMap_band gx gy k i Hk) as [Hx Hy].
  rewrite Hx, Hy, !grid_map_grid_map. split; reflexivity.
Qed.

(** X25. [ABIpixelMap] is idempotent band by band: its result holds pixel
    centres, and the centre of the pixel a centre lies in is that centre
    again, so giving band [k] of the result back to the function returns
    the same two grids in band [k]. *)
Theorem ABIpixelMap_idempotent :
  forall gx gy k bx by_,
    (ABIpixelMap gx gy).1 !! k = Some bx ->
    (ABIpixelMap gx gy).2 !! k = Some by_ ->
    (ABIpixelMap bx by_).1 !! k = Some bx
    /\ (ABIpixelMap bx by_).2 !! k = Some by_.
Proof.
  intros gx gy k bx by_ Hx Hy.
  assert (Hk : exists i, ifov !! k = Some i).
  { destruct k as [| [| [| k]]]; [eexists; reflexivity .. |].
    discriminate Hx. }
  destruct Hk as [i Hk].
  destruct (ifov_positive k i Hk) as (r & -> & Hr).
  destruct (ABIpixelMap_band_pixel_center gx gy k _ Hk) as [Ex Ey].
  rewrite Ex in Hx. rewrite Ey in Hy.
  injection Hx as <-. injection Hy as <-.
  destruct (ABIpixelMap_band_pixel_center
              (grid_map (pixel_center (Fin r)) gx)
              (grid_map (pixel_center (Fin r)) gy) k _ Hk) as [Fx Fy].
  rewrite Fx, Fy, !grid_map_grid_map.
  split; f_equal; apply grid_map_ext; intros v;
    apply pixel_center_idempotent; exact Hr.
Qed.

Lemma ABIpixelMap_idempotent_witness :
  (ABIpixelMap [[Fin 21e-6]] [[Fin 7e-6]]).1 !! 0%nat
  = Some [[Fin 21e-6]]
  /\ (ABIpixelMap [[Fin 21e-6]] [[Fin 7e-6]]).2 !! 0%nat
     = Some [[Fin 7e-6]].
Proof.
  assert (E1 : pixel_center (Fin 14e-6) (Fin 20e-6) = Fin 21e-6).
  { rewrite pixel_center_fin by lra. apply FloatFacts.fin_eq.
    assert (Hf : Zfloor (Rabs (20e-6 / 14e-6)) = 1%Z).
    { apply Zfloor_eq. rewrite Rabs_right by lra. cbn [IZR IPR]. lra. }
    rewrite Hf. unfold Rsign.
    destruct (Rlt_dec (20e-6 / 14e-6) 0); [exfalso; lra |].
    destruct (Rlt_dec 0 (20e-6 / 14e-6)); [| exfalso; lra].
    cbn [IZR IPR]. lra. }
  assert (E2 : pixel_center (Fin 14e-6) (Fin 3e-6) = Fin 7e-6).
  { rewrite pixel_center_fin by lra. apply FloatFacts.fin_eq.
    assert (Hf : Zfloor (Rabs (3e-6 / 14e-6)) = 0%Z).
    { apply Zfloor_eq. rewrite Rabs_right by lra. cbn [IZR IPR]. lra. }
    rewrite Hf. unfold Rsign.
    destruct (Rlt_dec (3e-6 / 14e-6) 0); [exfalso; lra |].
    destruct (Rlt_dec 0 (3e-6 / 14e-6)); [| exfalso; lra].
    cbn [IZR IPR]. lra. }
  apply (ABIpixelMap_idempotent [[Fin 20e-6]] [[Fin 3e-6]]).
  - destruct (ABIpixelMap_band_pixel_center [[Fin 20e-6]] [[Fin 3e-6]]
                0%nat _ eq_refl) as [E _].
    rewrite E.
    change (Some [[pixel_center (Fin 14e-6) (Fin 20e-6)]] = Some [[Fin 21e-6]]).
    rewrite E1. reflexivity.
  - destruct (ABIpixelMap_band_pixel_center [[Fin 20e-6]] [[Fin 3e-6]]
                0%nat _ eq_refl) as [_ E].
    rewrite E.
    change (Some [[pixel_center (Fin 14e-6) (Fin 3e-6)]] = Some [[Fin 7e-6]]).
    rewrite E2. reflexivity.
Defined.

(** X26. [ABIpixelMap] returns, for each of the two axes, one grid per
    IFOV, three in all, each of the shape of the input grid; a NaN among
    the input angles, a ground cell that was masked, stays NaN in every
    band. *)
Theorem ABIpixelMap_shape_and_nan :
  forall gx gy rows cols,
    has_shape rows cols gx ->
    has_shape rows cols gy ->
    length (ABIpixelMap gx gy).1 = 3%nat
    /\ length (ABIpixelMap gx gy).2 = 3%nat
    /\ Forall (has_shape rows cols) (ABIpixelMap gx gy).1
    /\ Forall (has_shape rows cols) (ABIpixelMap gx gy).2
    /\ (forall k band r c,
          (ABIpixelMap gx gy).1 !! k = Some band ->
          cell gx r c = Some NaN -> cell band r c = Some NaN)
    /\ (forall k band r c,
          (ABIpixelMap gx gy).2 !! k = Some band ->
          cell gy r c = Some NaN -> cell band r c = Some NaN).
Proof.
  intros gx gy rows cols Hx Hy.
  split; [reflexivity |]. split; [reflexivity |].
  split; [| split; [| split]].
  - unfold ABIpixelMap, ifov. cbn [fst fmap list_fmap zip_with].
    repeat (apply List.Forall_cons;
            [repeat apply has_shape_grid_map; exact Hx |]).
    apply List.Forall_nil.
  - unfold ABIpixelMap, ifov. cbn [snd fmap list_fmap zip_with].
    repeat (apply List.Forall_cons;
            [repeat apply has_shape_grid_map; exact Hy |]).
    apply List.Forall_nil.
  - intros k band r c Hb Hc.
    assert (Hk : exists i, ifov !! k = Some i).
    { destruct k as [| [| [| k]]]; [eexists; reflexivity .. |].
      discriminate Hb. }
    destruct Hk as [i Hk].
    destruct (ABIpixelMap_band_pixel_center gx gy k _ Hk) as [Ex _].
    rewrite Ex in Hb. injection Hb as <-.
    rewrite cell_grid_map, Hc. cbn [fmap option_fmap option_map].
    rewrite pixel_center_nan. reflexivity.
  - intros k band r c Hb Hc.
    assert (Hk : exists i, ifov !! k = Some i).
    { destruct k as [| [| [| k]]]; [eexists; reflexivity .. |].
      discriminate Hb. }
    destruct Hk as [i Hk].
    destruct (ABIpixelMap_band_pixel_center gx gy k _ Hk) as [_ Ey].
    rewrite Ey in Hb. injection Hb as <-.
    rewrite cell_grid_map, Hc. cbn [fmap option_fmap option_map].
    rewrite pixel_center_nan. reflexivity.
Qed.

Lemma ABIpixelMap_shape_and_nan_witness :
  length (ABIpixelMap [[NaN; Fin 20e-6]] [[NaN; Fin 3e-6]]).1 = 3%nat
  /\ Forall (has_shape 1 2) (ABIpixelMap [[NaN; Fin 20e-6]] [[NaN; Fin 3e-6]]).1.
Proof.
  assert (H : has_shape 1 2 [[NaN; Fin 20e-6]]
              /\ has_shape 1 2 [[NaN; Fin 3e-6]]).
  { split; (split; [reflexivity | repeat constructor]). }
  destruct H as [H1 H2].
  destruct (ABIpixelMap_shape_and_nan _ _ 1%nat 2%nat H1 H2)
    as (L & _ & F & _).
  exact (conj L F).
Defined.

(** ** Look angles *)

(** X27. The azimuth [calcLookAngles] returns is NaN or lies between 90
    and 270 degrees, and the elevation is NaN or lies between -90 and 90
    degrees, whatever the three arguments are: both are an arctangent
    turned into degrees, and the azimuth is shifted by 180. *)
Theorem calcLookAngles_range :
  forall lon_deg lat_deg lon_0_deg,
    nan_or_within 90 270 (calcLookAngles lon_deg lat_deg lon_0_deg).1
    /\ nan_or_within (-90) 90 (calcLookAngles lon_deg lat_deg lon_0_deg).2.
Proof.
  intros lon_deg lat_deg lon_0_deg. unfold calcLookAngles. cbn [fst snd].
  split.
  - match goal with
    | |- nan_or_within _ _ (Float.degrees (Float.arctan ?a) + _)%fl =>
        destruct (degrees_range _ (arctan_range a)) as [-> | (v & -> & Hv)]
    end.
    + left. reflexivity.
    + right. exists (v + 180). split; [reflexivity | lra].
  - apply degrees_range, arctan_range.
Qed.

(** X28. For a ground point on the meridian of the satellite
    ([lon_deg = lon_0_deg]) the azimuth is 180 degrees at every latitude,
    provided the sine of the longitude is not 0. *)
Theorem calcLookAngles_satellite_meridian :
  forall lon lat_deg,
    sin (lon * (PI / 180)) <> 0 ->
    (calcLookAngles (Fin lon) lat_deg (Fin lon)).1 = Fin 180.
Proof.
  intros lon lat_deg Hs. unfold calcLookAngles. cbn [fst].
  rewrite FloatFacts.radians_fin, FloatFacts.sub_fin.
  replace (lon * (PI / 180) - lon * (PI / 180)) with 0 by ring.
  rewrite FloatFacts.tan_fin by (rewrite cos_0; lra).
  rewrite FloatFacts.sin_fin, FloatFacts.div_fin by exact Hs.
  rewrite FloatFacts.arctan_fin, FloatFacts.degrees_fin, FloatFacts.add_fin.
  apply FloatFacts.fin_eq.
  rewrite tan_0. unfold Rdiv at 1. rewrite Rmult_0_l, atan_0. ring.
Qed.

Lemma calcLookAngles_satellite_meridian_witness :
  (calcLookAngles (Fin 90) (Fin 40) (Fin 90)).1 = Fin 180.
Proof.
  apply (calcLookAngles_satellite_meridian 90 (Fin 40)).
  replace (90 * (PI / 180)) with (PI / 2) by field.
  rewrite sin_PI2. lra.
Defined.

(** X29. [calcLookAngles] does not use the latitude: [lat_deg] is turned
    into radians and never read again, and the elevation is computed from
    the cosine of the longitude, so two ground points of the same
    longitude get the same azimuth and the same elevation, whatever their
    latitudes. *)
Theorem calcLookAngles_ignores_latitude :
  forall lon_deg lat_deg lat_deg' lon_0_deg,
    calcLookAngles lon_deg lat_deg lon_0_deg
    = calcLookAngles lon_deg lat_deg' lon_0_deg.
Proof.
  intros lon_deg lat_deg lat_deg' lon_0_deg. reflexivity.
Qed.

(** ** The nearest sample *)

Lemma Rltb_true a b : Rltb a b = true <-> a < b.
Proof.
  unfold Rltb. destruct (Rlt_dec a b); split; intros; try assumption;
    try reflexivity; try discriminate; contradiction.
Qed.

Lemma Rltb_false a b : Rltb a b = false <-> b <= a.
Proof.
  unfold Rltb. destruct (Rlt_dec a b); split; intros; try reflexivity;
    try discriminate; lra.
Qed.

Lemma filter_fin_length (f : float64 -> bool) (l : list R) :
  length (List.filter f (Fin <$> l))
  = length (List.filter (fun r => f (Fin r)) l).
Proof.
  induction l as [| a l IH]; [reflexivity |].
  cbn [fmap list_fmap List.filter].
  change (list_fmap R float64 Fin l) with (Fin <$> l).
  destruct (f (Fin a)); cbn [length]; rewrite IH; reflexivity.
Qed.

Lemma filter_none {A} (p : A -> bool) (l : list A) :
  (forall k b, l !! k = Some b -> p b = false) -> List.filter p l = [].
Proof.
  induction l as [| a l IH]; intros H; [reflexivity |].
  cbn [List.filter]. rewrite (H 0%nat a eq_refl).
  apply IH. intros k b Hk. apply (H (S k) b Hk).
Qed.

(** On a list where the samples that satisfy [p] come first, the number of
    samples that satisfy [p] is the position of the first that does not. *)
Lemma filter_prefix {A} (p : A -> bool) (l : list A) :
  (forall j k a b, (j <= k)%nat -> l !! j = Some a -> l !! k = Some b ->
                   p b = true -> p a = true) ->
  forall k b, l !! k = Some b ->
    ((k < length (List.filter p l))%nat <-> p b = true).
Proof.
  induction l as [| a l IH]; intros H k b Hk; [discriminate |].
  assert (H' : forall j k a b, (j <= k)%nat -> l !! j = Some a ->
                 l !! k = Some b -> p b = true -> p a = true).
  { intros j k' x y Hjk Hj Hk'. apply (H (S j) (S k')); [lia | exact Hj | exact Hk']. }
  cbn [List.filter]. destruct (p a) eqn:Ea.
  - cbn [length]. destruct k as [| k].
    + injection Hk as <-. split; [intros _; exact Ea | lia].
    + rewrite <- (IH H' k b Hk). lia.
  - rewrite filter_none.
    + cbn [length]. split; [lia |]. intros Hb.
      rewrite (H 0%nat k a b) in Ea; [discriminate | lia | reflexivity
                                     | exact Hk | exact Hb].
    + intros j c Hj. destruct (p c) eqn:Ec; [| reflexivity].
      rewrite (H 0%nat (S j) a c) in Ea; [discriminate | lia | reflexivity
                                         | exact Hj | exact Ec].
Qed.

Lemma filter_negb_length {A} (p : A -> bool) (l : list A) :
  (length (List.filter p l)
   + length (List.filter (fun x => negb (p x)) l) = length l)%nat.
Proof.
  induction l as [| a l IH]; [reflexivity |].
  cbn [List.filter]. destruct (p a); cbn [negb length]; lia.
Qed.

Lemma leb_fin a b : Float.leb (Fin a) (Fin b) = true <-> a <= b.
Proof.
  unfold Float.leb. cbn [Float.ltb Float.eqb].
  destruct (Rlt_dec a b), (Req_dec_T a b); cbn [orb]; split; intros;
    try reflexivity; try discriminate; lra.
Qed.

Lemma increasing_pairs (l : list R) :
  is_monotonic_increasing (Fin <$> l) = true <->
  (forall j k a b, (j <= k)%nat -> l !! j = Some a -> l !! k = Some b ->
                   a <= b).
Proof.
  induction l as [| x l IH].
  - split; [intros _ j k a b _ Hj; discriminate | reflexivity].
  - destruct l as [| y l].
    + split; [| reflexivity].
      intros _ [| j] [| k] a b _ Hj Hk; try discriminate.
      injection Hj as <-. injection Hk as <-. lra.
    + change (is_monotonic_increasing (Fin <$> x :: y :: l))
        with (Float.leb (Fin x) (Fin y)
              && is_monotonic_increasing (Fin <$> y :: l)).
      rewrite andb_true_iff, leb_fin, IH. split.
      * intros [Hxy Hl] j k a b Hjk Hj Hk.
        destruct j as [| j].
        -- injection Hj as <-. destruct k as [| k].
           ++ injection Hk as <-. lra.
           ++ pose proof (Hl 0%nat k y b ltac:(lia) eq_refl Hk). lra.
        -- destruct k as [| k]; [lia |].
           apply (Hl j k a b); [lia | exact Hj | exact Hk].
      * intros H. split.
        -- apply (H 0%nat 1%nat); [lia | reflexivity | reflexivity].
        -- intros j k a b Hjk Hj Hk.
           apply (H (S j) (S k)); [lia | exact Hj | exact Hk].
Qed.

Lemma decreasing_pairs (l : list R) :
  is_monotonic_decreasing (Fin <$> l) = true <->
  (forall j k a b, (j <= k)%nat -> l !! j = Some a -> l !! k = Some b ->
                   b <= a).
Proof.
  induction l as [| x l IH].
  - split; [intros _ j k a b _ Hj; discriminate | reflexivity].
  - destruct l as [| y l].
    + split; [| reflexivity].
      intros _ [| j] [| k] a b _ Hj Hk; try discriminate.
      injection Hj as <-. injection Hk as <-. lra.
    + change (is_monotonic_decreasing (Fin <$> x :: y :: l))
        with (Float.leb (Fin y) (Fin x)
              && is_monotonic_decreasing (Fin <$> y :: l)).
      rewrite andb_true_iff, leb_fin, IH. split.
      * intros [Hxy Hl] j k a b Hjk Hj Hk.
        destruct j as [| j].
        -- injection Hj as <-. destruct k as [| k].
           ++ injection Hk as <-. lra.
           ++ pose proof (Hl 0%nat k y b ltac:(lia) eq_refl Hk). lra.
        -- destruct k as [| k]; [lia |].
           apply (Hl j k a b); [lia | exact Hj | exact Hk].
      * intros H. split.
        -- apply (H 0%nat 1%nat); [lia | reflexivity | reflexivity].
        -- intros j k a b Hjk Hj Hk.
           apply (H (S j) (S k)); [lia | exact Hj | exact Hk].
Qed.

Lemma searchsorted_rev a v left :
  searchsorted (rev a) v left = searchsorted a v left.
Proof.
  unfold searchsorted. rewrite List.filter_rev. apply length_rev.
Qed.

Lemma searchsorted_left_fin (l : list R) t :
  searchsorted (Fin <$> l) (Fin t) true
  = length (List.filter (fun r => Rltb r t) l).
Proof.
  unfold searchsorted. rewrite filter_fin_length. f_equal.
  apply List.filter_ext. intros r. unfold sort_lt. cbn. 
  rewrite orb_false_r. reflexivity.
Qed.

Lemma searchsorted_right_fin (l : list R) t :
  searchsorted (Fin <$> l) (Fin t) false
  = length (List.filter (fun r => negb (Rltb t r)) l).
Proof.
  unfold searchsorted. rewrite filter_fin_length. f_equal.
  apply List.filter_ext. intros r. unfold sort_le, sort_lt. cbn.
  rewrite orb_false_r. reflexivity.
Qed.

Lemma eqb_fin a b : Float.eqb (Fin a) (Fin b) = true <-> a = b.
Proof.
  cbn. destruct (Req_dec_T a b); split; intros; try reflexivity;
    try assumption; try discriminate; contradiction.
Qed.

Lemma exact_indexer_miss (l : list R) t :
  (exact_indexer (Fin <$> l) (Fin t) < 0)%Z ->
  forall k b, l !! k = Some b -> b <> t.
Proof.
  intros Hm k b Hk ->.
  assert (H : (0 <= exact_indexer (Fin <$> l) (Fin t))%Z).
  { apply (exact_indexer_found _ _ k (Fin t)).
    - rewrite list_lookup_fmap, Hk. reflexivity.
    - apply eqb_fin. reflexivity. }
  lia.
Qed.

(** Without a sample equal to the label, the two sides of the search give
    the same position. *)
Lemma searchsorted_sides (l : list R) t :
  (forall k b, l !! k = Some b -> b <> t) ->
  searchsorted (Fin <$> l) (Fin t) false
  = searchsorted (Fin <$> l) (Fin t) true.
Proof.
  intros Hne. rewrite searchsorted_left_fin, searchsorted_right_fin.
  f_equal. apply List.filter_ext_in. intros b Hb.
  apply list_elem_of_In, list_elem_of_lookup in Hb. destruct Hb as [k Hk].
  specialize (Hne k b Hk). unfold Rltb.
  destruct (Rlt_dec t b), (Rlt_dec b t); cbn; try reflexivity; exfalso; lra.
Qed.

Lemma distance_at (l : list R) t (j : nat) a :
  l !! j = Some a ->
  distance (Fin <$> l) (Fin t) (Z.of_nat j) = Fin (Rabs (a - t)).
Proof.
  intros Hj. unfold distance, py_getitem.
  destruct (Z.of_nat j <? 0)%Z eqn:E; [apply Z.ltb_lt in E; lia |].
  rewrite Nat2Z.id, list_lookup_fmap, Hj. reflexivity.
Qed.

Lemma distance_last (l : list R) t a :
  l !! (length l - 1)%nat = Some a ->
  distance (Fin <$> l) (Fin t) (-1) = Fin (Rabs (a - t)).
Proof.
  intros Hj. unfold distance, py_getitem.
  assert (Hn : (0 < length l)%nat).
  { apply lookup_lt_Some in Hj. lia. }
  change (-1 <? 0)%Z with true. cbv iota.
  rewrite length_fmap.
  destruct (Z.of_nat (length l) + -1 <? 0)%Z eqn:E; [apply Z.ltb_lt in E; lia |].
  replace (Z.to_nat (Z.of_nat (length l) + -1)) with (length l - 1)%nat by lia.
  rewrite list_lookup_fmap, Hj. reflexivity.
Qed.

Ltac rabs :=
  unfold Rabs in *;
  repeat match goal with
         | |- context [Rcase_abs ?x] => destruct (Rcase_abs x)
         | H : context [Rcase_abs ?x] |- _ => destruct (Rcase_abs x)
         end; lra.

Lemma nearest_indexer_hit index label :
  (0 <= exact_indexer index label)%Z ->
  nearest_indexer index label = exact_indexer index label.
Proof.
  intros H. unfold nearest_indexer, pad_indexer, backfill_indexer.
  destruct (exact_indexer index label <? 0)%Z eqn:E; [apply Z.ltb_lt in E; lia |].
  cbv zeta. match goal with |- (if ?c then _ else _) = _ => destruct c end;
    reflexivity.
Qed.

Lemma nearest_increasing_miss (l : list R) t :
  l <> [] ->
  is_monotonic_increasing (Fin <$> l) = true ->
  (exact_indexer (Fin <$> l) (Fin t) < 0)%Z ->
  exists j a,
    nearest_indexer (Fin <$> l) (Fin t) = Z.of_nat j
    /\ l !! j = Some a
    /\ forall k b, l !! k = Some b -> Rabs (a - t) <= Rabs (b - t).
Proof.
  intros Hne Hinc Hmiss.
  pose proof (exact_indexer_miss l t Hmiss) as Hneq.
  pose proof (proj1 (increasing_pairs l) Hinc) as Hpairs.
  set (c := length (List.filter (fun r => Rltb r t) l)).
  assert (HL : searchsorted_monotonic (Fin <$> l) (Fin t) true = c).
  { unfold searchsorted_monotonic. rewrite Hinc.
    apply searchsorted_left_fin. }
  assert (HR : searchsorted_monotonic (Fin <$> l) (Fin t) false = c).
  { unfold searchsorted_monotonic. rewrite Hinc.
    rewrite searchsorted_sides by exact Hneq. apply searchsorted_left_fin. }
  assert (Hc : forall k b, l !! k = Some b -> ((k < c)%nat <-> b < t)).
  { intros k b Hk. unfold c.
    assert (Hp : forall j k' x y, (j <= k')%nat -> l !! j = Some x ->
                   l !! k' = Some y -> Rltb y t = true -> Rltb x t = true).
    { intros j k' x y Hjk Hj Hk'. rewrite !Rltb_true.
      pose proof (Hpairs j k' x y Hjk Hj Hk'). lra. }
    rewrite (filter_prefix (fun r => Rltb r t) l Hp k b Hk).
    apply Rltb_true. }
  assert (Hcn : (c <= length l)%nat) by apply List.filter_length_le.
  assert (Hn : (0 < length l)%nat).
  { destruct l; [contradiction | cbn; lia]. }
  unfold nearest_indexer, pad_indexer, backfill_indexer.
  rewrite Hinc, HL, HR, length_fmap.
  destruct (exact_indexer (Fin <$> l) (Fin t) <? 0)%Z eqn:E;
    [| apply Z.ltb_ge in E; lia].
  cbv zeta.
  destruct (lookup_lt_is_Some_2 l 0%nat Hn) as [first Hfirst].
  destruct (lookup_lt_is_Some_2 l (length l - 1)%nat ltac:(lia))
    as [last Hlast].
  destruct (Nat.eq_dec c 0%nat) as [C0 | C0];
    [| destruct (Nat.eq_dec c (length l)) as [Cn | Cn]].
  - (* every sample is above the label *)
    rewrite C0.
    destruct (Z.of_nat 0 =? Z.of_nat (length l))%Z eqn:E0;
      [apply Z.eqb_eq in E0; lia |].
    change (Z.of_nat 0 - 1)%Z with (-1)%Z.
    rewrite (distance_last l t last Hlast), (distance_at l t 0%nat first Hfirst).
    assert (Hft : t < first).
    { pose proof (Hc 0%nat first Hfirst) as [_ H].
      pose proof (Hneq 0%nat first Hfirst).
      destruct (Rlt_dec first t) as [Hlt |]; [apply H in Hlt; lia | lra]. }
    pose proof (Hpairs 0%nat (length l - 1)%nat first last ltac:(lia) Hfirst Hlast) as Hfl.
    change (Float.ltb (Fin ?x) (Fin ?y)) with (Rltb x y).
    assert (Ecl : Rltb (Rabs (last - t)) (Rabs (first - t)) = false).
    { apply Rltb_false. rabs. }
    rewrite Ecl. cbn [orb]. change (Z.of_nat 0 =? -1)%Z with false. cbv iota.
    exists 0%nat, first. split; [reflexivity |]. split; [exact Hfirst |].
    intros k b Hk.
    pose proof (Hpairs 0%nat k first b ltac:(lia) Hfirst Hk). rabs.
  - (* every sample is below the label *)
    rewrite Cn, Z.eqb_refl.
    change (-1 =? -1)%Z with true. rewrite orb_true_r.
    exists (length l - 1)%nat, last.
    split; [lia |]. split; [exact Hlast |].
    intros k b Hk.
    assert (Hlt : last < t) by (apply (Hc _ _ Hlast); lia).
    pose proof (lookup_lt_Some _ _ _ Hk).
    pose proof (Hpairs k (length l - 1)%nat b last ltac:(lia) Hk Hlast). rabs.
  - (* the label lies between two samples *)
    destruct (lookup_lt_is_Some_2 l (c - 1)%nat ltac:(lia)) as [aL HaL].
    destruct (lookup_lt_is_Some_2 l c ltac:(lia)) as [aR HaR].
    destruct (Z.of_nat c =? Z.of_nat (length l))%Z eqn:E0;
      [apply Z.eqb_eq in E0; lia |].
    destruct (Z.of_nat c =? -1)%Z eqn:E1; [apply Z.eqb_eq in E1; lia |].
    replace (Z.of_nat c - 1)%Z with (Z.of_nat (c - 1)) by lia.
    rewrite (distance_at l t _ aL HaL), (distance_at l t _ aR HaR).
    assert (HLt : aL < t) by (apply (Hc _ _ HaL); lia).
    assert (HRt : t < aR).
    { pose proof (Hc _ _ HaR) as [_ H]. pose proof (Hneq _ _ HaR).
      destruct (Rlt_dec aR t) as [Hlt |]; [apply H in Hlt; lia | lra]. }
    change (Float.ltb (Fin ?x) (Fin ?y)) with (Rltb x y).
    rewrite orb_false_r.
    destruct (Rltb (Rabs (aL - t)) (Rabs (aR - t))) eqn:Ecl.
    + apply Rltb_true in Ecl.
      exists (c - 1)%nat, aL. split; [reflexivity |]. split; [exact HaL |].
      intros k b Hk. destruct (Nat.lt_ge_cases k c) as [Hkc | Hkc].
      * pose proof (Hpairs k (c - 1)%nat b aL ltac:(lia) Hk HaL).
        assert (b < t) by (apply (Hc _ _ Hk); exact Hkc). rabs.
      * pose proof (Hpairs c k aR b Hkc HaR Hk). rabs.
    + apply Rltb_false in Ecl.
      exists c, aR. split; [reflexivity |]. split; [exact HaR |].
      intros k b Hk. destruct (Nat.lt_ge_cases k c) as [Hkc | Hkc].
      * pose proof (Hpairs k (c - 1)%nat b aL ltac:(lia) Hk HaL).
        assert (b < t) by (apply (Hc _ _ Hk); exact Hkc). rabs.
      * pose proof (Hpairs c k aR b Hkc HaR Hk). rabs.
Qed.

(** A decreasing axis that is not increasing as well starts above its
    end. *)
Lemma decreasing_first_above_last (l : list R) first last :
  is_monotonic_increasing (Fin <$> l) = false ->
  is_monotonic_decreasing (Fin <$> l) = true ->
  l !! 0%nat = Some first ->
  l !! (length l - 1)%nat = Some last ->
  last < first.
Proof.
  intros Hinc Hdec Hfirst Hlast.
  pose proof (proj1 (decreasing_pairs l) Hdec) as Hpairs.
  destruct (Rlt_dec last first) as [| Hge]; [assumption |].
  exfalso. rewrite (proj2 (increasing_pairs l)) in Hinc; [discriminate |].
  intros j k a b Hjk Hj Hk.
  pose proof (lookup_lt_Some _ _ _ Hk).
  pose proof (Hpairs 0%nat j first a ltac:(lia) Hfirst Hj).
  pose proof (Hpairs k (length l - 1)%nat b last ltac:(lia) Hk Hlast).
  lra.
Qed.

Lemma nearest_decreasing_miss (l : list R) t :
  l <> [] ->
  is_monotonic_increasing (Fin <$> l) = false ->
  is_monotonic_decreasing (Fin <$> l) = true ->
  (exact_indexer (Fin <$> l) (Fin t) < 0)%Z ->
  exists j a,
    nearest_indexer (Fin <$> l) (Fin t) = Z.of_nat j
    /\ l !! j = Some a
    /\ forall k b, l !! k = Some b -> Rabs (a - t) <= Rabs (b - t).
Proof.
  intros Hne Hinc Hdec Hmiss.
  pose proof (exact_indexer_miss l t Hmiss) as Hneq.
  pose proof (proj1 (decreasing_pairs l) Hdec) as Hpairs.
  set (g := length (List.filter (fun r => negb (Rltb r t)) l)).
  assert (Hcount : (length l
                    - length (List.filter (fun r => Rltb r t) l))%nat = g).
  { pose proof (filter_negb_length (fun r => Rltb r t) l). unfold g. lia. }
  assert (HL : searchsorted_monotonic (Fin <$> l) (Fin t) true = g).
  { unfold searchsorted_monotonic. rewrite Hinc, searchsorted_rev, length_fmap.
    cbn [negb]. rewrite searchsorted_sides by exact Hneq.
    rewrite searchsorted_left_fin. exact Hcount. }
  assert (HR : searchsorted_monotonic (Fin <$> l) (Fin t) false = g).
  { unfold searchsorted_monotonic. rewrite Hinc, searchsorted_rev, length_fmap.
    cbn [negb]. rewrite searchsorted_left_fin. exact Hcount. }
  assert (Hg : forall k b, l !! k = Some b -> ((k < g)%nat <-> t < b)).
  { intros k b Hk. unfold g.
    assert (Hp : forall j k' x y, (j <= k')%nat -> l !! j = Some x ->
                   l !! k' = Some y -> negb (Rltb y t) = true ->
                   negb (Rltb x t) = true).
    { intros j k' x y Hjk Hj Hk'. rewrite !negb_true_iff, !Rltb_false.
      pose proof (Hpairs j k' x y Hjk Hj Hk'). lra. }
    rewrite (filter_prefix (fun r => negb (Rltb r t)) l Hp k b Hk).
    rewrite negb_true_iff, Rltb_false.
    pose proof (Hneq k b Hk). split; intros; lra. }
  assert (Hgn : (g <= length l)%nat) by apply List.filter_length_le.
  assert (Hn : (0 < length l)%nat).
  { destruct l; [contradiction | cbn; lia]. }
  unfold nearest_indexer, pad_indexer, backfill_indexer.
  rewrite Hinc, HL, HR, length_fmap.
  destruct (exact_indexer (Fin <$> l) (Fin t) <? 0)%Z eqn:E;
    [| apply Z.ltb_ge in E; lia].
  cbv zeta.
  destruct (lookup_lt_is_Some_2 l 0%nat Hn) as [first Hfirst].
  destruct (lookup_lt_is_Some_2 l (length l - 1)%nat ltac:(lia))
    as [last Hlast].
  destruct (Nat.eq_dec g 0%nat) as [G0 | G0];
    [| destruct (Nat.eq_dec g (length l)) as [Gn | Gn]].
  - (* every sample is below the label *)
    rewrite G0.
    destruct (Z.of_nat 0 =? Z.of_nat (length l))%Z eqn:E0;
      [apply Z.eqb_eq in E0; lia |].
    change (Z.of_nat 0 - 1)%Z with (-1)%Z.
    rewrite (distance_last l t last Hlast), (distance_at l t 0%nat first Hfirst).
    assert (Hft : first < t).
    { pose proof (Hg 0%nat first Hfirst) as [_ H].
      pose proof (Hneq 0%nat first Hfirst).
      destruct (Rlt_dec t first) as [Hlt |]; [apply H in Hlt; lia | lra]. }
    pose proof (decreasing_first_above_last l first last Hinc Hdec
                  Hfirst Hlast) as Hfl.
    assert (Ecl : Float.leb (Fin (Rabs (last - t))) (Fin (Rabs (first - t)))
                  = false).
    { destruct (Float.leb _ _) eqn:Ecl; [| reflexivity].
      apply leb_fin in Ecl. exfalso. rabs. }
    rewrite Ecl. cbn [orb]. change (Z.of_nat 0 =? -1)%Z with false. cbv iota.
    exists 0%nat, first. split; [reflexivity |]. split; [exact Hfirst |].
    intros k b Hk.
    pose proof (Hpairs 0%nat k first b ltac:(lia) Hfirst Hk). rabs.
  - (* every sample is above the label *)
    rewrite Gn, Z.eqb_refl.
    change (-1 =? -1)%Z with true. rewrite orb_true_r.
    exists (length l - 1)%nat, last.
    split; [lia |]. split; [exact Hlast |].
    intros k b Hk.
    assert (Hlt : t < last) by (apply (Hg _ _ Hlast); lia).
    pose proof (lookup_lt_Some _ _ _ Hk).
    pose proof (Hpairs k (length l - 1)%nat b last ltac:(lia) Hk Hlast). rabs.
  - (* the label lies between two samples *)
    destruct (lookup_lt_is_Some_2 l (g - 1)%nat ltac:(lia)) as [aL HaL].
    destruct (lookup_lt_is_Some_2 l g ltac:(lia)) as [aR HaR].
    destruct (Z.of_nat g =? Z.of_nat (length l))%Z eqn:E0;
      [apply Z.eqb_eq in E0; lia |].
    destruct (Z.of_nat g =? -1)%Z eqn:E1; [apply Z.eqb_eq in E1; lia |].
    replace (Z.of_nat g - 1)%Z with (Z.of_nat (g - 1)) by lia.
    rewrite (distance_at l t _ aL HaL), (distance_at l t _ aR HaR).
    assert (HLt : t < aL) by (apply (Hg _ _ HaL); lia).
    assert (HRt : aR < t).
    { pose proof (Hg _ _ HaR) as [_ H]. pose proof (Hneq _ _ HaR).
      destruct (Rlt_dec t aR) as [Hlt |]; [apply H in Hlt; lia | lra]. }
    rewrite orb_false_r.
    destruct (Float.leb (Fin (Rabs (aL - t))) (Fin (Rabs (aR - t)))) eqn:Ecl.
    + apply leb_fin in Ecl.
      exists (g - 1)%nat, aL. split; [reflexivity |]. split; [exact HaL |].
      intros k b Hk. destruct (Nat.lt_ge_cases k g) as [Hkg | Hkg].
      * pose proof (Hpairs k (g - 1)%nat b aL ltac:(lia) Hk HaL).
        assert (t < b) by (apply (Hg _ _ Hk); exact Hkg). rabs.
      * pose proof (Hpairs g k aR b Hkg HaR Hk). rabs.
    + assert (Hcl : Rabs (aR - t) < Rabs (aL - t)).
      { destruct (Rlt_dec (Rabs (aR - t)) (Rabs (aL - t))); [assumption |].
        rewrite (proj2 (leb_fin _ _)) in Ecl; [discriminate | lra]. }
      exists g, aR. split; [reflexivity |]. split; [exact HaR |].
      intros k b Hk. destruct (Nat.lt_ge_cases k g) as [Hkg | Hkg].
      * pose proof (Hpairs k (g - 1)%nat b aL ltac:(lia) Hk HaL).
        assert (t < b) by (apply (Hg _ _ Hk); exact Hkg). rabs.
      * pose proof (Hpairs g k aR b Hkg HaR Hk). rabs.
Qed.


